(** * Documentation-site scripts: text transforms, link fixing, page
      generation and registry re-tagging

    A shallow embedding of the Python scripts
      - scripts/apply_styling.py          ([convert_to_styled_format])
      - scripts/fix_all_pillar_links.py   ([fix_pillar_links])
      - scripts/fix_relative_links.py     ([fix_pillar_index_links])
      - scripts/update_pillar_order.py    ([update_pillar_nav_order])
      - scripts/generate_wafr_pages.py    ([fetch_wafr_questions], [main])
      - Docs/dr-plan/pdf/ecr-replication.py (module body)

    Text is a list of characters.  A character is a code point below 256,
    so the development covers Latin-1 text; the classes used by the
    scripts ([A-Z], \d, \s, '.') are given on that range as CPython
    defines them for [str] patterns. *)

From Stdlib Require Import String Ascii List Bool Arith Lia NArith.
From Stdlib Require Import Numbers.DecimalString.
Import ListNotations.
Open Scope list_scope.
Open Scope bool_scope.

(** ** Text *)

Definition str := list ascii.

Definition LF : ascii := ascii_of_nat 10.
Definition DQ : ascii := ascii_of_nat 34.
Definition CR : ascii := ascii_of_nat 13.
Definition BSL : ascii := ascii_of_nat 92.

(** Literals of the Python sources are written with [py]: backslash-n is
    the line feed and backslash-q the double quote character; every other
    character stands for itself. *)
Fixpoint py (s : string) : str :=
  match s with
  | EmptyString => []
  | String c r =>
      if Ascii.eqb c BSL then
        match r with
        | String d r' =>
            if Ascii.eqb d "n" then LF :: py r'
            else if Ascii.eqb d "q" then DQ :: py r'
            else c :: py r
        | EmptyString => [c]
        end
      else c :: py r
  end.

Definition code (c : ascii) : N := N_of_ascii c.

Definition in_range (lo hi : N) (c : ascii) : bool :=
  (lo <=? code c)%N && (code c <=? hi)%N.

(** [A-Z] *)
Definition is_upper (c : ascii) : bool := in_range 65 90 c.
(** \d *)
Definition is_digit (c : ascii) : bool := in_range 48 57 c.
(** \s, and the characters removed by [str.strip()] *)
Definition is_space (c : ascii) : bool :=
  in_range 9 13 c || in_range 28 32 c
  || (code c =? 133)%N || (code c =? 160)%N.
(** '.' without DOTALL *)
Definition not_newline (c : ascii) : bool := negb (Ascii.eqb c LF).
(** '.' with DOTALL *)
Definition any_char (c : ascii) : bool := true.

Fixpoint str_eqb (a b : str) : bool :=
  match a, b with
  | [], [] => true
  | x :: a', y :: b' => Ascii.eqb x y && str_eqb a' b'
  | _, _ => false
  end.

(** [s.startswith(p)] *)
Fixpoint startswith (p s : str) : bool :=
  match p, s with
  | [], _ => true
  | x :: p', y :: s' => Ascii.eqb x y && startswith p' s'
  | _ :: _, [] => false
  end.

(** [p in s] *)
Fixpoint contains (p s : str) : bool :=
  startswith p s ||
  match s with
  | [] => false
  | _ :: s' => contains p s'
  end.

Fixpoint lstrip (s : str) : str :=
  match s with
  | c :: s' => if is_space c then lstrip s' else s
  | [] => []
  end.

Definition rstrip (s : str) : str := rev (lstrip (rev s)).

(** [s.strip()] *)
Definition strip (s : str) : str := rstrip (lstrip s).

(** [s.replace(old, new)]: every occurrence, left to right, occurrences
    not overlapping.  [skip] counts the characters of an occurrence still
    to be passed over. *)
Fixpoint replace_go (old new : str) (skip : nat) (s : str) : str :=
  match s with
  | [] => []
  | c :: s' =>
      match skip with
      | S k => replace_go old new k s'
      | O =>
          if startswith old s
          then new ++ replace_go old new (length old - 1) s'
          else c :: replace_go old new 0 s'
      end
  end.

Fixpoint intersperse_new (new s : str) : str :=
  match s with
  | [] => new
  | c :: s' => new ++ c :: intersperse_new new s'
  end.

Definition replace (s old new : str) : str :=
  match old with
  | [] => intersperse_new new s
  | _ :: _ => replace_go old new 0 s
  end.

(** [str(i)] for a non-negative integer *)
Definition str_of_nat (n : nat) : str :=
  list_ascii_of_string (NilEmpty.string_of_uint (Nat.to_uint n)).

(** ** Regular expressions

    The fragment of Python's [re] syntax the scripts use.  Repetition is
    only ever applied to a single character class, greedy ([+], [*]) or
    lazy ([*?]); groups are numbered as in the pattern. *)

Inductive regex : Type :=
| Lit (w : str)                                     (* literal text *)
| Rep (greedy : bool) (min : nat) (cls : ascii -> bool)
                                   (* cls{min,} or cls{min,}? *)
| Cat (r1 r2 : regex)
| Alt (r1 r2 : regex)                               (* r1|r2 *)
| Opt (r : regex)                                   (* (?:r)? *)
| Group (i : nat) (r : regex)                       (* (r), group i *)
| Ahead (r : regex)                                 (* (?=r) *)
| Bos                                               (* ^ *)
| Eos.                                              (* \Z *)

Definition captures := list (nat * str).

Fixpoint group (i : nat) (caps : captures) : str :=
  match caps with
  | [] => []
  | (j, w) :: caps' => if Nat.eqb i j then w else group i caps'
  end.

Section Matcher.

Context {R : Type}.

(** Greedy repetition of a class: the longest run first, giving back
    one character at a time. *)
Fixpoint rep_greedy (cls : ascii -> bool) (min pos : nat) (s : str)
         (k : nat -> str -> option R) {struct s} : option R :=
  match s with
  | c :: s' =>
      if cls c then
        match rep_greedy cls (pred min) (S pos) s' k with
        | Some r => Some r
        | None => if Nat.eqb min 0 then k pos s else None
        end
      else if Nat.eqb min 0 then k pos s else None
  | [] => if Nat.eqb min 0 then k pos s else None
  end.

(** Lazy repetition of a class: the shortest run first, taking one more
    character at a time. *)
Fixpoint rep_lazy (cls : ascii -> bool) (min pos : nat) (s : str)
         (k : nat -> str -> option R) {struct s} : option R :=
  match min with
  | O =>
      match k pos s with
      | Some r => Some r
      | None =>
          match s with
          | c :: s' => if cls c then rep_lazy cls 0 (S pos) s' k else None
          | [] => None
          end
      end
  | S n =>
      match s with
      | c :: s' => if cls c then rep_lazy cls n (S pos) s' k else None
      | [] => None
      end
  end.

End Matcher.

(** Backtracking matcher in continuation-passing style: [pos] is the
    offset of [s] in the subject, [k] the rest of the pattern.  The first
    success in the order of the alternatives is the result, as in the
    [re] module.  A lookahead runs its body with the trivial continuation
    and consumes nothing. *)
Fixpoint rmatch (r : regex) (R : Type) (pos : nat) (s : str)
         (caps : captures) (k : nat -> str -> captures -> option R)
         {struct r} : option R :=
  match r with
  | Lit w =>
      if startswith w s then k (pos + length w) (skipn (length w) s) caps
      else None
  | Rep true min cls => rep_greedy cls min pos s (fun p t => k p t caps)
  | Rep false min cls => rep_lazy cls min pos s (fun p t => k p t caps)
  | Cat r1 r2 =>
      rmatch r1 R pos s caps (fun p t c => rmatch r2 R p t c k)
  | Alt r1 r2 =>
      match rmatch r1 R pos s caps k with
      | Some x => Some x
      | None => rmatch r2 R pos s caps k
      end
  | Opt r1 =>
      match rmatch r1 R pos s caps k with
      | Some x => Some x
      | None => k pos s caps
      end
  | Group i r1 =>
      rmatch r1 R pos s caps
             (fun p t c => k p t ((i, firstn (p - pos) s) :: c))
  | Ahead r1 =>
      match rmatch r1 captures pos s caps (fun _ _ c => Some c) with
      | Some c => k pos s c
      | None => None
      end
  | Bos => if Nat.eqb pos 0 then k pos s caps else None
  | Eos => match s with [] => k pos s caps | _ :: _ => None end
  end.

(** A match object: where the match starts, the text matched (group 0),
    the groups, and the text after the match. *)
Record rmatch_result : Type := MatchResult {
  m_start : nat;
  m_text : str;
  m_groups : captures;
  m_rest : str
}.

(** One attempt at offset [pos], [s] being the subject from there on. *)
Definition match_at (r : regex) (pos : nat) (s : str) : option rmatch_result :=
  rmatch r rmatch_result pos s []
         (fun p t c => Some (MatchResult pos (firstn (p - pos) s) c t)).

(** [re.match(r, s)] *)
Definition re_match (r : regex) (s : str) : option rmatch_result :=
  match_at r 0 s.

Fixpoint search_from (r : regex) (pos : nat) (s : str) : option rmatch_result :=
  match match_at r pos s with
  | Some res => Some res
  | None =>
      match s with
      | [] => None
      | _ :: s' => search_from r (S pos) s'
      end
  end.

(** [re.search(r, s)]: the leftmost position at which [r] matches. *)
Definition re_search (r : regex) (s : str) : option rmatch_result :=
  search_from r 0 s.

(** The successive matches of [re.finditer]: non-overlapping, left to
    right.  After a match of [n > 0] characters the scan resumes behind
    it ([skip] counts the characters passed over); none of the patterns
    below matches the empty string, after which the scan would resume one
    character further. *)
Fixpoint finditer_go (r : regex) (pos skip : nat) (s : str) : list rmatch_result :=
  match skip with
  | S k =>
      match s with
      | [] => []
      | _ :: s' => finditer_go r (S pos) k s'
      end
  | O =>
      match match_at r pos s with
      | Some res =>
          res :: match s with
                 | [] => []
                 | _ :: s' => finditer_go r (S pos) (length (m_text res) - 1) s'
                 end
      | None =>
          match s with
          | [] => []
          | _ :: s' => finditer_go r (S pos) 0 s'
          end
      end
  end.

Definition finditer (r : regex) (s : str) : list rmatch_result :=
  finditer_go r 0 0 s.

(** [re.findall] for a pattern with one group, and with two. *)
Definition findall1 (r : regex) (s : str) : list str :=
  map (fun res => group 1 (m_groups res)) (finditer r s).

Definition findall2 (r : regex) (s : str) : list (str * str) :=
  map (fun res => (group 1 (m_groups res), group 2 (m_groups res)))
      (finditer r s).

(** [re.sub(r, repl, s)] with a replacement function, every match. *)
Fixpoint sub_go (r : regex) (repl : rmatch_result -> str) (pos skip : nat)
         (s : str) : str :=
  match skip with
  | S k =>
      match s with
      | [] => []
      | _ :: s' => sub_go r repl (S pos) k s'
      end
  | O =>
      match match_at r pos s with
      | Some res =>
          repl res ++
          match s with
          | [] => []
          | c :: s' =>
              match m_text res with
              | [] => c :: sub_go r repl (S pos) 0 s'
              | _ :: w => sub_go r repl (S pos) (length w) s'
              end
          end
      | None =>
          match s with
          | [] => []
          | c :: s' => c :: sub_go r repl (S pos) 0 s'
          end
      end
  end.

Definition re_sub (r : regex) (repl : rmatch_result -> str) (s : str) : str :=
  sub_go r repl 0 0 s.

(** [re.sub(r, repl, s, 1)]: the first match only. *)
Definition re_sub1 (r : regex) (repl : str) (s : str) : str :=
  match re_search r s with
  | Some res => firstn (m_start res) s ++ repl ++ m_rest res
  | None => s
  end.

Notation "r1 +++ r2" := (Cat r1 r2) (at level 61, right associativity).

(** ** scripts/apply_styling.py *)

Module ApplyStyling.

(** r'^---\n(.*?)\n---\n', re.DOTALL *)
Definition front_matter_re : regex :=
  Bos +++ Lit (py "---\n") +++ Group 1 (Rep false 0 any_char)
      +++ Lit (py "\n---\n").

(** r'# ([A-Z]+\d+): (.*?)\n' *)
Definition title_re : regex :=
  Lit (py "# ") +++ Group 1 (Rep true 1 is_upper +++ Rep true 1 is_digit)
      +++ Lit (py ": ") +++ Group 2 (Rep false 0 not_newline)
      +++ Lit (py "\n").

(** r'# [A-Z]+\d+: .*?\n\n(.*?)\n\n', re.DOTALL *)
Definition description_re : regex :=
  Lit (py "# ") +++ Rep true 1 is_upper +++ Rep true 1 is_digit
      +++ Lit (py ": ") +++ Rep false 0 any_char +++ Lit (py "\n\n")
      +++ Group 1 (Rep false 0 any_char) +++ Lit (py "\n\n").

(** r'# [A-Z]+\d+: .*?\n\n' *)
Definition bare_header_re : regex :=
  Lit (py "# ") +++ Rep true 1 is_upper +++ Rep true 1 is_digit
      +++ Lit (py ": ") +++ Rep false 0 not_newline +++ Lit (py "\n\n").

(** r'## <name>\n\n(.*?)(?=\n##|\Z)', re.DOTALL, for a section name *)
Definition section_re (heading : str) : regex :=
  Lit heading +++ Group 1 (Rep false 0 any_char)
      +++ Ahead (Alt (Lit (py "\n##")) Eos).

Definition best_practices_heading : str := py "## Best Practices\n\n".
Definition impl_heading : str := py "## Implementation Guidance\n\n".
Definition services_heading : str := py "## AWS Services to Consider\n\n".
Definition resources_heading : str := py "## Related Resources\n\n".

(** r'### (.*?)\n(.*?)(?=\n###|\Z)', re.DOTALL *)
Definition practice_re : regex :=
  Lit (py "### ") +++ Group 1 (Rep false 0 any_char) +++ Lit (py "\n")
      +++ Group 2 (Rep false 0 any_char)
      +++ Ahead (Alt (Lit (py "\n###")) Eos).

(** (?=\n\d+\.|\Z) *)
Definition next_step_ahead : regex :=
  Ahead (Alt (Lit (py "\n") +++ Rep true 1 is_digit +++ Lit (py ".")) Eos).

(** r'\d+\.\s+\*\*(.*?)\*\*:(.*?)(?=\n\d+\.|\Z)', re.DOTALL *)
Definition bold_step_re : regex :=
  Rep true 1 is_digit +++ Lit (py ".") +++ Rep true 1 is_space
      +++ Lit (py "**") +++ Group 1 (Rep false 0 any_char)
      +++ Lit (py "**:") +++ Group 2 (Rep false 0 any_char)
      +++ next_step_ahead.

(** r'(\d+\.\s+.*?)(?=\n\d+\.|\Z)', re.DOTALL *)
Definition numbered_step_re : regex :=
  Group 1 (Rep true 1 is_digit +++ Lit (py ".") +++ Rep true 1 is_space
             +++ Rep false 0 any_char)
      +++ next_step_ahead.

(** r'^\d+\.\s+' *)
Definition step_number_re : regex :=
  Bos +++ Rep true 1 is_digit +++ Lit (py ".") +++ Rep true 1 is_space.

(** (?=\n-|\Z) *)
Definition next_item_ahead : regex := Ahead (Alt (Lit (py "\n-")) Eos).

(** r'- \*\*(.*?)\*\* - (.*?)(?=\n-|\Z)', re.DOTALL *)
Definition bold_service_re : regex :=
  Lit (py "- **") +++ Group 1 (Rep false 0 any_char) +++ Lit (py "** - ")
      +++ Group 2 (Rep false 0 any_char) +++ next_item_ahead.

(** r'- (.*?)(?=\n-|\Z)', re.DOTALL *)
Definition list_item_re : regex :=
  Lit (py "- ") +++ Group 1 (Rep false 0 any_char) +++ next_item_ahead.

(** r'- \[(.*?)\]\((.*?)\)' *)
Definition link_item_re : regex :=
  Lit (py "- [") +++ Group 1 (Rep false 0 not_newline) +++ Lit (py "](")
      +++ Group 2 (Rep false 0 not_newline) +++ Lit (py ")").

Definition default_description : str :=
  py "*This page contains guidance for addressing this question from the AWS Well-Architected Framework.*".

Definition new_header (question_id question_title description : str) : str :=
  py "<div class=\qpillar-header\q>\n  <h1>" ++ question_id ++ py ": "
     ++ question_title ++ py "</h1>\n  <p>" ++ description
     ++ py "</p>\n</div>\n\n".

Definition best_practice_div (practice_title practice_content : str) : str :=
  py "<div class=\qbest-practice\q>\n  <h4>" ++ practice_title
     ++ py "</h4>\n  <p>" ++ practice_content ++ py "</p>\n</div>\n\n".

Definition implementation_step_div (title text : str) : str :=
  py "<div class=\qimplementation-step\q>\n  <h4>" ++ title
     ++ py "</h4>\n  <p>" ++ text ++ py "</p>\n</div>\n\n".

Definition aws_service_div (service_name service_desc : str) : str :=
  py "<div class=\qaws-service\q>\n  <div class=\qaws-service-content\q>\n    <h4>"
     ++ service_name ++ py "</h4>\n    <p>" ++ service_desc
     ++ py "</p>\n  </div>\n</div>\n\n".

(** [enumerate(l, 1)] *)
Definition enumerate1 {A : Type} (l : list A) : list (nat * A) :=
  combine (seq 1 (length l)) l.

(** Lines 48-72: the Best Practices section. *)
Definition styled_best_practices (best_practices_content : str) : str :=
  let practices := findall2 practice_re best_practices_content in
  match practices with
  | _ :: _ =>
      fold_left (fun acc p => acc ++ best_practice_div (fst p) (strip (snd p)))
                practices best_practices_heading
  | [] =>
      best_practices_heading
        ++ best_practice_div (py "Best Practice") (strip best_practices_content)
  end.

Definition style_best_practices (styled_content : str) : str :=
  match re_search (section_re best_practices_heading) styled_content with
  | Some best_practices_match =>
      replace styled_content (m_text best_practices_match)
              (styled_best_practices (group 1 (m_groups best_practices_match)))
  | None => styled_content
  end.

(** Lines 75-112: the Implementation Guidance section. *)
Definition styled_impl (impl_content : str) : str :=
  let steps := findall2 bold_step_re impl_content in
  match steps with
  | _ :: _ =>
      fold_left (fun acc ip =>
                   acc ++ implementation_step_div
                       (str_of_nat (fst ip) ++ py ". " ++ fst (snd ip))
                       (strip (snd (snd ip))))
                (enumerate1 steps) impl_heading
  | [] =>
      let steps := findall1 numbered_step_re impl_content in
      match steps with
      | _ :: _ =>
          fold_left (fun acc ip =>
                       let step_text := strip (snd ip) in
                       let step_text :=
                         re_sub step_number_re (fun _ => []) step_text in
                       acc ++ implementation_step_div
                           (py "Step " ++ str_of_nat (fst ip)) step_text)
                    (enumerate1 steps) impl_heading
      | [] =>
          impl_heading
            ++ implementation_step_div (py "Implementation Guidance")
                                       (strip impl_content)
      end
  end.

Definition style_impl (styled_content : str) : str :=
  match re_search (section_re impl_heading) styled_content with
  | Some impl_match =>
      replace styled_content (m_text impl_match)
              (styled_impl (group 1 (m_groups impl_match)))
  | None => styled_content
  end.

(** Lines 115-156: the AWS Services to Consider section. *)
Definition styled_services (services_content : str) : str :=
  let services := findall2 bold_service_re services_content in
  match services with
  | _ :: _ =>
      fold_left (fun acc p => acc ++ aws_service_div (fst p) (strip (snd p)))
                services services_heading
  | [] =>
      let services := findall1 list_item_re services_content in
      match services with
      | _ :: _ =>
          fold_left (fun acc service =>
                       acc ++ aws_service_div (strip service)
                           (py "AWS service for this question."))
                    services services_heading
      | [] =>
          services_heading
            ++ aws_service_div (py "AWS Services")
                 (py "Add relevant AWS services for this question.")
      end
  end.

Definition style_services (styled_content : str) : str :=
  match re_search (section_re services_heading) styled_content with
  | Some services_match =>
      replace styled_content (m_text services_match)
              (styled_services (group 1 (m_groups services_match)))
  | None => styled_content
  end.

(** Lines 159-184: the Related Resources section. *)
Definition resources_open : str :=
  py "<div class=\qrelated-resources\q>\n  <h2>Related Resources</h2>\n  <ul>\n".

Definition styled_resources (resources_content : str) : str :=
  let resources := findall2 link_item_re resources_content in
  (match resources with
   | _ :: _ =>
       fold_left (fun acc p =>
                    acc ++ py "    <li><a href=\q" ++ snd p ++ py "\q>"
                        ++ fst p ++ py "</a></li>\n")
                 resources resources_open
   | [] =>
       let resources := findall1 list_item_re resources_content in
       match resources with
       | _ :: _ =>
           fold_left (fun acc resource =>
                        acc ++ py "    <li>" ++ strip resource ++ py "</li>\n")
                     resources resources_open
       | [] =>
           resources_open
             ++ py "    <li>Add related resources for this question.</li>\n"
       end
   end) ++ py "  </ul>\n</div>".

Definition style_resources (styled_content : str) : str :=
  match re_search (section_re resources_heading) styled_content with
  | Some resources_match =>
      replace styled_content (m_text resources_match)
              (styled_resources (group 1 (m_groups resources_match)))
  | None => styled_content
  end.

(** Lines 40-42: the old header is cut out; the second substitution runs
    only when the first one left the empty string. *)
Definition content_without_header (content_without_front_matter : str) : str :=
  let cwh := re_sub1 description_re [] content_without_front_matter in
  match cwh with
  | [] => re_sub1 bare_header_re [] content_without_front_matter
  | _ :: _ => cwh
  end.

Definition description_of (content_without_front_matter : str) : str :=
  match re_search description_re content_without_front_matter with
  | Some description_match => group 1 (m_groups description_match)
  | None => default_description
  end.

Definition style_sections (content_without_header : str) : str :=
  style_resources
    (style_services (style_impl (style_best_practices content_without_header))).

Definition convert_to_styled_format (content : str) : str :=
  match re_match front_matter_re content with
  | None => content
  | Some front_matter_match =>
      let front_matter := m_text front_matter_match in
      let content_without_front_matter :=
        skipn (length front_matter) content in
      match re_search title_re content_without_front_matter with
      | None => content
      | Some title_match =>
          let question_id := group 1 (m_groups title_match) in
          let question_title := group 2 (m_groups title_match) in
          let description := description_of content_without_front_matter in
          front_matter
            ++ new_header question_id question_title description
            ++ style_sections
                 (content_without_header content_without_front_matter)
      end
  end.

End ApplyStyling.

(** ** scripts/fix_all_pillar_links.py *)

Module FixAllPillarLinks.

(** r'href="(\./[A-Z]+\d+(?:-BP\d+)?)"' *)
Definition pattern : regex :=
  Lit (py "href=\q")
      +++ Group 1 (Lit (py "./") +++ Rep true 1 is_upper
                       +++ Rep true 1 is_digit
                       +++ Opt (Lit (py "-BP") +++ Rep true 1 is_digit))
      +++ Lit (py "\q").

Definition replace_link (m : rmatch_result) : str :=
  let link := group 1 (m_groups m) in
  let new_link := skipn 2 link ++ py ".html" in
  py "href=\q" ++ new_link ++ py "\q".

(** Line 26: [re.sub(pattern, replace_link, content)] *)
Definition updated_content (content : str) : str :=
  re_sub pattern replace_link content.

(** The function on the content of the file: what is written back, if
    anything, and the value returned. *)
Definition fix_pillar_links (content : str) : option str * bool :=
  let updated := updated_content content in
  if str_eqb content updated then (None, false) else (Some updated, true).

End FixAllPillarLinks.

(** ** scripts/fix_relative_links.py *)

Module FixRelativeLinks.

(** rf'href="({pillar_name}\d+(?:-BP\d+)?\.html)"'; the pillar prefixes
    passed by [main] (SEC, REL, COST, PERF, OPS, SUS) are plain letters,
    so the interpolated name is literal text of the pattern. *)
Definition pattern (pillar_name : str) : regex :=
  Lit (py "href=\q")
      +++ Group 1 (Lit pillar_name +++ Rep true 1 is_digit
                       +++ Opt (Lit (py "-BP") +++ Rep true 1 is_digit)
                       +++ Lit (py ".html"))
      +++ Lit (py "\q").

Definition replace_link (m : rmatch_result) : str :=
  let link := group 1 (m_groups m) in
  let new_link := py "./" ++ link in
  py "href=\q" ++ new_link ++ py "\q".

(** Line 26: [re.sub(pattern, replace_link, content)] *)
Definition updated_content (pillar_name content : str) : str :=
  re_sub (pattern pillar_name) replace_link content.

Definition fix_pillar_index_links (pillar_name content : str)
  : option str * bool :=
  let updated := updated_content pillar_name content in
  if str_eqb content updated then (None, false) else (Some updated, true).

(** [fix_pillar_question_links], for the question pages:
    rf'href="({pillar_name}\d+-BP\d+\.html)"', with a [replace_link] of
    its own that reads as the one above. *)
Definition question_pattern (pillar_name : str) : regex :=
  Lit (py "href=\q")
      +++ Group 1 (Lit pillar_name +++ Rep true 1 is_digit
                       +++ Lit (py "-BP") +++ Rep true 1 is_digit
                       +++ Lit (py ".html"))
      +++ Lit (py "\q").

(** Line 54: [re.sub(pattern, replace_link, content)] *)
Definition question_updated_content (pillar_name content : str) : str :=
  re_sub (question_pattern pillar_name) replace_link content.

Definition fix_pillar_question_links (pillar_name content : str)
  : option str * bool :=
  let updated := question_updated_content pillar_name content in
  if str_eqb content updated then (None, false) else (Some updated, true).

Definition pillars : list (str * str) :=
  [ (py "security", py "SEC"); (py "reliability", py "REL");
    (py "cost-optimization", py "COST");
    (py "performance-efficiency", py "PERF");
    (py "operational-excellence", py "OPS");
    (py "sustainability", py "SUS") ].

End FixRelativeLinks.

(** ** scripts/update_pillar_order.py *)

Module UpdatePillarOrder.

(** [open(file_path, 'r')]: the file is read in text mode, with Python's
    universal newlines: a carriage return followed by a line feed, and a
    carriage return on its own, are both read as one line feed.  ([raw]
    is the text of the file as it is stored.) *)
Fixpoint universal_newlines (raw : str) : str :=
  match raw with
  | [] => []
  | c :: s' =>
      if Ascii.eqb c CR
      then LF :: match s' with
                 | d :: s'' =>
                     if Ascii.eqb d LF then universal_newlines s''
                     else universal_newlines s'
                 | [] => []
                 end
      else c :: universal_newlines s'
  end.

(** [f.readlines()]: the lines of the text, each with its line feed. *)
Fixpoint readlines (content : str) : list str :=
  match content with
  | [] => []
  | c :: s' =>
      if Ascii.eqb c LF then [c] :: readlines s'
      else match readlines s' with
           | [] => [[c]]
           | l :: ls => (c :: l) :: ls
           end
  end.

(** [f.writelines(lines)] *)
Definition writelines (lines : list str) : str := concat lines.

Definition is_nav_order_line (line : str) : bool :=
  startswith (py "nav_order:") (strip line).

(** Lines 31-34: the loop over the lines, left at the first hit. *)
Fixpoint set_nav_order (lines : list str) (nav_order : nat) : list str :=
  match lines with
  | [] => []
  | line :: rest =>
      if is_nav_order_line line
      then (py "nav_order: " ++ str_of_nat nav_order ++ py "\n") :: rest
      else line :: set_nav_order rest nav_order
  end.

(** The files under ./docs, by path, each with its text as it is
    stored. *)
Definition file_system := str -> option str.

Definition write_file (fs : file_system) (path content : str) : file_system :=
  fun p => if str_eqb p path then Some content else fs p.

Definition index_path (pillar_dir : str) : str :=
  py "./docs/" ++ pillar_dir ++ py "/index.md".

(** The function returns the file system after the call and the line it
    prints.  The file is read in text mode (line 27) and written in text
    mode (line 36); on writing, a line feed is stored as the line
    separator of the platform, which is the line feed itself on the POSIX
    systems the script is written for. *)
Definition update_pillar_nav_order (fs : file_system) (pillar_dir : str)
           (nav_order : nat) : file_system * str :=
  let file_path := index_path pillar_dir in
  match fs file_path with
  | None => (fs, py "Warning: " ++ file_path ++ py " does not exist")
  | Some content =>
      let lines := readlines (universal_newlines content) in
      let lines := set_nav_order lines nav_order in
      (write_file fs file_path (writelines lines),
       py "Updated nav_order to " ++ str_of_nat nav_order ++ py " in "
          ++ file_path)
  end.

Definition PILLAR_ORDER : list (str * nat) :=
  [ (py "security", 2); (py "reliability", 3); (py "cost-optimization", 4);
    (py "performance-efficiency", 5); (py "operational-excellence", 6);
    (py "sustainability", 7) ].

Definition main (fs : file_system) : file_system * list str :=
  fold_left (fun st pn =>
               let r := update_pillar_nav_order (fst st) (fst pn) (snd pn) in
               (fst r, snd st ++ [snd r]))
            PILLAR_ORDER (fs, []).

End UpdatePillarOrder.

(** ** Calls that may raise *)

Inductive outcome (A : Type) : Type :=
| Returned (a : A)
| Raised (e : str).
Arguments Returned {A} a.
Arguments Raised {A} e.

(** ** scripts/generate_wafr_pages.py *)

Module GenerateWafrPages.

Record pillar_info : Type := { abbr : str; nav_order : nat }.

Definition PILLARS : list (str * pillar_info) :=
  [ (py "Operational Excellence", {| abbr := py "OPS"; nav_order := 2 |});
    (py "Security", {| abbr := py "SEC"; nav_order := 3 |});
    (py "Reliability", {| abbr := py "REL"; nav_order := 4 |});
    (py "Performance Efficiency", {| abbr := py "PERF"; nav_order := 5 |});
    (py "Cost Optimization", {| abbr := py "COST"; nav_order := 6 |});
    (py "Sustainability", {| abbr := py "SUS"; nav_order := 7 |}) ].

Definition WAFR_URL : str :=
  py "https://docs.aws.amazon.com/wellarchitected/latest/framework/appendix.html".

(** What [requests.get] returns, as far as the script looks at it. *)
Record response : Type := {
  raise_for_status : outcome unit;
  text : str
}.

(** What the script reads of the parsed page: every h2 element with its
    text and the texts of the dt elements of the next div of class
    variablelist ([None] when [find_next] finds no such div). *)
Record h2_element : Type := {
  get_text : str;
  find_next_variablelist : option (list str)
}.

Record question : Type := { id : str; title : str }.

Definition questions_dict := list (str * list question).

(** The pattern of line 63: group 1 is [A-Z]+\d+, then ':' and \s+, and
    group 2 is a greedy '.' repetition. *)
Definition question_re : regex :=
  Group 1 (Rep true 1 is_upper +++ Rep true 1 is_digit) +++ Lit (py ":")
      +++ Rep true 1 is_space +++ Group 2 (Rep true 0 not_newline).

(** [questions_by_pillar[pillar].append(q)] *)
Fixpoint dict_append (d : questions_dict) (pillar : str) (q : question)
  : questions_dict :=
  match d with
  | [] => []
  | (k, qs) :: d' =>
      if str_eqb k pillar then (k, qs ++ [q]) :: d'
      else (k, qs) :: dict_append d' pillar q
  end.

(** Lines 48-52: the first pillar name contained in the heading, if any;
    otherwise [current_pillar] keeps its value. *)
Definition heading_pillar (current_pillar : option str) (pillar_text : str)
  : option str :=
  match find (fun p => contains p pillar_text) (map fst PILLARS) with
  | Some pillar => Some pillar
  | None => current_pillar
  end.

(** Lines 60-70: the dt elements of one variablelist. *)
Definition add_questions (d : questions_dict) (current_pillar : str)
           (dt_elements : list str) : questions_dict :=
  fold_left (fun d dt =>
               let question_text := strip dt in
               match re_match question_re question_text with
               | Some m =>
                   dict_append d current_pillar
                     {| id := group 1 (m_groups m);
                        title := group 2 (m_groups m) |}
               | None => d
               end)
            dt_elements d.

(** Lines 44-70: the loop over the h2 elements. *)
Definition collect_questions (h2_elements : list h2_element) : questions_dict :=
  snd (fold_left
         (fun st h2 =>
            let pillar_text := strip (get_text h2) in
            let current_pillar := heading_pillar (fst st) pillar_text in
            match current_pillar with
            | Some pillar =>
                match pillar with
                | [] => (current_pillar, snd st)
                | _ :: _ =>
                    match find_next_variablelist h2 with
                    | Some dt_elements =>
                        (current_pillar, add_questions (snd st) pillar dt_elements)
                    | None => (current_pillar, snd st)
                    end
                end
            | None => (current_pillar, snd st)
            end)
         h2_elements
         (None, map (fun p => (fst p, [])) PILLARS)).

(** [s.lower()] on Latin-1 text *)
Definition lower_char (c : ascii) : ascii :=
  if is_upper c || (in_range 192 222 c && negb (code c =? 215)%N)
  then ascii_of_N (code c + 32) else c.

Definition lower (s : str) : str := map lower_char s.

Definition pillar_dir_of (pillar : str) : str :=
  replace (lower pillar) (py " ") (py "-").

Definition question_file_path (pillar : str) (q : question) : str :=
  py "docs/" ++ pillar_dir_of pillar ++ py "/" ++ id q ++ py ".md".

Definition question_file_content (pillar : str) (q : question)
           (question_number : nat) : str :=
  py "---\ntitle: " ++ id q ++ py " - " ++ title q
     ++ py "\nlayout: default\nparent: " ++ pillar
     ++ py "\nnav_order: " ++ str_of_nat question_number
     ++ py "\n---\n\n# " ++ id q ++ py ": " ++ title q
     ++ py "\n\n*This page contains guidance for addressing this question from the AWS Well-Architected Framework.*\n\n## Best Practices\n\n*Add best practices for this question here.*\n\n## Implementation Guidance\n\n1. **Step 1**: Description of first implementation step.\n\n2. **Step 2**: Description of second implementation step.\n\n3. **Step 3**: Description of third implementation step.\n\n## AWS Services to Consider\n\n- **Service 1** - Description of how this service helps\n- **Service 2** - Description of how this service helps\n- **Service 3** - Description of how this service helps\n\n## Related Resources\n\n- [AWS Well-Architected Framework - "
     ++ pillar
     ++ py " Pillar](https://docs.aws.amazon.com/wellarchitected/latest/"
     ++ replace (pillar_dir_of pillar) (py "-") []
     ++ py "-pillar/welcome.html)\n- [Related Documentation Link 1](https://aws.amazon.com/)\n- [Related Documentation Link 2](https://aws.amazon.com/)\n".

(** What a run leaves behind: the lines printed, the files written (in
    order) and the exit code of the process. *)
Record run : Type := {
  stdout : list str;
  files : list (str * str);
  exit_code : nat
}.

Definition generate_question_file (pillar : str) (q : question)
           (question_number : nat) (r : run) : run :=
  {| stdout := stdout r
        ++ [py "Generated file: " ++ question_file_path pillar q];
     files := files r
        ++ [(question_file_path pillar q,
             question_file_content pillar q question_number)];
     exit_code := exit_code r |}.

Definition print (line : str) (r : run) : run :=
  {| stdout := stdout r ++ [line]; files := files r;
     exit_code := exit_code r |}.

Section Script.

(** The network and the HTML library: [requests.get(url)], and
    [BeautifulSoup(text, 'html.parser')] with the element look-ups made
    on it; either may raise. *)
Variable requests_get : str -> outcome response.
Variable BeautifulSoup : str -> outcome (list h2_element).

(** The body of the [try] block of [fetch_wafr_questions]. *)
Definition fetch_body : outcome questions_dict :=
  match requests_get WAFR_URL with
  | Raised e => Raised e
  | Returned response =>
      match raise_for_status response with
      | Raised e => Raised e
      | Returned _ =>
          match BeautifulSoup (text response) with
          | Raised e => Raised e
          | Returned h2_elements =>
              Returned (collect_questions h2_elements)
          end
      end
  end.

(** [fetch_wafr_questions]: [except Exception] prints and returns
    [None]. *)
Definition fetch_wafr_questions (r : run) : option questions_dict * run :=
  match fetch_body with
  | Returned questions_by_pillar => (Some questions_by_pillar, r)
  | Raised e => (None, print (py "Error fetching WAFR questions: " ++ e) r)
  end.

(** [not questions_by_pillar]: true of [None] and of the empty dict. *)
Definition falsy (q : option questions_dict) : bool :=
  match q with
  | None => true
  | Some [] => true
  | Some (_ :: _) => false
  end.

Definition generate_pillar (r : run) (entry : str * list question) : run :=
  let pillar := fst entry in
  let questions := snd entry in
  fold_left (fun r iq => generate_question_file pillar (snd iq) (fst iq) r)
            (ApplyStyling.enumerate1 questions)
            (print (py "\nProcessing " ++ pillar ++ py " pillar ("
                       ++ str_of_nat (length questions)
                       ++ py " questions):") r).

Definition main : run :=
  let r := {| stdout := []; files := []; exit_code := 0 |} in
  let r := print (py "Fetching AWS Well-Architected Framework questions...") r in
  let (questions_by_pillar, r) := fetch_wafr_questions r in
  if falsy questions_by_pillar then
    let r := print (py "Failed to fetch questions. Exiting.") r in
    {| stdout := stdout r; files := files r; exit_code := 1 |}
  else
    let r := print (py "Generating Markdown files for each question...") r in
    let r := fold_left generate_pillar
                       (match questions_by_pillar with
                        | Some d => d
                        | None => []
                        end) r in
    print (py "\nDone! All question files have been generated.") r.

End Script.

End GenerateWafrPages.

(** ** Docs/dr-plan/pdf/ecr-replication.py *)

Module EcrReplication.

Inductive api_call : Type :=
| describe_repositories
| list_images (repositoryName : str)
| batch_get_image (repositoryName imageTag : str)
| put_image (repositoryName imageManifest imageTag : str)
| batch_delete_image (repositoryName imageTag : str).

(** The registry answers a call in view of the calls made before it:
    the repository names, the tags of the tagged images, the manifests
    found for a tag, or nothing but success; every call may raise. *)
Record registry : Type := {
  repositories : list api_call -> outcome (list str);
  imageIds : list api_call -> str -> outcome (list str);
  images : list api_call -> str -> str -> outcome (list str);
  put_reply : list api_call -> str -> str -> str -> outcome unit;
  delete_reply : list api_call -> str -> str -> outcome unit
}.

(** The state of a run: the registry calls issued so far, in order, and
    what was printed. *)
Record state : Type := { calls : list api_call; printed : list str }.

Definition M (A : Type) : Type := state -> outcome A * state.

Definition ret {A : Type} (a : A) : M A := fun st => (Returned a, st).

(** An exception ends the run where it is raised. *)
Definition bind {A B : Type} (m : M A) (f : A -> M B) : M B :=
  fun st =>
    match m st with
    | (Returned a, st') => f a st'
    | (Raised e, st') => (Raised e, st')
    end.

Notation "x <- m ;; f" := (bind m (fun x => f))
  (at level 62, m at next level, right associativity).
Notation "m ;;; f" := (bind m (fun _ => f))
  (at level 62, right associativity).

Fixpoint for_each {A : Type} (l : list A) (body : A -> M unit) : M unit :=
  match l with
  | [] => ret tt
  | a :: l' => body a ;;; for_each l' body
  end.

Definition issue {A : Type} (c : api_call)
           (reply : list api_call -> outcome A) : M A :=
  fun st => (reply (calls st),
             {| calls := calls st ++ [c]; printed := printed st |}).

Definition print (s : str) : M unit :=
  fun st => (Returned tt,
             {| calls := calls st; printed := printed st ++ [s] |}).

Section Script.

Variable ecr : registry.

(** Lines 37-70: one image of [imageData['images']]. *)
Definition reupload (repositoryName imageTag imageManifest : str) : M unit :=
  let tempTag := imageTag ++ py "-temp" in
  issue (put_image repositoryName imageManifest tempTag)
        (fun h => put_reply ecr h repositoryName imageManifest tempTag) ;;;
  issue (batch_delete_image repositoryName imageTag)
        (fun h => delete_reply ecr h repositoryName imageTag) ;;;
  issue (put_image repositoryName imageManifest imageTag)
        (fun h => put_reply ecr h repositoryName imageManifest imageTag) ;;;
  issue (batch_delete_image repositoryName tempTag)
        (fun h => delete_reply ecr h repositoryName tempTag) ;;;
  print (py "OK\n").

(** Lines 25-70: one tag of [imagesList['imageIds']]. *)
Definition process_tag (repositoryName imageTag : str) : M unit :=
  imageData <- issue (batch_get_image repositoryName imageTag)
                     (fun h => images ecr h repositoryName imageTag) ;;
  print (py "reuploading:  " ++ repositoryName ++ py " : " ++ imageTag
            ++ py " ") ;;;
  for_each imageData (reupload repositoryName imageTag).

Definition process_repository (repositoryName : str) : M unit :=
  imagesList <- issue (list_images repositoryName)
                      (fun h => imageIds ecr h repositoryName) ;;
  for_each imagesList (process_tag repositoryName).

Definition script : M unit :=
  repositories_list <- issue describe_repositories (repositories ecr) ;;
  for_each repositories_list process_repository.

End Script.

End EcrReplication.

(** * Specification vocabulary *)

(** ** The declarative reading of a pattern

    [matches r pos s caps p t c]: [r] matches a prefix of [s], which sits
    at offset [pos]; [t] is what is left, at offset [p], and [c] the
    groups.  Priorities (greedy, lazy, order of alternatives) play no part
    here. *)

Inductive matches : regex -> nat -> str -> captures ->
                    nat -> str -> captures -> Prop :=
| M_Lit w pos t caps :
    matches (Lit w) pos (w ++ t) caps (pos + length w) t caps
| M_Rep g min cls pos w t caps :
    forallb cls w = true -> min <= length w ->
    matches (Rep g min cls) pos (w ++ t) caps (pos + length w) t caps
| M_Cat r1 r2 pos s caps p1 t1 c1 p2 t2 c2 :
    matches r1 pos s caps p1 t1 c1 ->
    matches r2 p1 t1 c1 p2 t2 c2 ->
    matches (Cat r1 r2) pos s caps p2 t2 c2
| M_AltL r1 r2 pos s caps p t c :
    matches r1 pos s caps p t c -> matches (Alt r1 r2) pos s caps p t c
| M_AltR r1 r2 pos s caps p t c :
    matches r2 pos s caps p t c -> matches (Alt r1 r2) pos s caps p t c
| M_OptSome r pos s caps p t c :
    matches r pos s caps p t c -> matches (Opt r) pos s caps p t c
| M_OptNone r pos s caps :
    matches (Opt r) pos s caps pos s caps
| M_Group i r pos s caps p t c :
    matches r pos s caps p t c ->
    matches (Group i r) pos s caps p t ((i, firstn (p - pos) s) :: c)
| M_Ahead r pos s caps p t c :
    matches r pos s caps p t c -> matches (Ahead r) pos s caps pos s c
| M_Bos s caps : matches Bos 0 s caps 0 s caps
| M_Eos pos caps : matches Eos pos [] caps pos [] caps.


(** ** Documents, as the styling script sees them *)

(** The text begins with a front-matter block: a line of three dashes
    and, further on, another one. *)
Definition has_front_matter (content : str) : Prop :=
  exists body rest, content = py "---\n" ++ body ++ py "\n---\n" ++ rest.

(** [body] is the front matter of [content] and [rest] the text behind
    the block: the block ends at the first closing line. *)
Definition front_matter_split (content body rest : str) : Prop :=
  content = py "---\n" ++ body ++ py "\n---\n" ++ rest /\
  forall body' rest',
    content = py "---\n" ++ body' ++ py "\n---\n" ++ rest' ->
    length body <= length body'.

(** A question identifier: capital letters followed by digits. *)
Definition question_id (U D : str) : Prop :=
  U <> [] /\ forallb is_upper U = true /\
  D <> [] /\ forallb is_digit D = true.

(** The text starts with a heading '# <ID>: <Title>' and its line feed. *)
Definition heading_at (t : str) : Prop :=
  exists U D title rest,
    t = py "# " ++ (U ++ D) ++ py ": " ++ title ++ py "\n" ++ rest
    /\ question_id U D /\ forallb not_newline title = true.

(** Such a heading occurs somewhere in the text. *)
Definition has_heading (t : str) : Prop :=
  exists pre post, t = pre ++ post /\ heading_at post.

(** ** Sample documents *)

(** No front matter. *)
Definition doc_plain : str :=
  py "# SEC01: Title\n\nNo front matter here.\n".

(** Front matter, but no question heading. *)
Definition doc_notes : str :=
  py "---\ntitle: Notes\n---\n\nJust some notes.\n\n## Best Practices\n\nKeep notes short.\n".

(** The number of places of [s] at which [p] occurs. *)
Fixpoint count_occurrences (p s : str) : nat :=
  (if startswith p s then 1 else 0)
  + match s with
    | [] => 0
    | _ :: s' => count_occurrences p s'
    end.

(** Front matter, the heading 'SEC01: Title', one paragraph, and a Best
    Practices section with one '### Sub' and its body. *)
Definition doc_sec01 : str :=
  py "---\ntitle: SEC01\n---\n\n# SEC01: Title\n\nA description paragraph.\n\n## Best Practices\n\n### Sub\nBody of the practice.\n".

Definition doc_sec01_styled : str :=
  py "---\ntitle: SEC01\n---\n<div class=\qpillar-header\q>\n  <h1>SEC01: Title</h1>\n  <p>A description paragraph.</p>\n</div>\n\n\n## Best Practices\n\n<div class=\qbest-practice\q>\n  <h4>Sub</h4>\n  <p>Body of the practice.</p>\n</div>\n\n".

(** A services section whose body is plain prose: no list items. *)
Definition doc_services : str :=
  py "---\ntitle: SEC01\n---\n\n# SEC01: Title\n\nA description paragraph.\n\n## AWS Services to Consider\n\nUse whatever fits the workload.\n".

Definition doc_services_styled : str :=
  py "---\ntitle: SEC01\n---\n<div class=\qpillar-header\q>\n  <h1>SEC01: Title</h1>\n  <p>A description paragraph.</p>\n</div>\n\n\n## AWS Services to Consider\n\n<div class=\qaws-service\q>\n  <div class=\qaws-service-content\q>\n    <h4>AWS Services</h4>\n    <p>Add relevant AWS services for this question.</p>\n  </div>\n</div>\n\n".

(** Two question headings in one document. *)
Definition doc_two_headings : str :=
  py "---\ntitle: SEC01\n---\n\n# SEC01: Title\n\nIntro.\n\n# SEC02: Second\n\nMore.\n\n## Best Practices\n\nDo it.\n".

Definition doc_two_headings_once : str :=
  py "---\ntitle: SEC01\n---\n<div class=\qpillar-header\q>\n  <h1>SEC01: Title</h1>\n  <p>Intro.</p>\n</div>\n\n\n# SEC02: Second\n\nMore.\n\n## Best Practices\n\n<div class=\qbest-practice\q>\n  <h4>Best Practice</h4>\n  <p>Do it.</p>\n</div>\n\n".

Definition doc_two_headings_twice : str :=
  py "---\ntitle: SEC01\n---\n<div class=\qpillar-header\q>\n  <h1>SEC02: Second</h1>\n  <p>More.</p>\n</div>\n\n<div class=\qpillar-header\q>\n  <h1>SEC01: Title</h1>\n  <p>Intro.</p>\n</div>\n\n\n## Best Practices\n\n<div class=\qbest-practice\q>\n  <h4>Best Practice</h4>\n  <p><div class=\qbest-practice\q>\n  <h4>Best Practice</h4>\n  <p>Do it.</p>\n</div></p>\n</div>\n\n".

(** ** Sample inputs of the other scripts *)

(** A docs tree with the index page of the security pillar only. *)
Definition fs_security : UpdatePillarOrder.file_system :=
  fun p =>
    if str_eqb p (py "./docs/security/index.md")
    then Some (py "---\ntitle: Security\nnav_order: 3\nhas_children: true\n---\n\n# Security\n")
    else None.

(** An index file stored with carriage returns at its line ends. *)
Definition crlf_text : str :=
  py "title: S" ++ [CR; LF] ++ py "layout: x" ++ [CR; LF].

Definition fs_crlf : UpdatePillarOrder.file_system :=
  fun p =>
    if str_eqb p (py "./docs/security/index.md") then Some crlf_text
    else None.

(** A network that is down. *)
Definition requests_get_down (url : str) : outcome GenerateWafrPages.response :=
  Raised (py "Connection refused").

(** A server that answers with an error status. *)
Definition requests_get_500 (url : str) : outcome GenerateWafrPages.response :=
  Returned {| GenerateWafrPages.raise_for_status :=
                Raised (py "500 Server Error");
              GenerateWafrPages.text := [] |}.

(** A page the HTML library cannot read. *)
Definition requests_get_ok (url : str) : outcome GenerateWafrPages.response :=
  Returned {| GenerateWafrPages.raise_for_status := Returned tt;
              GenerateWafrPages.text := py "<html>" |}.

Definition soup_fails (text : str) : outcome (list GenerateWafrPages.h2_element) :=
  Raised (py "parser error").

Definition soup_empty (text : str) : outcome (list GenerateWafrPages.h2_element) :=
  Returned [].

(** The four calls made for one image, in the order of the script. *)
Definition retag_calls (repositoryName imageTag imageManifest : str)
  : list EcrReplication.api_call :=
  [ EcrReplication.put_image repositoryName imageManifest
                             (imageTag ++ py "-temp");
    EcrReplication.batch_delete_image repositoryName imageTag;
    EcrReplication.put_image repositoryName imageManifest imageTag;
    EcrReplication.batch_delete_image repositoryName (imageTag ++ py "-temp") ].

(** The reply of the registry to the [n]-th of these calls, the earlier
    ones having been issued after the calls [h]. *)
Definition retag_reply (ecr : EcrReplication.registry)
           (h : list EcrReplication.api_call)
           (repositoryName imageTag imageManifest : str) (n : nat)
  : outcome unit :=
  let four := retag_calls repositoryName imageTag imageManifest in
  let h' := h ++ firstn n four in
  match n with
  | 0 => EcrReplication.put_reply ecr h' repositoryName imageManifest
                                  (imageTag ++ py "-temp")
  | 1 => EcrReplication.delete_reply ecr h' repositoryName imageTag
  | 2 => EcrReplication.put_reply ecr h' repositoryName imageManifest imageTag
  | _ => EcrReplication.delete_reply ecr h' repositoryName
                                     (imageTag ++ py "-temp")
  end.

(** A registry in which deleting always fails. *)
Definition ecr_delete_fails : EcrReplication.registry :=
  {| EcrReplication.repositories := fun _ => Returned [py "app"];
     EcrReplication.imageIds := fun _ _ => Returned [py "v1"];
     EcrReplication.images := fun _ _ _ => Returned [py "manifest"];
     EcrReplication.put_reply := fun _ _ _ _ => Returned tt;
     EcrReplication.delete_reply := fun _ _ _ => Raised (py "AccessDenied") |}.

(** A registry in which every call succeeds. *)
Definition ecr_ok : EcrReplication.registry :=
  {| EcrReplication.repositories := fun _ => Returned [py "app"];
     EcrReplication.imageIds := fun _ _ => Returned [py "v1"];
     EcrReplication.images := fun _ _ _ => Returned [py "manifest"];
     EcrReplication.put_reply := fun _ _ _ _ => Returned tt;
     EcrReplication.delete_reply := fun _ _ _ => Returned tt |}.

(** ** Links to pillar pages *)

(** Nothing, or '-BP' and digits. *)
Definition bp_suffix (tail : str) : Prop :=
  tail = [] \/
  exists D2, tail = py "-BP" ++ D2 /\ D2 <> [] /\ forallb is_digit D2 = true.

(** The name of a question or best-practice page: SEC01, SEC01-BP02. *)
Definition pillar_link (id : str) : Prop :=
  exists U D tail, id = U ++ D ++ tail /\ question_id U D /\ bp_suffix tail.

(** The file name of such a page of the pillar with prefix [P]:
    SEC01.html, SEC01-BP02.html for [P] = SEC. *)
Definition pillar_page (P page : str) : Prop :=
  exists D tail,
    page = P ++ D ++ tail ++ py ".html"
    /\ D <> [] /\ forallb is_digit D = true /\ bp_suffix tail.

(** ** Sections of a document *)

(** [heading] (the heading line and the blank line behind it) occurs in
    [t], first behind [pre]; [body] is the text behind it up to, and not
    including, the first line feed that is followed by two hash signs, or
    up to the end of the text; [post] is what is left. *)
Definition section_of (heading t pre body post : str) : Prop :=
  t = pre ++ heading ++ body ++ post
  /\ (forall pre' rest',
         t = pre' ++ heading ++ rest' -> length pre <= length pre')
  /\ (post = [] \/ exists post', post = py "\n##" ++ post')
  /\ (forall b1 x,
         body ++ post = b1 ++ py "\n##" ++ x -> length body <= length b1).

(** The four rewriting steps of the styling script: the heading line
    (with its blank line), the styled text computed from the section
    body, and the step itself. *)
Definition section_steps : list (str * (str -> str) * (str -> str)) :=
  [ (ApplyStyling.best_practices_heading, ApplyStyling.styled_best_practices,
     ApplyStyling.style_best_practices);
    (ApplyStyling.impl_heading, ApplyStyling.styled_impl,
     ApplyStyling.style_impl);
    (ApplyStyling.services_heading, ApplyStyling.styled_services,
     ApplyStyling.style_services);
    (ApplyStyling.resources_heading, ApplyStyling.styled_resources,
     ApplyStyling.style_resources) ].

(** [p] occurs nowhere in [s]. *)
Definition absent (p s : str) : Prop := forall a b, s <> a ++ p ++ b.

(** ** The header of a question page *)

(** [x] is the text of [s] before its first blank line (two line feeds
    in a row) and [s'] the text behind that blank line. *)
Definition first_gap (s x s' : str) : Prop :=
  s = x ++ py "\n\n" ++ s'
  /\ forall x' s'', s = x' ++ py "\n\n" ++ s'' -> length x <= length x'.

(** Two blank lines occur in [s], one behind the other. *)
Definition two_gaps (s : str) : Prop :=
  exists x y post, s = x ++ py "\n\n" ++ y ++ py "\n\n" ++ post.

(** The first line of a text, without its line feed. *)
Fixpoint line_of (s : str) : str :=
  match s with
  | [] => []
  | c :: s' => if not_newline c then c :: line_of s' else []
  end.

(** The first heading '# <ID>: ' of [rest] stands behind [pre], its
    identifier is [U ++ D], and [s] is the text behind the colon and the
    space, which has a line feed in it. *)
Definition first_heading (rest pre U D s : str) : Prop :=
  rest = pre ++ py "# " ++ (U ++ D) ++ py ": " ++ s
  /\ question_id U D
  /\ In LF s
  /\ forall pre' post',
      rest = pre' ++ post' -> length pre' < length pre -> ~ heading_at post'.

(** A heading with one paragraph behind it, and nothing else. *)
Definition doc_one_paragraph : str :=
  py "---\ntitle: SEC02\n---\n\n# SEC02: Short\n\nOnly one paragraph.\n".

(** ** Links, as the link-fixing scripts see them *)

(** The file name of a best-practice page of the pillar with prefix [P]:
    SEC01-BP02.html for [P] = SEC. *)
Definition bp_page (P page : str) : Prop :=
  exists D D2,
    page = P ++ D ++ py "-BP" ++ D2 ++ py ".html"
    /\ D <> [] /\ forallb is_digit D = true
    /\ D2 <> [] /\ forallb is_digit D2 = true.

(** No 'h' of [w] is followed by an 'r', and [w] does not end in 'h':
    nothing in [w] is the beginning of 'href'. *)
Fixpoint no_hr (w : str) : bool :=
  match w with
  | [] => true
  | c :: w' =>
      match w' with
      | [] => negb (Ascii.eqb c "h")
      | d :: _ => (negb (Ascii.eqb c "h") || negb (Ascii.eqb d "r")) && no_hr w'
      end
  end.

(** ** Lines of a file *)

(** A line with its line feed at the end, and no other. *)
Definition terminated (l : str) : Prop :=
  exists body, l = body ++ [LF] /\ forallb not_newline body = true.

(** The lines of a text: each ends with its line feed, the last one may
    do without but is not empty then. *)
Fixpoint lines_ok (L : list str) : Prop :=
  match L with
  | [] => True
  | l :: L' =>
      match L' with
      | [] => terminated l \/ (l <> [] /\ forallb not_newline l = true)
      | _ :: _ => terminated l /\ lines_ok L'
      end
  end.

(** What [update_pillar_nav_order] makes of the text of an index file. *)
Definition with_nav_order (n : nat) (content : str) : str :=
  UpdatePillarOrder.writelines
    (UpdatePillarOrder.set_nav_order
       (UpdatePillarOrder.readlines
          (UpdatePillarOrder.universal_newlines content)) n).

(** The loop of [main] of scripts/update_pillar_order.py, over any table
    of pillars and from any state. *)
Definition run_table (table : list (str * nat))
           (st : UpdatePillarOrder.file_system * list str)
  : UpdatePillarOrder.file_system * list str :=
  fold_left (fun st pn =>
               let r := UpdatePillarOrder.update_pillar_nav_order
                          (fst st) (fst pn) (snd pn) in
               (fst r, snd st ++ [snd r]))
            table st.

(** ** Questions, as the page generator collects them *)

(** The identifier is capital letters and digits, the title has no line
    feed in it. *)
Definition well_formed_question (q : GenerateWafrPages.question) : Prop :=
  (exists U D, GenerateWafrPages.id q = U ++ D /\ question_id U D)
  /\ forallb not_newline (GenerateWafrPages.title q) = true.

(** The questions of a dictionary all have a property. *)
Definition all_questions (P : GenerateWafrPages.question -> Prop)
           (d : GenerateWafrPages.questions_dict) : Prop :=
  forall pillar qs q, In (pillar, qs) d -> In q qs -> P q.

(** A page with the heading of one pillar, two entries behind it, and a
    heading that names no pillar. *)
Definition soup_security (text : str)
  : outcome (list GenerateWafrPages.h2_element) :=
  Returned
    [ {| GenerateWafrPages.get_text := py " Security ";
         GenerateWafrPages.find_next_variablelist :=
           Some [ py "SEC01: How do you securely operate your workload?";
                  py "not a question" ] |};
      {| GenerateWafrPages.get_text := py "Notices";
         GenerateWafrPages.find_next_variablelist := None |} ].

(** The files a run writes for the questions collected: pillar by
    pillar, each question under its number, counted from one. *)
Definition question_files (d : GenerateWafrPages.questions_dict)
  : list (str * str) :=
  flat_map (fun entry =>
              map (fun iq =>
                     (GenerateWafrPages.question_file_path (fst entry) (snd iq),
                      GenerateWafrPages.question_file_content
                        (fst entry) (snd iq) (fst iq)))
                  (ApplyStyling.enumerate1 (snd entry)))
           d.

(** The lines a run prints for the questions collected. *)
Definition question_lines (d : GenerateWafrPages.questions_dict) : list str :=
  flat_map (fun entry =>
              (py "\nProcessing " ++ fst entry ++ py " pillar ("
                  ++ str_of_nat (length (snd entry)) ++ py " questions):")
              :: map (fun iq =>
                        py "Generated file: "
                           ++ GenerateWafrPages.question_file_path
                                (fst entry) (snd iq))
                     (ApplyStyling.enumerate1 (snd entry)))
           d.

(** ** A generated question page, and the page styled *)

(** The front matter the generator writes, without the two lines of
    dashes. *)
Definition generated_front_matter (pillar : str)
           (q : GenerateWafrPages.question) (n : nat) : str :=
  py "title: " ++ GenerateWafrPages.id q ++ py " - "
     ++ GenerateWafrPages.title q
     ++ py "\nlayout: default\nparent: " ++ pillar
     ++ py "\nnav_order: " ++ str_of_nat n.

(** The four sections the generator writes behind the description. *)
Definition generated_sections (pillar : str) : str :=
  py "## Best Practices\n\n*Add best practices for this question here.*\n\n## Implementation Guidance\n\n1. **Step 1**: Description of first implementation step.\n\n2. **Step 2**: Description of second implementation step.\n\n3. **Step 3**: Description of third implementation step.\n\n## AWS Services to Consider\n\n- **Service 1** - Description of how this service helps\n- **Service 2** - Description of how this service helps\n- **Service 3** - Description of how this service helps\n\n## Related Resources\n\n- [AWS Well-Architected Framework - "
     ++ pillar
     ++ py " Pillar](https://docs.aws.amazon.com/wellarchitected/latest/"
     ++ replace (GenerateWafrPages.pillar_dir_of pillar) (py "-") []
     ++ py "-pillar/welcome.html)\n- [Related Documentation Link 1](https://aws.amazon.com/)\n- [Related Documentation Link 2](https://aws.amazon.com/)\n".

(** The same four sections as the styling script leaves them. *)
Definition styled_generated_sections (pillar : str) : str :=
  py "\n## Best Practices\n\n<div class=\qbest-practice\q>\n  <h4>Best Practice</h4>\n  <p>*Add best practices for this question here.*</p>\n</div>\n\n\n## Implementation Guidance\n\n<div class=\qimplementation-step\q>\n  <h4>1. Step 1</h4>\n  <p>Description of first implementation step.</p>\n</div>\n\n<div class=\qimplementation-step\q>\n  <h4>2. Step 2</h4>\n  <p>Description of second implementation step.</p>\n</div>\n\n<div class=\qimplementation-step\q>\n  <h4>3. Step 3</h4>\n  <p>Description of third implementation step.</p>\n</div>\n\n\n## AWS Services to Consider\n\n<div class=\qaws-service\q>\n  <div class=\qaws-service-content\q>\n    <h4>Service 1</h4>\n    <p>Description of how this service helps</p>\n  </div>\n</div>\n\n<div class=\qaws-service\q>\n  <div class=\qaws-service-content\q>\n    <h4>Service 2</h4>\n    <p>Description of how this service helps</p>\n  </div>\n</div>\n\n<div class=\qaws-service\q>\n  <div class=\qaws-service-content\q>\n    <h4>Service 3</h4>\n    <p>Description of how this service helps</p>\n  </div>\n</div>\n\n\n<div class=\qrelated-resources\q>\n  <h2>Related Resources</h2>\n  <ul>\n    <li><a href=\qhttps://docs.aws.amazon.com/wellarchitected/latest/"
     ++ replace (GenerateWafrPages.pillar_dir_of pillar) (py "-") []
     ++ py "-pillar/welcome.html\q>AWS Well-Architected Framework - "
     ++ pillar
     ++ py " Pillar</a></li>\n    <li><a href=\qhttps://aws.amazon.com/\q>Related Documentation Link 1</a></li>\n    <li><a href=\qhttps://aws.amazon.com/\q>Related Documentation Link 2</a></li>\n  </ul>\n</div>".

(** A question as the generator collects it. *)
Definition question_sec01 : GenerateWafrPages.question :=
  {| GenerateWafrPages.id := py "SEC01";
     GenerateWafrPages.title :=
       py "How do you securely operate your workload?" |}.

(** ** Runs of the registry script *)

(** The error with which the registry answers the call [c] made after
    the calls [h], if it answers with one. *)
Definition raises (ecr : EcrReplication.registry)
           (h : list EcrReplication.api_call) (c : EcrReplication.api_call)
  : option str :=
  let error {A : Type} (o : outcome A) : option str :=
    match o with Returned _ => None | Raised e => Some e end in
  match c with
  | EcrReplication.describe_repositories =>
      error (EcrReplication.repositories ecr h)
  | EcrReplication.list_images r => error (EcrReplication.imageIds ecr h r)
  | EcrReplication.batch_get_image r t =>
      error (EcrReplication.images ecr h r t)
  | EcrReplication.put_image r m t =>
      error (EcrReplication.put_reply ecr h r m t)
  | EcrReplication.batch_delete_image r t =>
      error (EcrReplication.delete_reply ecr h r t)
  end.

(** The calls [new], made one after the other behind the calls [h], were
    all answered without an error. *)
Fixpoint answered (ecr : EcrReplication.registry)
         (h new : list EcrReplication.api_call) : Prop :=
  match new with
  | [] => True
  | c :: new' => raises ecr h c = None /\ answered ecr (h ++ [c]) new'
  end.

(** Every delete in [l] comes directly behind a put to the same
    repository, of the tag that stands for the deleted one: the temporary
    tag when the tag is deleted, the tag when the temporary tag is.
    [prev] is the call before [l]. *)
Fixpoint deletes_guarded (prev : option EcrReplication.api_call)
         (l : list EcrReplication.api_call) : Prop :=
  match l with
  | [] => True
  | c :: l' =>
      match c with
      | EcrReplication.batch_delete_image r t =>
          match prev with
          | Some (EcrReplication.put_image r' _ t') =>
              r' = r /\ (t' = t ++ py "-temp" \/ t = t' ++ py "-temp")
          | _ => False
          end
      | _ => True
      end
      /\ deletes_guarded (Some c) l'
  end.

(** A step of the script keeps the deletes guarded. *)
Definition keeps_guard {A : Type} (m : EcrReplication.M A) : Prop :=
  forall st,
    deletes_guarded None (EcrReplication.calls st) ->
    deletes_guarded None (EcrReplication.calls (snd (m st))).

(** A step of the script only adds calls, and stops at the first call
    answered with an error: when it returns, every call it made was
    answered without one; when it raises [e], the last call it made was
    answered with [e] and the calls before it without an error. *)
Definition stops_at_error (ecr : EcrReplication.registry) {A : Type}
           (m : EcrReplication.M A) : Prop :=
  forall st,
    exists new,
      EcrReplication.calls (snd (m st)) = EcrReplication.calls st ++ new
      /\ match fst (m st) with
         | Returned _ => answered ecr (EcrReplication.calls st) new
         | Raised e =>
             exists new' c,
               new = new' ++ [c]
               /\ answered ecr (EcrReplication.calls st) new'
               /\ raises ecr (EcrReplication.calls st ++ new') c = Some e
         end.

(** ** First-level headings *)

(** A heading '# <ID>: <Title>' stands at the start of a line of the
    text: a first-level heading. *)
Definition has_first_level_heading (t : str) : Prop :=
  exists pre post,
    t = pre ++ post /\ heading_at post
    /\ (pre = [] \/ exists pre', pre = pre' ++ [LF]).

(** The same, computed: [at_line_start] says whether the text begins a
    line. *)
Fixpoint line_start_heading (at_line_start : bool) (s : str) : bool :=
  (at_line_start
   && match match_at ApplyStyling.title_re 0 s with
      | Some _ => true
      | None => false
      end)
  || match s with
     | [] => false
     | c :: s' => line_start_heading (Ascii.eqb c LF) s'
     end.

(** A page whose only heading with an identifier is a second-level
    one. *)
Definition doc_second_level : str :=
  py "---\ntitle: Notes\n---\n\n## SEC01: Title\n\nIntro.\n\nMore.\n".

(** A page that is fetched and read, with the heading of a pillar, but
    whose entries are not of the form '<ID>: <Title>'. *)
Definition h2_unparsed : list GenerateWafrPages.h2_element :=
  [ {| GenerateWafrPages.get_text := py "Security";
       GenerateWafrPages.find_next_variablelist :=
         Some [ py "How do you securely operate your workload?";
                py "sec 1: lower case"; py "SEC: no number" ] |} ].

Definition soup_unparsed (text : str)
  : outcome (list GenerateWafrPages.h2_element) :=
  Returned h2_unparsed.

(** ** The images of a tag *)

(** The calls [T] the script issues for the images found for the tag [t]
    of the repository [r], whose manifests are [ms], behind the calls
    [h]; [o] is how this ends.  The images are taken in order, each with
    its four calls [retag_calls]; the manifests [done] are those whose
    four calls were all answered without an error.  Either that is all
    of them and the loop returns, or the next image got the first [n+1]
    of its four calls, the last of which was answered with the error
    [e]: the loop raises [e] and nothing follows. *)
Definition images_retagged (ecr : EcrReplication.registry) (r t : str)
           (h : list EcrReplication.api_call) (ms : list str)
           (T : list EcrReplication.api_call) (o : outcome unit) : Prop :=
  exists done todo,
    ms = done ++ todo
    /\ answered ecr h (flat_map (retag_calls r t) done)
    /\ match todo with
       | [] => T = flat_map (retag_calls r t) done /\ o = Returned tt
       | m :: _ =>
           exists n e,
             n < 4
             /\ T = flat_map (retag_calls r t) done
                    ++ firstn (S n) (retag_calls r t m)
             /\ answered ecr (h ++ flat_map (retag_calls r t) done)
                         (firstn n (retag_calls r t m))
             /\ raises ecr
                       (h ++ flat_map (retag_calls r t) done
                          ++ firstn n (retag_calls r t m))
                       (nth n (retag_calls r t m)
                            EcrReplication.describe_repositories)
                = Some e
             /\ o = Raised e
       end.

(** A step of the script treats every tag it reads the images of in this
    way: wherever it issues [batch_get_image], either the registry
    answers with an error, and then this is the last call of the step,
    which raises that error; or the calls for the images follow at once,
    and when they end with an error they are the last calls of the step,
    which raises that error. *)
Definition retags_every_image (ecr : EcrReplication.registry) {A : Type}
           (m : EcrReplication.M A) : Prop :=
  forall st,
    exists T,
      EcrReplication.calls (snd (m st)) = EcrReplication.calls st ++ T
      /\ forall pre r t post,
          T = pre ++ EcrReplication.batch_get_image r t :: post ->
          match EcrReplication.images ecr (EcrReplication.calls st ++ pre) r t
          with
          | Raised e => post = [] /\ fst (m st) = Raised e
          | Returned ms =>
              exists T' o rest,
                images_retagged ecr r t
                  (EcrReplication.calls st ++ pre
                     ++ [EcrReplication.batch_get_image r t]) ms T' o
                /\ post = T' ++ rest
                /\ forall e, o = Raised e ->
                             rest = [] /\ fst (m st) = Raised e
          end.

(** A page without a description paragraph: the heading is followed at
    once by a section that is not one of the four known ones. *)
Definition doc_notes_first : str :=
  py "---\ntitle: SEC01\n---\n\n# SEC01: Title\n\n## Notes\n\nKeep this.\n\n## Best Practices\n\n### Sub\nBody.\n".

Definition doc_notes_first_styled : str :=
  py "---\ntitle: SEC01\n---\n<div class=\qpillar-header\q>\n  <h1>SEC01: Title</h1>\n  <p>## Notes</p>\n</div>\n\n\nKeep this.\n\n## Best Practices\n\n<div class=\qbest-practice\q>\n  <h4>Sub</h4>\n  <p>Body.</p>\n</div>\n\n".

(** * Properties *)

(** ** Text lemmas *)

Lemma startswith_app (p t : str) : startswith p (p ++ t) = true.
Proof.
  induction p as [|x p IH]; simpl; [reflexivity|].
  rewrite Ascii.eqb_refl. exact IH.
Qed.

Lemma startswith_split (p s : str) :
  startswith p s = true -> exists t, s = p ++ t.
Proof.
  revert s; induction p as [|x p IH]; intros s H; simpl in *.
  - exists s; reflexivity.
  - destruct s as [|y s]; [discriminate|].
    apply andb_true_iff in H as [H1 H2].
    apply Ascii.eqb_eq in H1; subst y.
    destruct (IH _ H2) as [t ->]. exists t; reflexivity.
Qed.

Lemma startswith_iff (p s : str) :
  startswith p s = true <-> exists t, s = p ++ t.
Proof.
  split; [apply startswith_split|].
  intros [t ->]. apply startswith_app.
Qed.

Lemma skipn_length_app (p t : str) : skipn (length p) (p ++ t) = t.
Proof. induction p; simpl; auto. Qed.

Lemma firstn_length_app (p t : str) : firstn (length p) (p ++ t) = p.
Proof. induction p; simpl; f_equal; auto. Qed.

Lemma str_eqb_eq (a b : str) : str_eqb a b = true <-> a = b.
Proof.
  revert b; induction a as [|x a IH]; intros [|y b]; simpl;
    try (split; [discriminate|discriminate]); try tauto.
  rewrite andb_true_iff, Ascii.eqb_eq, IH.
  split; [intros [-> ->]; reflexivity | intros H; inversion H; auto].
Qed.

Lemma str_eqb_refl (a : str) : str_eqb a a = true.
Proof. apply str_eqb_eq; reflexivity. Qed.

(** Two ways of cutting one text: the shorter first part is a prefix of
    the longer one. *)
Lemma app_eq_app_le (a b c d : str) :
  a ++ b = c ++ d -> length c <= length a ->
  exists z, a = c ++ z /\ d = z ++ b.
Proof.
  revert c; induction a as [|x a IH]; intros c H Hl.
  - destruct c; simpl in *; [|lia]. exists []; auto.
  - destruct c as [|y c]; simpl in *.
    + exists (x :: a); auto.
    + inversion H; subst. destruct (IH c H2) as [z [-> ->]]; [lia|].
      exists z; auto.
Qed.

(** A match consumes a prefix. *)
Lemma matches_shape r pos s caps p t c :
  matches r pos s caps p t c -> exists w, s = w ++ t /\ p = pos + length w.
Proof.
  induction 1.
  - exists w; auto.
  - exists w; auto.
  - destruct IHmatches1 as [w1 [-> ->]], IHmatches2 as [w2 [-> ->]].
    exists (w1 ++ w2). rewrite <- app_assoc, length_app. split; [auto|lia].
  - assumption.
  - assumption.
  - assumption.
  - exists []; simpl; split; [auto|lia].
  - assumption.
  - exists []; simpl; split; [auto|lia].
  - exists []; simpl; auto.
  - exists []; simpl; split; [auto|lia].
Qed.

(** ** The repetitions *)

Section RepLemmas.

Context {R : Type}.
Variable cls : ascii -> bool.

Lemma rep_greedy_sound min pos s (k : nat -> str -> option R) x :
  rep_greedy cls min pos s k = Some x ->
  exists w t, s = w ++ t /\ forallb cls w = true /\ min <= length w
              /\ k (pos + length w) t = Some x.
Proof.
  revert min pos; induction s as [|c s IH]; intros min pos H; simpl in H.
  - destruct (Nat.eqb_spec min 0); [|discriminate]. subst.
    exists [], []. rewrite Nat.add_0_r. auto.
  - destruct (cls c) eqn:Hc.
    + destruct (rep_greedy cls (pred min) (S pos) s k) eqn:Hr.
      * inversion H; subst.
        destruct (IH _ _ Hr) as [w [t [-> [Hw [Hm Hk]]]]].
        exists (c :: w), t. simpl. rewrite Hc, Hw.
        replace (pos + S (length w)) with (S pos + length w) by lia.
        repeat split; auto; lia.
      * destruct (Nat.eqb_spec min 0); [|discriminate]. subst.
        exists [], (c :: s). rewrite Nat.add_0_r. auto.
    + destruct (Nat.eqb_spec min 0); [|discriminate]. subst.
      exists [], (c :: s). rewrite Nat.add_0_r. auto.
Qed.

Lemma rep_greedy_complete min pos w t (k : nat -> str -> option R) :
  forallb cls w = true -> min <= length w ->
  k (pos + length w) t <> None ->
  rep_greedy cls min pos (w ++ t) k <> None.
Proof.
  revert min pos; induction w as [|c w IH]; intros min pos Hw Hm Hk.
  - simpl in *. assert (min = 0) by lia; subst.
    rewrite Nat.add_0_r in Hk.
    destruct t as [|c t]; simpl; [exact Hk|].
    destruct (cls c); [|exact Hk].
    destruct (rep_greedy cls 0 (S pos) t k); [discriminate|exact Hk].
  - simpl in *. apply andb_true_iff in Hw as [Hc Hw]. rewrite Hc.
    specialize (IH (pred min) (S pos) Hw).
    replace (S pos + length w) with (pos + S (length w)) in IH by lia.
    destruct (rep_greedy cls (pred min) (S pos) (w ++ t) k);
      [discriminate|].
    exfalso. apply IH; auto. lia.
Qed.

(** The longest run wins when what follows accepts it. *)
Lemma rep_greedy_longest min pos w t (k : nat -> str -> option R) x :
  forallb cls w = true -> min <= length w ->
  k (pos + length w) t = Some x ->
  match t with [] => True | c :: _ => cls c = false end ->
  rep_greedy cls min pos (w ++ t) k = Some x.
Proof.
  revert min pos; induction w as [|c w IH]; intros min pos Hw Hm Hk Ht.
  - simpl in *. assert (min = 0) by lia; subst.
    rewrite Nat.add_0_r in Hk.
    destruct t as [|c t]; simpl; [exact Hk|]. rewrite Ht. exact Hk.
  - simpl in *. apply andb_true_iff in Hw as [Hc Hw]. rewrite Hc.
    rewrite (IH (pred min) (S pos)); auto; [lia|].
    replace (S pos + length w) with (pos + S (length w)) by lia. exact Hk.
Qed.

Lemma rep_lazy_sound min pos s (k : nat -> str -> option R) x :
  rep_lazy cls min pos s k = Some x ->
  exists w t, s = w ++ t /\ forallb cls w = true /\ min <= length w
              /\ k (pos + length w) t = Some x
              /\ forall w' t', s = w' ++ t' -> min <= length w' ->
                               length w' < length w ->
                               k (pos + length w') t' = None.
Proof.
  revert min pos; induction s as [|c s IH]; intros min pos H.
  - destruct min; simpl in H; [|discriminate].
    destruct (k pos []) eqn:Hk; [|discriminate]. inversion H; subst.
    exists [], []. rewrite Nat.add_0_r. repeat split; auto.
    intros w' t' _ _ Hl; simpl in Hl; lia.
  - destruct min; simpl in H.
    + destruct (k pos (c :: s)) eqn:Hk.
      * inversion H; subst. exists [], (c :: s). rewrite Nat.add_0_r.
        repeat split; auto. intros w' t' _ _ Hl; simpl in Hl; lia.
      * destruct (cls c) eqn:Hc; [|discriminate].
        destruct (IH _ _ H) as [w [t [-> [Hw [Hm [Hk' Hmin]]]]]].
        exists (c :: w), t. simpl. rewrite Hc, Hw.
        replace (pos + S (length w)) with (S pos + length w) by lia.
        repeat split; auto; try lia.
        intros w' t' E _ Hl. destruct w' as [|c' w'].
        -- simpl in *. subst t'. rewrite Nat.add_0_r. exact Hk.
        -- simpl in *. inversion E; subst.
           replace (pos + S (length w')) with (S pos + length w') by lia.
           apply Hmin; auto; lia.
    + destruct (cls c) eqn:Hc; [|discriminate].
      destruct (IH _ _ H) as [w [t [-> [Hw [Hm [Hk' Hmin]]]]]].
      exists (c :: w), t. simpl. rewrite Hc, Hw.
      replace (pos + S (length w)) with (S pos + length w) by lia.
      repeat split; auto; try lia.
      intros w' t' E Hm' Hl. destruct w' as [|c' w']; simpl in *; [lia|].
      inversion E; subst.
      replace (pos + S (length w')) with (S pos + length w') by lia.
      apply Hmin; auto; lia.
Qed.

(** The shortest run that what follows accepts is the one taken. *)
Lemma rep_lazy_first min pos w t (k : nat -> str -> option R) x :
  forallb cls w = true -> min <= length w ->
  k (pos + length w) t = Some x ->
  (forall w' t', w ++ t = w' ++ t' -> min <= length w' ->
                 length w' < length w -> k (pos + length w') t' = None) ->
  rep_lazy cls min pos (w ++ t) k = Some x.
Proof.
  revert min pos; induction w as [|c w IH]; intros min pos Hw Hm Hk Hmin.
  - simpl in *. assert (min = 0) by lia; subst.
    rewrite Nat.add_0_r in Hk.
    destruct t; simpl; rewrite Hk; reflexivity.
  - simpl in Hw. apply andb_true_iff in Hw as [Hc Hw].
    assert (IH' : rep_lazy cls (pred min) (S pos) (w ++ t) k = Some x).
    { apply IH; auto; [simpl in Hm; lia| |].
      - replace (S pos + length w) with (pos + length (c :: w))
          by (simpl; lia). exact Hk.
      - intros w' t' E Hm' Hl.
        replace (S pos + length w') with (pos + length (c :: w'))
          by (simpl; lia).
        apply Hmin; simpl; [rewrite E; reflexivity|lia|lia]. }
    destruct min; simpl.
    + assert (Hk0 : k pos (c :: w ++ t) = None).
      { specialize (Hmin [] (c :: w ++ t)). simpl in Hmin.
        rewrite Nat.add_0_r in Hmin. apply Hmin; auto; lia. }
      rewrite Hk0, Hc. exact IH'.
    + rewrite Hc. exact IH'.
Qed.

Lemma rep_lazy_complete min pos w t (k : nat -> str -> option R) :
  forallb cls w = true -> min <= length w ->
  k (pos + length w) t <> None ->
  rep_lazy cls min pos (w ++ t) k <> None.
Proof.
  revert min pos; induction w as [|c w IH]; intros min pos Hw Hm Hk.
  - simpl in *. assert (min = 0) by lia; subst.
    rewrite Nat.add_0_r in Hk.
    destruct t; simpl; destruct (k pos _); congruence.
  - simpl in Hw. apply andb_true_iff in Hw as [Hc Hw].
    assert (IH' : rep_lazy cls (pred min) (S pos) (w ++ t) k <> None).
    { apply IH; auto; [simpl in Hm; lia|].
      replace (S pos + length w) with (pos + length (c :: w))
        by (simpl; lia). exact Hk. }
    destruct min; simpl.
    + destruct (k pos (c :: w ++ t)); [discriminate|].
      rewrite Hc. exact IH'.
    + rewrite Hc. exact IH'.
Qed.

End RepLemmas.

(** Failure of a repetition only depends on where what follows fails. *)
Lemma rep_greedy_None_mono {R R' : Type} cls min pos s
      (k : nat -> str -> option R) (k' : nat -> str -> option R') :
  (forall p t, k p t = None -> k' p t = None) ->
  rep_greedy cls min pos s k = None -> rep_greedy cls min pos s k' = None.
Proof.
  intros Hk. revert min pos; induction s as [|c s IH]; intros min pos H;
    simpl in *.
  - destruct (min =? 0); auto.
  - destruct (cls c).
    + destruct (rep_greedy cls (pred min) (S pos) s k) eqn:E; [discriminate|].
      rewrite (IH _ _ E). destruct (min =? 0); auto.
    + destruct (min =? 0); auto.
Qed.

Lemma rep_lazy_None_mono {R R' : Type} cls min pos s
      (k : nat -> str -> option R) (k' : nat -> str -> option R') :
  (forall p t, k p t = None -> k' p t = None) ->
  rep_lazy cls min pos s k = None -> rep_lazy cls min pos s k' = None.
Proof.
  intros Hk. revert min pos; induction s as [|c s IH]; intros min pos H.
  - destruct min; simpl in *; auto.
    destruct (k pos []) eqn:E; [discriminate|]. rewrite (Hk _ _ E). auto.
  - destruct min; simpl in *.
    + destruct (k pos (c :: s)) eqn:E; [discriminate|]. rewrite (Hk _ _ E).
      destruct (cls c); auto.
    + destruct (cls c); auto.
Qed.

(** ** The matcher against the declarative reading *)

(** Whatever the matcher returns comes from a match of the pattern. *)
Lemma rmatch_sound r :
  forall R pos s caps (k : nat -> str -> captures -> option R) x,
    rmatch r R pos s caps k = Some x ->
    exists p t c, matches r pos s caps p t c /\ k p t c = Some x.
Proof.
  induction r as [w|g min cls|r1 IH1 r2 IH2|r1 IH1 r2 IH2|r1 IH1|i r1 IH1
                  |r1 IH1| |]; intros R pos s caps k x H; simpl in H.
  - destruct (startswith w s) eqn:E; [|discriminate].
    apply startswith_split in E as [t ->]. rewrite skipn_length_app in H.
    exists (pos + length w), t, caps. split; [constructor|exact H].
  - destruct g.
    + apply rep_greedy_sound in H as [w [t [-> [Hw [Hm Hk]]]]].
      exists (pos + length w), t, caps. split; [constructor; auto|exact Hk].
    + apply rep_lazy_sound in H as [w [t [-> [Hw [Hm [Hk _]]]]]].
      exists (pos + length w), t, caps. split; [constructor; auto|exact Hk].
  - apply IH1 in H as [p1 [t1 [c1 [M1 H]]]].
    apply IH2 in H as [p2 [t2 [c2 [M2 H]]]].
    exists p2, t2, c2. split; [econstructor; eauto|exact H].
  - destruct (rmatch r1 R pos s caps k) eqn:E.
    + inversion H; subst. apply IH1 in E as [p [t [c [M Hk]]]].
      exists p, t, c. split; [apply M_AltL; auto|exact Hk].
    + apply IH2 in H as [p [t [c [M Hk]]]].
      exists p, t, c. split; [apply M_AltR; auto|exact Hk].
  - destruct (rmatch r1 R pos s caps k) eqn:E.
    + inversion H; subst. apply IH1 in E as [p [t [c [M Hk]]]].
      exists p, t, c. split; [apply M_OptSome; auto|exact Hk].
    + exists pos, s, caps. split; [apply M_OptNone|exact H].
  - apply IH1 in H as [p [t [c [M Hk]]]].
    exists p, t, ((i, firstn (p - pos) s) :: c).
    split; [constructor; auto|exact Hk].
  - destruct (rmatch r1 captures pos s caps (fun _ _ c => Some c)) eqn:E;
      [|discriminate].
    apply IH1 in E as [p [t [c' [M Hc]]]]. inversion Hc; subst.
    exists pos, s, c. split; [econstructor; eauto|exact H].
  - destruct (Nat.eqb_spec pos 0); [|discriminate]. subst.
    exists 0, s, caps. split; [constructor|exact H].
  - destruct s; [|discriminate].
    exists pos, [], caps. split; [constructor|exact H].
Qed.

(** Whether the matcher fails does not depend on the groups recorded so
    far, nor on what is returned, only on where what follows fails. *)
Lemma rmatch_None_mono r :
  forall R R' pos s caps caps'
         (k : nat -> str -> captures -> option R)
         (k' : nat -> str -> captures -> option R'),
    (forall p t c c', k p t c = None -> k' p t c' = None) ->
    rmatch r R pos s caps k = None -> rmatch r R' pos s caps' k' = None.
Proof.
  induction r as [w|g min cls|r1 IH1 r2 IH2|r1 IH1 r2 IH2|r1 IH1|i r1 IH1
                  |r1 IH1| |]; intros R R' pos s caps caps' k k' Hk H;
    simpl in *.
  - destruct (startswith w s); eauto.
  - destruct g.
    + apply (rep_greedy_None_mono cls min pos s (fun p t => k p t caps)
                                  (fun p t => k' p t caps'));
        [intros p t E; eapply Hk; exact E|exact H].
    + apply (rep_lazy_None_mono cls min pos s (fun p t => k p t caps)
                                (fun p t => k' p t caps'));
        [intros p t E; eapply Hk; exact E|exact H].
  - apply (IH1 R R' pos s caps caps' (fun p t c => rmatch r2 R p t c k)
               (fun p t c => rmatch r2 R' p t c k')); [|exact H].
    intros p t c c' E. exact (IH2 R R' p t c c' k k' Hk E).
  - destruct (rmatch r1 R pos s caps k) eqn:E; [discriminate|].
    rewrite (IH1 R R' pos s caps caps' k k' Hk E).
    exact (IH2 R R' pos s caps caps' k k' Hk H).
  - destruct (rmatch r1 R pos s caps k) eqn:E; [discriminate|].
    rewrite (IH1 R R' pos s caps caps' k k' Hk E).
    exact (Hk pos s caps caps' H).
  - apply (IH1 R R' pos s caps caps'
               (fun p t c => k p t ((i, firstn (p - pos) s) :: c))
               (fun p t c => k' p t ((i, firstn (p - pos) s) :: c)));
      [|exact H].
    intros p t c c' E. exact (Hk _ _ _ _ E).
  - destruct (rmatch r1 captures pos s caps' (fun _ _ c => Some c)) eqn:E';
      [|reflexivity].
    destruct (rmatch r1 captures pos s caps (fun _ _ c => Some c)) eqn:E.
    + exact (Hk _ _ _ _ H).
    + exfalso.
      assert (rmatch r1 captures pos s caps' (fun _ _ c => Some c) = None).
      { apply (IH1 captures captures pos s caps caps'
                   (fun _ _ c => Some c) (fun _ _ c => Some c));
          [intros; discriminate|exact E]. }
      congruence.
  - destruct (pos =? 0); eauto.
  - destruct s; eauto.
Qed.

(** The matcher finds a match whenever the pattern has one that what
    follows accepts. *)
Lemma rmatch_complete r pos s caps p t c :
  matches r pos s caps p t c ->
  forall R (k : nat -> str -> captures -> option R) caps',
    (forall p t c c', k p t c = None -> k p t c' = None) ->
    k p t c <> None ->
    rmatch r R pos s caps' k <> None.
Proof.
  induction 1; intros R k caps' Hb Hk; simpl.
  - rewrite startswith_app, skipn_length_app.
    intros E; apply Hk. eapply Hb; eauto.
  - destruct g.
    + apply rep_greedy_complete; auto. intros E; apply Hk. eapply Hb; eauto.
    + apply rep_lazy_complete; auto. intros E; apply Hk. eapply Hb; eauto.
  - apply IHmatches1.
    + intros p t c c' E. eapply rmatch_None_mono; [|exact E]. exact Hb.
    + apply IHmatches2; auto.
  - destruct (rmatch r1 R pos s caps' k) eqn:E; [discriminate|].
    exfalso. eapply IHmatches; eauto.
  - destruct (rmatch r1 R pos s caps' k) eqn:E; [discriminate|].
    eapply IHmatches; eauto.
  - destruct (rmatch r R pos s caps' k) eqn:E; [discriminate|].
    exfalso. eapply IHmatches; eauto.
  - destruct (rmatch r R pos s caps' k) eqn:E; [discriminate|].
    intros E'; apply Hk. eapply Hb; eauto.
  - apply IHmatches.
    + intros p' t' c1 c2 E. eapply Hb; eauto.
    + exact Hk.
  - destruct (rmatch r captures pos s caps' (fun _ _ c => Some c)) eqn:E.
    + intros E'; apply Hk. eapply Hb; eauto.
    + exfalso. eapply IHmatches; [| |exact E]; [intros; discriminate|].
      discriminate.
  - exact (fun E => Hk (Hb _ _ _ _ E)).
  - exact (fun E => Hk (Hb _ _ _ _ E)).
Qed.

(** One attempt at a position. *)
Lemma match_at_sound r pos s res :
  match_at r pos s = Some res ->
  exists w c, matches r pos s [] (pos + length w) (m_rest res) c
              /\ s = w ++ m_rest res
              /\ res = MatchResult pos w c (m_rest res).
Proof.
  unfold match_at. intros H.
  apply rmatch_sound in H as [p [t [c [M H]]]]. inversion H; subst; simpl.
  destruct (matches_shape _ _ _ _ _ _ _ M) as [w [-> ->]].
  exists w, c. replace (pos + length w - pos) with (length w) by lia.
  rewrite firstn_length_app. auto.
Qed.

Lemma match_at_complete r pos s p t c :
  matches r pos s [] p t c -> match_at r pos s <> None.
Proof.
  intros M. unfold match_at. eapply rmatch_complete; eauto; discriminate.
Qed.

Lemma match_at_parts r pos s res :
  match_at r pos s = Some res ->
  s = m_text res ++ m_rest res /\ m_start res = pos.
Proof.
  intros H. apply match_at_sound in H as [w [c [_ [E ->]]]]. simpl. auto.
Qed.

(** [re.search]: the first position with a match. *)
Lemma search_from_sound r pos s res :
  search_from r pos s = Some res ->
  exists a b, s = a ++ b /\ match_at r (pos + length a) b = Some res
              /\ forall a' b', s = a' ++ b' -> length a' < length a ->
                               match_at r (pos + length a') b' = None.
Proof.
  revert pos; induction s as [|x s IH]; intros pos H; simpl in H.
  - destruct (match_at r pos []) eqn:E; [|discriminate]. inversion H; subst.
    exists [], []. rewrite Nat.add_0_r. repeat split; auto.
    intros a' b' _ Hl; simpl in Hl; lia.
  - destruct (match_at r pos (x :: s)) eqn:E.
    + inversion H; subst. exists [], (x :: s). rewrite Nat.add_0_r.
      repeat split; auto. intros a' b' _ Hl; simpl in Hl; lia.
    + apply IH in H as [a [b [-> [Hm Hmin]]]].
      exists (x :: a), b. simpl.
      replace (pos + S (length a)) with (S pos + length a) by lia.
      repeat split; auto.
      intros a' b' E' Hl. destruct a' as [|y a']; simpl in *.
      * subst b'. rewrite Nat.add_0_r. exact E.
      * inversion E'; subst.
        replace (pos + S (length a')) with (S pos + length a') by lia.
        apply Hmin; auto; lia.
Qed.

Lemma search_from_None r pos s :
  search_from r pos s = None ->
  forall a b, s = a ++ b -> match_at r (pos + length a) b = None.
Proof.
  revert pos; induction s as [|x s IH]; intros pos H a b E; simpl in H.
  - destruct a; [|discriminate]. simpl in E; subst b.
    rewrite Nat.add_0_r. simpl. destruct (match_at r pos []); congruence.
  - destruct (match_at r pos (x :: s)) eqn:Em; [discriminate|].
    destruct a as [|y a]; simpl in *.
    + subst b. rewrite Nat.add_0_r. exact Em.
    + inversion E; subst.
      replace (pos + S (length a)) with (S pos + length a) by lia.
      eapply IH; eauto.
Qed.

Lemma search_from_complete r pos a b :
  match_at r (pos + length a) b <> None ->
  search_from r pos (a ++ b) <> None.
Proof.
  intros H E. apply H. eapply search_from_None; eauto.
Qed.

(** ** Inverting the declarative reading of a concrete pattern *)

Ltac inv_matches :=
  repeat match goal with
         | H : matches (Cat _ _) _ _ _ _ _ _ |- _ => inversion H; clear H; subst
         | H : matches (Lit _) _ _ _ _ _ _ |- _ => inversion H; clear H; subst
         | H : matches (Rep _ _ _) _ _ _ _ _ _ |- _ =>
             inversion H; clear H; subst
         | H : matches (Group _ _) _ _ _ _ _ _ |- _ =>
             inversion H; clear H; subst
         | H : matches (Opt _) _ _ _ _ _ _ |- _ => inversion H; clear H; subst
         | H : matches (Alt _ _) _ _ _ _ _ _ |- _ => inversion H; clear H; subst
         | H : matches (Ahead _) _ _ _ _ _ _ |- _ => inversion H; clear H; subst
         | H : matches Bos _ _ _ _ _ _ |- _ => inversion H; clear H; subst
         | H : matches Eos _ _ _ _ _ _ |- _ => inversion H; clear H; subst
         end.

Lemma nonempty_length (w : str) : 1 <= length w -> w <> [].
Proof. destruct w; simpl; [lia|discriminate]. Qed.

Lemma length_nonempty (w : str) : w <> [] -> 1 <= length w.
Proof. destruct w; simpl; [congruence|lia]. Qed.

(** ** Front matter and title of a document *)

Import ApplyStyling.

Lemma title_match_heading pos t :
  match_at title_re pos t <> None <-> heading_at t.
Proof.
  split.
  - intros H. destruct (match_at title_re pos t) as [res|] eqn:E;
      [clear H|congruence].
    apply match_at_sound in E as [w [c [M _]]].
    unfold title_re in M. inv_matches.
    match goal with
    | |- heading_at (_ ++ ?U ++ ?D ++ _ ++ ?T ++ _ ++ ?r) =>
        exists U, D, T, r
    end.
    rewrite <- !app_assoc.
    repeat split; auto using nonempty_length.
  - intros [U [D [title [rest [-> [[HU [HU' [HD HD']]] Ht]]]]]].
    eapply match_at_complete. unfold title_re.
    eapply M_Cat; [apply M_Lit|].
    eapply M_Cat.
    { apply M_Group. eapply M_Cat.
      - rewrite <- !app_assoc.
        apply M_Rep; [exact HU'|apply length_nonempty; exact HU].
      - apply M_Rep; [exact HD'|apply length_nonempty; exact HD]. }
    eapply M_Cat; [apply M_Lit|].
    eapply M_Cat.
    { apply M_Group. apply M_Rep; [exact Ht|lia]. }
    apply M_Lit.
Qed.

Lemma title_search_heading t :
  re_search title_re t <> None <-> has_heading t.
Proof.
  unfold re_search. split.
  - intros H. destruct (search_from title_re 0 t) as [res|] eqn:E;
      [clear H|congruence].
    apply search_from_sound in E as [a [b [-> [E _]]]].
    exists a, b. split; [reflexivity|].
    apply (title_match_heading (0 + length a)). congruence.
  - intros [pre [post [-> H]]]. apply search_from_complete.
    apply title_match_heading. exact H.
Qed.

Lemma front_matter_match_iff content :
  re_match front_matter_re content <> None <-> has_front_matter content.
Proof.
  unfold re_match. split.
  - intros H. destruct (match_at front_matter_re 0 content) as [res|] eqn:E;
      [clear H|congruence].
    apply match_at_sound in E as [w [c [M _]]].
    unfold front_matter_re in M. inv_matches.
    match goal with
    | |- has_front_matter (_ ++ ?b ++ _ ++ ?r) => exists b, r
    end.
    reflexivity.
  - intros [body [rest ->]]. eapply match_at_complete.
    unfold front_matter_re.
    eapply M_Cat; [apply M_Bos|].
    eapply M_Cat; [apply M_Lit|].
    eapply M_Cat; [apply M_Group; apply (M_Rep false 0 any_char 4 body)|].
    + clear. induction body; simpl; auto.
    + lia.
    + apply M_Lit.
Qed.

Lemma forallb_any_char (w : str) : forallb any_char w = true.
Proof. induction w; simpl; auto. Qed.

(** The front-matter match ends at the first closing line. *)
Lemma front_matter_match_split content res :
  re_match front_matter_re content = Some res ->
  exists body rest,
    front_matter_split content body rest
    /\ m_text res = py "---\n" ++ body ++ py "\n---\n"
    /\ m_rest res = rest.
Proof.
  intros H. destruct (match_at_parts _ _ _ _ H) as [Hparts _].
  unfold re_match, match_at, front_matter_re in H. cbn [rmatch] in H.
  change (0 =? 0) with true in H. cbv iota in H.
  destruct (startswith (py "---\n") content) eqn:E; [|discriminate].
  apply startswith_split in E as [s1 ->]. rewrite skipn_length_app in H.
  apply rep_lazy_sound in H as [w [t [-> [_ [_ [H Hmin]]]]]].
  cbv beta in H.
  destruct (startswith (py "\n---\n") t) eqn:E; [|discriminate].
  apply startswith_split in E as [rest ->]. rewrite skipn_length_app in H.
  inversion H; subst res; clear H. cbn [m_text m_rest] in Hparts |- *.
  exists w, rest. split; [split|split]; auto.
  - intros body' rest' E.
    apply (app_inv_head (py "---\n") (w ++ py "\n---\n" ++ rest)
                        (body' ++ py "\n---\n" ++ rest')) in E.
    destruct (Nat.le_gt_cases (length w) (length body')) as [|Hlt]; auto.
    exfalso. specialize (Hmin body' (py "\n---\n" ++ rest') E (Nat.le_0_l _) Hlt).
    cbv beta in Hmin. rewrite startswith_app in Hmin. discriminate.
  - match type of Hparts with
    | _ = ?m ++ _ =>
        apply (app_inv_tail rest); rewrite <- Hparts
    end.
    rewrite <- !app_assoc. reflexivity.
Qed.

Lemma front_matter_split_unique content body rest body' rest' :
  front_matter_split content body rest ->
  front_matter_split content body' rest' ->
  body = body' /\ rest = rest'.
Proof.
  intros [E1 M1] [E2 M2].
  assert (Hl : length body = length body').
  { apply Nat.le_antisymm; [eapply M1|eapply M2]; eauto. }
  rewrite E1 in E2. apply app_inv_head in E2.
  destruct (app_eq_app_le _ _ _ _ E2) as [z [Hz Hr]]; [lia|].
  assert (z = []).
  { apply (f_equal (@length _)) in Hz. rewrite length_app in Hz.
    destruct z; [reflexivity|simpl in Hz; lia]. }
  subst z. rewrite app_nil_r in Hz. simpl in Hr. subst body'.
  split; [reflexivity|congruence].
Qed.

(** C3, first half as a lemma: without front matter the text is
    returned as it is. *)
Lemma convert_without_front_matter content :
  ~ has_front_matter content -> convert_to_styled_format content = content.
Proof.
  intros H. unfold convert_to_styled_format.
  destruct (re_match front_matter_re content) eqn:E; [|reflexivity].
  exfalso. apply H. apply front_matter_match_iff. congruence.
Qed.

Lemma convert_without_heading content body rest :
  front_matter_split content body rest -> ~ has_heading rest ->
  convert_to_styled_format content = content.
Proof.
  intros Hs Hh. unfold convert_to_styled_format.
  destruct (re_match front_matter_re content) as [res|] eqn:E;
    [|reflexivity].
  destruct (front_matter_match_split _ _ E) as [b [r [Hs' [Ht Hr]]]].
  destruct (front_matter_split_unique _ _ _ _ _ Hs Hs') as [-> ->].
  cbv zeta. rewrite Ht.
  destruct Hs' as [Ec _].
  replace (skipn (length (py "---\n" ++ b ++ py "\n---\n")) content)
    with r.
  2:{ rewrite Ec. rewrite !app_assoc. rewrite <- (app_assoc _ b).
      rewrite skipn_length_app. reflexivity. }
  destruct (re_search title_re r) eqn:Et; [|reflexivity].
  exfalso. apply Hh. apply title_search_heading. congruence.
Qed.

(** C3 (amended): [convert_to_styled_format] returns its input unchanged
    when the input does not begin with a front-matter block, and also
    when it does but the text behind the block has no occurrence of
    '# <ID>: <Title>' (capital letters, then digits) followed by a line
    feed: no such text at the start of a line, and none elsewhere either,
    as there is one inside a second-level heading '## <ID>: <Title>'. *)
Theorem C3_identity_without_anchors :
  forall content,
    (~ has_front_matter content
     \/ exists body rest,
         front_matter_split content body rest /\ ~ has_heading rest) ->
    convert_to_styled_format content = content.
Proof.
  intros content [H | [body [rest [Hs Hh]]]].
  - apply convert_without_front_matter; exact H.
  - eapply convert_without_heading; eauto.
Qed.

Lemma has_heading_decide t :
  re_search title_re t = None -> ~ has_heading t.
Proof. intros E H. apply title_search_heading in H. congruence. Qed.

Lemma has_front_matter_decide content :
  re_match front_matter_re content = None -> ~ has_front_matter content.
Proof. intros E H. apply front_matter_match_iff in H. congruence. Qed.

Lemma front_matter_split_decide content res :
  re_match front_matter_re content = Some res ->
  exists body, front_matter_split content body (m_rest res).
Proof.
  intros E. destruct (front_matter_match_split _ _ E) as (b & r & H & _ & <-).
  exists b; exact H.
Qed.

Lemma C3_identity_witness :
  (~ has_front_matter doc_plain
   /\ convert_to_styled_format doc_plain = doc_plain)
  /\ ((exists body rest,
          front_matter_split doc_notes body rest /\ ~ has_heading rest)
      /\ convert_to_styled_format doc_notes = doc_notes).
Proof.
  assert (H1 : ~ has_front_matter doc_plain).
  { apply has_front_matter_decide. vm_compute. reflexivity. }
  assert (H2 : exists body rest,
             front_matter_split doc_notes body rest /\ ~ has_heading rest).
  { destruct (re_match front_matter_re doc_notes) as [res|] eqn:E;
      [|vm_compute in E; discriminate].
    destruct (front_matter_split_decide _ _ E) as [body Hs].
    exists body, (m_rest res). split; [exact Hs|].
    apply has_heading_decide.
    vm_compute in E. inversion E; subst res. vm_compute. reflexivity. }
  split; split.
  - exact H1.
  - apply (C3_identity_without_anchors doc_plain). left; exact H1.
  - exact H2.
  - apply (C3_identity_without_anchors doc_notes). right; exact H2.
Defined.

Lemma first_level_heading_decide_from pre b post :
  heading_at post ->
  (pre = [] /\ b = true) \/ (exists pre', pre = pre' ++ [LF]) ->
  line_start_heading b (pre ++ post) = true.
Proof.
  intros Hh. revert b. induction pre as [|c pre IH]; intros b H.
  - destruct H as [[_ ->] | [pre' E]];
      [|destruct pre'; discriminate E].
    assert (Hm : match_at title_re 0 post <> None)
      by (apply title_match_heading; exact Hh).
    cbn [app]. destruct post as [|x post]; cbn [line_start_heading];
      destruct (match_at title_re 0 _); try congruence; reflexivity.
  - destruct H as [[E _] | [pre' E]]; [discriminate E|].
    cbn [app line_start_heading]. apply orb_true_iff. right.
    apply IH. destruct pre' as [|x pre'].
    + inversion E; subst. left. split; [reflexivity|].
      apply Ascii.eqb_refl.
    + inversion E; subst. right. exists pre'. reflexivity.
Qed.

Lemma first_level_heading_decide t :
  line_start_heading true t = false -> ~ has_first_level_heading t.
Proof.
  intros E (pre & post & -> & Hh & Hp).
  rewrite (first_level_heading_decide_from pre true post Hh) in E;
    [discriminate|].
  destruct Hp as [-> | Hp]; [left; auto|right; exact Hp].
Qed.

(** C3 as first stated fails on a page whose heading with an identifier
    is a second-level one: no first-level heading '# <ID>: <Title>'
    stands behind the front matter, and still the page is rewritten, the
    search for the title finding '# SEC01: Title' inside
    '## SEC01: Title'. *)
Lemma C3_second_level_heading_rewritten :
  (exists body rest,
      front_matter_split doc_second_level body rest
      /\ ~ has_first_level_heading rest)
  /\ convert_to_styled_format doc_second_level
     = py "---\ntitle: Notes\n---\n<div class=\qpillar-header\q>\n  <h1>SEC01: Title</h1>\n  <p>Intro.</p>\n</div>\n\n\n#More.\n"
  /\ convert_to_styled_format doc_second_level <> doc_second_level.
Proof.
  split; [|split].
  - destruct (re_match front_matter_re doc_second_level) as [res|] eqn:E;
      [|vm_compute in E; discriminate].
    destruct (front_matter_split_decide _ _ E) as [body Hs].
    exists body, (m_rest res). split; [exact Hs|].
    apply first_level_heading_decide.
    vm_compute in E. inversion E; subst res. vm_compute. reflexivity.
  - vm_compute. reflexivity.
  - vm_compute. discriminate.
Qed.

(** ** The styling script on sample documents *)

(** C4: on the document made of a front-matter block, the heading
    '# SEC01: Title', one description paragraph and a Best Practices
    section with exactly one '### Sub' heading and its body, the output
    holds the pillar-header div with the h1 'SEC01: Title' and that
    description, and exactly one best-practice div, whose h4 is 'Sub'. *)
Theorem C4_end_to_end_sec01 :
  convert_to_styled_format doc_sec01 = doc_sec01_styled
  /\ contains
       (py "<div class=\qpillar-header\q>\n  <h1>SEC01: Title</h1>\n  <p>A description paragraph.</p>\n</div>")
       (convert_to_styled_format doc_sec01) = true
  /\ count_occurrences (py "<div class=\qbest-practice\q>")
                       (convert_to_styled_format doc_sec01) = 1
  /\ contains (py "<div class=\qbest-practice\q>\n  <h4>Sub</h4>")
              (convert_to_styled_format doc_sec01) = true.
Proof. repeat split; vm_compute; reflexivity. Qed.

(** C1 fails for the services section: the body of the section of
    [doc_services] matches neither list pattern, and the output holds the
    fixed placeholder item instead of the body, which is gone. *)
Lemma C1_services_body_dropped :
  contains (py "## AWS Services to Consider\n\nUse whatever fits the workload.\n")
           doc_services = true
  /\ findall2 bold_service_re (py "Use whatever fits the workload.\n") = []
  /\ findall1 list_item_re (py "Use whatever fits the workload.\n") = []
  /\ convert_to_styled_format doc_services = doc_services_styled
  /\ contains (py "Use whatever fits the workload.")
              (convert_to_styled_format doc_services) = false.
Proof. repeat split; vm_compute; reflexivity. Qed.

(** C2 fails: a second run on [doc_two_headings] changes the text again
    and wraps the best-practice div, already wrapped, once more. *)
Lemma C2_second_run_rewraps :
  convert_to_styled_format doc_two_headings = doc_two_headings_once
  /\ convert_to_styled_format (convert_to_styled_format doc_two_headings)
     = doc_two_headings_twice
  /\ convert_to_styled_format (convert_to_styled_format doc_two_headings)
     <> convert_to_styled_format doc_two_headings
  /\ count_occurrences (py "<div class=\qbest-practice\q>")
       (convert_to_styled_format doc_two_headings) = 1
  /\ count_occurrences (py "<div class=\qbest-practice\q>")
       (convert_to_styled_format (convert_to_styled_format doc_two_headings))
     = 2.
Proof.
  repeat split; try (vm_compute; reflexivity).
  vm_compute. discriminate.
Qed.

(** ** scripts/update_pillar_order.py *)

Section NavOrder.

Import UpdatePillarOrder.

Lemma readlines_writelines content : writelines (readlines content) = content.
Proof.
  unfold writelines. induction content as [|c s IH]; simpl; [reflexivity|].
  destruct (Ascii.eqb c LF).
  - simpl. rewrite IH. reflexivity.
  - destruct (readlines s) as [|l ls]; simpl in *; rewrite <- IH; reflexivity.
Qed.

(** The loop changes the first nav_order line and nothing else. *)
Lemma set_nav_order_spec lines n :
  ((forall l, In l lines -> is_nav_order_line l = false)
   /\ set_nav_order lines n = lines)
  \/ exists before line after,
      lines = before ++ line :: after
      /\ (forall l, In l before -> is_nav_order_line l = false)
      /\ is_nav_order_line line = true
      /\ set_nav_order lines n
         = before ++ (py "nav_order: " ++ str_of_nat n ++ py "\n") :: after.
Proof.
  induction lines as [|l ls IH]; simpl.
  - left. split; [intros l []|reflexivity].
  - destruct (is_nav_order_line l) eqn:E.
    + right. exists [], l, ls. repeat split; auto. intros x [].
    + destruct IH as [[Hn Hs] | (b & x & a & -> & Hb & Hx & Hs)].
      * left. split; [|rewrite Hs; reflexivity].
        intros x [<- | Hx]; auto.
      * right. exists (l :: b), x, a. repeat split; auto.
        -- intros y [<- | Hy]; auto.
        -- simpl. rewrite Hs. reflexivity.
Qed.

Lemma write_file_other fs path content p :
  p <> path -> write_file fs path content p = fs p.
Proof.
  intros H. unfold write_file.
  destruct (str_eqb p path) eqn:E; [|reflexivity].
  apply str_eqb_eq in E. contradiction.
Qed.

Lemma write_file_same fs path content :
  write_file fs path content path = Some content.
Proof. unfold write_file. rewrite str_eqb_refl. reflexivity. Qed.

End NavOrder.

Lemma universal_newlines_plain raw :
  ~ In CR raw -> UpdatePillarOrder.universal_newlines raw = raw.
Proof.
  induction raw as [|c s IH]; [reflexivity|]. intros H.
  cbn [UpdatePillarOrder.universal_newlines].
  destruct (Ascii.eqb_spec c CR) as [->|_].
  - exfalso. apply H. left. reflexivity.
  - f_equal. apply IH. intros Hin. apply H. right. exact Hin.
Qed.

(** C9 (amended): for an existing pillar index file,
    [update_pillar_nav_order] writes back the text it read, which is the
    text of the file with every carriage return and line feed pair, and
    every carriage return on its own, turned into one line feed, with at
    most one line changed: the first line whose stripped text starts with
    'nav_order:' becomes 'nav_order: <n>', every other line of the text
    read is written back as it was, and without such a line the text
    written is the text read.  The text read is the text of the file
    when the file holds no carriage return.  No other file is touched. *)
Theorem C9_nav_order_frame :
  forall (fs : UpdatePillarOrder.file_system) pillar_dir n content,
    fs (UpdatePillarOrder.index_path pillar_dir) = Some content ->
    let fs' := fst (UpdatePillarOrder.update_pillar_nav_order fs pillar_dir n) in
    let text := UpdatePillarOrder.universal_newlines content in
    (forall p, p <> UpdatePillarOrder.index_path pillar_dir -> fs' p = fs p)
    /\ (~ In CR content -> text = content)
    /\ exists written,
        fs' (UpdatePillarOrder.index_path pillar_dir) = Some written
        /\ (((forall l, In l (UpdatePillarOrder.readlines text) ->
                        UpdatePillarOrder.is_nav_order_line l = false)
             /\ written = text)
            \/ exists before line after,
                UpdatePillarOrder.readlines text = before ++ line :: after
                /\ (forall l, In l before ->
                              UpdatePillarOrder.is_nav_order_line l = false)
                /\ UpdatePillarOrder.is_nav_order_line line = true
                /\ written
                   = UpdatePillarOrder.writelines
                       (before
                          ++ (py "nav_order: " ++ str_of_nat n ++ py "\n")
                          :: after)).
Proof.
  intros fs pillar_dir n content Hfs fs' text. subst fs' text.
  unfold UpdatePillarOrder.update_pillar_nav_order. rewrite Hfs. simpl fst.
  split; [|split].
  - intros p Hp. apply write_file_other; exact Hp.
  - apply universal_newlines_plain.
  - eexists. split; [apply write_file_same|].
    destruct (set_nav_order_spec
                (UpdatePillarOrder.readlines
                   (UpdatePillarOrder.universal_newlines content)) n)
      as [[Hn Hs] | (b & x & a & E & Hb & Hx & Hs)].
    + left. split; [exact Hn|]. rewrite Hs. apply readlines_writelines.
    + right. exists b, x, a. rewrite Hs. auto.
Qed.

Lemma C9_nav_order_witness :
  fs_security (UpdatePillarOrder.index_path (py "security"))
  = Some (py "---\ntitle: Security\nnav_order: 3\nhas_children: true\n---\n\n# Security\n")
  /\ fst (UpdatePillarOrder.update_pillar_nav_order fs_security (py "security") 2)
         (UpdatePillarOrder.index_path (py "security"))
     = Some (py "---\ntitle: Security\nnav_order: 2\nhas_children: true\n---\n\n# Security\n").
Proof.
  assert (H : fs_security (UpdatePillarOrder.index_path (py "security"))
              = Some (py "---\ntitle: Security\nnav_order: 3\nhas_children: true\n---\n\n# Security\n"))
    by (vm_compute; reflexivity).
  split; [exact H|].
  destruct (C9_nav_order_frame fs_security (py "security") 2 _ H)
    as [_ [_ [written [Hw _]]]].
  rewrite Hw. vm_compute in Hw. inversion Hw. vm_compute. reflexivity.
Defined.

(** C9 as first stated fails on a file with carriage returns: no line of
    the file starts with 'nav_order:', and still the text written is not
    the text of the file, the line ends having become line feeds. *)
Lemma C9_carriage_returns_rewritten :
  fs_crlf (UpdatePillarOrder.index_path (py "security")) = Some crlf_text
  /\ contains (py "nav_order:") crlf_text = false
  /\ fst (UpdatePillarOrder.update_pillar_nav_order fs_crlf (py "security") 2)
         (UpdatePillarOrder.index_path (py "security"))
     = Some (py "title: S\nlayout: x\n")
  /\ py "title: S\nlayout: x\n" <> crlf_text.
Proof.
  repeat split; try (vm_compute; reflexivity).
  vm_compute. discriminate.
Qed.

(** ** scripts/generate_wafr_pages.py *)

(** C7 (amended): when fetching the appendix page fails ([requests.get]
    or [raise_for_status] raises) or reading the page fails (the HTML
    library raises), the script prints the error, prints that it exits,
    writes no question file and ends with exit code 1.  These are the
    failures the script knows: a page that is fetched and read but gives
    no identifier and title is not one of them. *)
Theorem C7_fetch_failure_aborts :
  forall (requests_get : str -> outcome GenerateWafrPages.response)
         (BeautifulSoup : str -> outcome (list GenerateWafrPages.h2_element))
         (e : str),
    (requests_get GenerateWafrPages.WAFR_URL = Raised e
     \/ exists response,
         requests_get GenerateWafrPages.WAFR_URL = Returned response
         /\ (GenerateWafrPages.raise_for_status response = Raised e
             \/ (GenerateWafrPages.raise_for_status response = Returned tt
                 /\ BeautifulSoup (GenerateWafrPages.text response)
                    = Raised e))) ->
    GenerateWafrPages.main requests_get BeautifulSoup
    = {| GenerateWafrPages.stdout :=
           [ py "Fetching AWS Well-Architected Framework questions...";
             py "Error fetching WAFR questions: " ++ e;
             py "Failed to fetch questions. Exiting." ];
         GenerateWafrPages.files := [];
         GenerateWafrPages.exit_code := 1 |}.
Proof.
  intros requests_get BeautifulSoup e H.
  assert (Hb : GenerateWafrPages.fetch_body requests_get BeautifulSoup
               = Raised e).
  { unfold GenerateWafrPages.fetch_body.
    destruct H as [-> | (r & -> & [-> | [-> ->]])]; reflexivity. }
  unfold GenerateWafrPages.main, GenerateWafrPages.fetch_wafr_questions.
  rewrite Hb. reflexivity.
Qed.

Lemma C7_fetch_failure_witness :
  (requests_get_down GenerateWafrPages.WAFR_URL
   = Raised (py "Connection refused")
   /\ GenerateWafrPages.exit_code
        (GenerateWafrPages.main requests_get_down soup_empty) = 1
   /\ GenerateWafrPages.files
        (GenerateWafrPages.main requests_get_down soup_empty) = [])
  /\ (GenerateWafrPages.exit_code
        (GenerateWafrPages.main requests_get_500 soup_empty) = 1
      /\ GenerateWafrPages.files
           (GenerateWafrPages.main requests_get_500 soup_empty) = [])
  /\ (GenerateWafrPages.exit_code
        (GenerateWafrPages.main requests_get_ok soup_fails) = 1
      /\ GenerateWafrPages.files
           (GenerateWafrPages.main requests_get_ok soup_fails) = []).
Proof.
  split; [|split].
  - split; [reflexivity|].
    rewrite (C7_fetch_failure_aborts requests_get_down soup_empty
               (py "Connection refused")); [split; reflexivity|].
    left; reflexivity.
  - rewrite (C7_fetch_failure_aborts requests_get_500 soup_empty
               (py "500 Server Error")); [split; reflexivity|].
    right. eexists; split; [reflexivity|]. left; reflexivity.
  - rewrite (C7_fetch_failure_aborts requests_get_ok soup_fails
               (py "parser error")); [split; reflexivity|].
    right. eexists; split; [reflexivity|]. right; split; reflexivity.
Defined.

(** C7 as first stated fails on a page that is fetched and read but from
    which no identifier and title can be taken: no question is collected,
    and the run prints no error, writes no file and ends with exit
    code 0. *)
Lemma C7_unparsed_page_exits_zero :
  map snd (GenerateWafrPages.collect_questions h2_unparsed)
  = [[]; []; []; []; []; []]
  /\ GenerateWafrPages.main requests_get_ok soup_unparsed
     = {| GenerateWafrPages.stdout :=
            [ py "Fetching AWS Well-Architected Framework questions...";
              py "Generating Markdown files for each question...";
              py "\nProcessing Operational Excellence pillar (0 questions):";
              py "\nProcessing Security pillar (0 questions):";
              py "\nProcessing Reliability pillar (0 questions):";
              py "\nProcessing Performance Efficiency pillar (0 questions):";
              py "\nProcessing Cost Optimization pillar (0 questions):";
              py "\nProcessing Sustainability pillar (0 questions):";
              py "\nDone! All question files have been generated." ];
          GenerateWafrPages.files := [];
          GenerateWafrPages.exit_code := 0 |}.
Proof. split; vm_compute; reflexivity. Qed.

(** A page without any recognised heading is not a failure: the run
    writes no file and ends normally. *)
Lemma empty_page_is_not_a_failure :
  GenerateWafrPages.exit_code
    (GenerateWafrPages.main requests_get_ok soup_empty) = 0
  /\ GenerateWafrPages.files
       (GenerateWafrPages.main requests_get_ok soup_empty) = [].
Proof. split; vm_compute; reflexivity. Qed.

(** ** Docs/dr-plan/pdf/ecr-replication.py *)

Section Retag.

Import EcrReplication.

Variable ecr : registry.
Variables repositoryName imageTag imageManifest : str.

Let four := retag_calls repositoryName imageTag imageManifest.
Let reply (st : state) (n : nat) :=
  retag_reply ecr (calls st) repositoryName imageTag imageManifest n.

(** The run of [reupload], call by call: it stops at the first call
    that raises and issues nothing after it. *)
Lemma reupload_unfold st :
  reupload ecr repositoryName imageTag imageManifest st =
  match reply st 0 with
  | Raised e => (Raised e, {| calls := calls st ++ firstn 1 four;
                              printed := printed st |})
  | Returned _ =>
    match reply st 1 with
    | Raised e => (Raised e, {| calls := calls st ++ firstn 2 four;
                                printed := printed st |})
    | Returned _ =>
      match reply st 2 with
      | Raised e => (Raised e, {| calls := calls st ++ firstn 3 four;
                                  printed := printed st |})
      | Returned _ =>
        match reply st 3 with
        | Raised e => (Raised e, {| calls := calls st ++ four;
                                    printed := printed st |})
        | Returned _ =>
            (Returned tt, {| calls := calls st ++ four;
                             printed := printed st ++ [py "OK\n"] |})
        end
      end
    end
  end.
Proof.
  unfold reply, retag_reply, four, retag_calls, reupload, bind, issue, print.
  cbn [calls printed firstn].
  rewrite app_nil_r.
  destruct (put_reply ecr (calls st) _ _ _); [|reflexivity].
  rewrite <- !app_assoc. cbn [app].
  destruct (delete_reply ecr _ _ _); [|reflexivity].
  destruct (put_reply ecr _ _ _ _); [|reflexivity].
  destruct (delete_reply ecr _ _ _); reflexivity.
Qed.

End Retag.

Lemma temp_tag_differs (imageTag : str) : imageTag ++ py "-temp" <> imageTag.
Proof.
  intros H. apply (f_equal (@length _)) in H. rewrite length_app in H.
  simpl in H. lia.
Qed.

(** The body of the loop over the images: the calls issued are the
    first [n] of the four, with [n = 4] when none raises; when the [n]-th
    one raises the body ends there; and a put that restores the tag is
    always preceded by the delete of that tag. *)
Lemma reupload_call_order :
  forall (ecr : EcrReplication.registry)
         (repositoryName imageTag imageManifest : str)
         (st : EcrReplication.state),
    let r := EcrReplication.reupload ecr repositoryName imageTag
                                     imageManifest st in
    let four := retag_calls repositoryName imageTag imageManifest in
    let reply := retag_reply ecr (EcrReplication.calls st) repositoryName
                             imageTag imageManifest in
    (exists n,
        1 <= n <= 4
        /\ EcrReplication.calls (snd r)
           = EcrReplication.calls st ++ firstn n four
        /\ (forall i, i < n - 1 -> reply i = Returned tt)
        /\ match fst r with
           | Returned _ => n = 4 /\ reply 3 = Returned tt
           | Raised e => reply (n - 1) = Raised e
           end)
    /\ (forall pre post,
           EcrReplication.calls (snd r)
           = EcrReplication.calls st ++ pre
               ++ EcrReplication.put_image repositoryName imageManifest
                    imageTag :: post ->
           In (EcrReplication.batch_delete_image repositoryName imageTag)
              pre).
Proof.
  intros ecr repositoryName imageTag imageManifest st r four reply.
  assert (Hn : exists n,
             1 <= n <= 4
             /\ EcrReplication.calls (snd r)
                = EcrReplication.calls st ++ firstn n four
             /\ (forall i, i < n - 1 -> reply i = Returned tt)
             /\ match fst r with
                | Returned _ => n = 4 /\ reply 3 = Returned tt
                | Raised e => reply (n - 1) = Raised e
                end).
  { subst r. rewrite reupload_unfold. fold four. fold reply.
    destruct (reply 0) as [[]|e0] eqn:E0.
    2:{ exists 1. simpl. repeat split; auto; intros; lia. }
    destruct (reply 1) as [[]|e1] eqn:E1.
    2:{ exists 2. simpl. repeat split; auto.
        intros i Hi. assert (i = 0) by lia. subst; auto. }
    destruct (reply 2) as [[]|e2] eqn:E2.
    2:{ exists 3. simpl. repeat split; auto.
        intros i Hi. destruct i as [|[|i]]; auto; lia. }
    destruct (reply 3) as [[]|e3] eqn:E3.
    2:{ exists 4. simpl. repeat split; auto.
        intros i Hi. destruct i as [|[|[|i]]]; auto; lia. }
    exists 4. simpl. repeat split; auto.
    intros i Hi. destruct i as [|[|[|i]]]; auto; lia. }
  split; [exact Hn|].
  destruct Hn as (n & Hr & Hc & _). intros pre post E.
  rewrite Hc in E. apply app_inv_head in E.
  pose proof (temp_tag_differs imageTag) as Hd.
  subst four. unfold retag_calls in E.
  destruct n as [|[|[|[|[|n]]]]]; try lia; cbn [firstn] in E;
    destruct pre as [|c1 [|c2 [|c3 [|c4 pre]]]]; simpl in E;
      try discriminate; try (inversion E; subst; simpl; auto; fail);
        try (inversion E; congruence).
  all: try (inversion E; subst; destruct pre; discriminate).
Qed.

(** On a registry that accepts everything, one image costs exactly the
    four calls; when deleting is refused, the run ends after the second
    call with the image under both tags and nothing is undone. *)
Lemma retag_runs :
  EcrReplication.calls
    (snd (EcrReplication.script ecr_ok
            {| EcrReplication.calls := []; EcrReplication.printed := [] |}))
  = [ EcrReplication.describe_repositories;
      EcrReplication.list_images (py "app");
      EcrReplication.batch_get_image (py "app") (py "v1") ]
      ++ retag_calls (py "app") (py "v1") (py "manifest")
  /\ EcrReplication.script ecr_delete_fails
       {| EcrReplication.calls := []; EcrReplication.printed := [] |}
     = (Raised (py "AccessDenied"),
        {| EcrReplication.calls :=
             [ EcrReplication.describe_repositories;
               EcrReplication.list_images (py "app");
               EcrReplication.batch_get_image (py "app") (py "v1");
               EcrReplication.put_image (py "app") (py "manifest")
                                        (py "v1-temp");
               EcrReplication.batch_delete_image (py "app") (py "v1") ];
           EcrReplication.printed := [py "reuploading:  app : v1 "] |}).
Proof. split; vm_compute; reflexivity. Qed.

(** ** [re.sub] over a pattern that never matches the empty text *)

Lemma sub_go_skip r repl pos w t :
  sub_go r repl pos (length w) (w ++ t) = sub_go r repl (pos + length w) 0 t.
Proof.
  revert pos; induction w as [|c w IH]; intros pos; simpl.
  - rewrite Nat.add_0_r. reflexivity.
  - rewrite IH. f_equal. lia.
Qed.

Lemma sub_go_step r repl pos s :
  (forall res, match_at r pos s = Some res -> m_text res <> []) ->
  sub_go r repl pos 0 s =
  match match_at r pos s with
  | Some res =>
      repl res ++ sub_go r repl (pos + length (m_text res)) 0 (m_rest res)
  | None =>
      match s with
      | [] => []
      | c :: s' => c :: sub_go r repl (S pos) 0 s'
      end
  end.
Proof.
  intros Hne. destruct s as [|c s']; simpl.
  - destruct (match_at r pos []) as [res|] eqn:E; [|reflexivity].
    exfalso. apply (Hne res eq_refl).
    destruct (match_at_parts _ _ _ _ E) as [Hp _].
    destruct (m_text res); [reflexivity|discriminate].
  - destruct (match_at r pos (c :: s')) as [res|] eqn:E; [|reflexivity].
    destruct (match_at_parts _ _ _ _ E) as [Hp _].
    destruct (m_text res) as [|c' w] eqn:Et; [exfalso; eapply Hne; eauto|].
    simpl in Hp. inversion Hp; subst.
    rewrite sub_go_skip. simpl. do 2 f_equal. lia.
Qed.

(** ** Rewriting quoted link targets

    Both link-fixing scripts substitute a pattern of the shape
    href="(...)" with a text computed from the group.  The section takes
    the pattern by what it matches: [target] says which group texts it
    accepts. *)

Definition href_open : str := py "href=\q".

Definition plain_char (c : ascii) : bool :=
  negb (Ascii.eqb c DQ) && negb (Ascii.eqb c "=").

Section QuotedLinks.

Variable r : regex.
Variable target : str -> Prop.
Variable f : str -> str.
Variable repl : rmatch_result -> str.

Hypothesis match_at_target :
  forall pos s res,
    match_at r pos s = Some res <->
    exists b rest,
      target b /\ s = href_open ++ b ++ DQ :: rest
      /\ res = MatchResult pos (href_open ++ b ++ [DQ]) [(1, b)] rest.

Hypothesis target_plain : forall b, target b -> forallb plain_char b = true.

Hypothesis repl_target :
  forall res, repl res = href_open ++ f (group 1 (m_groups res)) ++ [DQ].

(** A link at the head of the text. *)
Definition link_at (s : str) : Prop :=
  exists b rest, target b /\ s = href_open ++ b ++ DQ :: rest.

Lemma match_at_None pos s : ~ link_at s -> match_at r pos s = None.
Proof.
  intros H. destruct (match_at r pos s) as [res|] eqn:E; [|reflexivity].
  exfalso. apply H. apply match_at_target in E as (b & rest & Hb & -> & _).
  exists b, rest; auto.
Qed.

Lemma match_nonempty pos s res :
  match_at r pos s = Some res -> m_text res <> [].
Proof.
  intros E. apply match_at_target in E as (b & rest & _ & _ & ->).
  discriminate.
Qed.

Lemma sub_hit_at pos b rest :
  target b ->
  sub_go r repl pos 0 (href_open ++ b ++ DQ :: rest)
  = href_open ++ f b ++ DQ
      :: sub_go r repl (pos + length (href_open ++ b ++ [DQ])) 0 rest.
Proof.
  intros Hb. rewrite sub_go_step by (intros res; apply match_nonempty).
  assert (E : match_at r pos (href_open ++ b ++ DQ :: rest)
              = Some (MatchResult pos (href_open ++ b ++ [DQ]) [(1, b)] rest)).
  { apply match_at_target. exists b, rest. auto. }
  rewrite E. rewrite repl_target. cbn [m_groups m_text m_rest group].
  rewrite Nat.eqb_refl. rewrite <- !app_assoc. reflexivity.
Qed.

Lemma sub_miss_at pos c s :
  ~ link_at (c :: s) ->
  sub_go r repl pos 0 (c :: s) = c :: sub_go r repl (S pos) 0 s.
Proof.
  intros H. rewrite sub_go_step by (intros res; apply match_nonempty).
  rewrite match_at_None by exact H. reflexivity.
Qed.

Lemma link_at_dec s : link_at s \/ ~ link_at s.
Proof.
  destruct (match_at r 0 s) as [res|] eqn:E.
  - left. apply match_at_target in E as (b & rest & Hb & -> & _).
    exists b, rest; auto.
  - right. intros (b & rest & Hb & ->).
    assert (E' : match_at r 0 (href_open ++ b ++ DQ :: rest) <> None).
    { intros E'. 
      assert (X : match_at r 0 (href_open ++ b ++ DQ :: rest)
                  = Some (MatchResult 0 (href_open ++ b ++ [DQ]) [(1, b)] rest)).
      { apply match_at_target. exists b, rest; auto. }
      congruence. }
    contradiction.
Qed.

Lemma sub_go_nil pos : sub_go r repl pos 0 [] = [].
Proof.
  rewrite sub_go_step by (intros res; apply match_nonempty).
  rewrite match_at_None; [reflexivity|].
  intros (b & rest & _ & E). discriminate.
Qed.

(** The position at which the scan stands plays no part. *)
Lemma sub_go_pos pos s : sub_go r repl pos 0 s = sub_go r repl 0 0 s.
Proof.
  remember (length s) as n eqn:Hn. revert pos s Hn.
  induction n as [n IH] using lt_wf_ind. intros pos s Hn.
  destruct s as [|c s]; [rewrite !sub_go_nil; reflexivity|].
  destruct (link_at_dec (c :: s)) as [(b & rest & Hb & E) | H].
  - assert (Hl : length rest < n).
    { subst n. rewrite E, !length_app. simpl. lia. }
    rewrite E. rewrite !sub_hit_at by exact Hb.
    rewrite (IH (length rest) Hl (pos + _) rest eq_refl).
    rewrite (IH (length rest) Hl (0 + _) rest eq_refl).
    reflexivity.
  - assert (Hl : length s < n) by (subst n; simpl; lia).
    rewrite !sub_miss_at by exact H.
    rewrite (IH (length s) Hl (S pos) s eq_refl).
    rewrite (IH (length s) Hl 1 s eq_refl).
    reflexivity.
Qed.

Lemma re_sub_nil : re_sub r repl [] = [].
Proof. apply sub_go_nil. Qed.

Lemma re_sub_hit b rest :
  target b ->
  re_sub r repl (href_open ++ b ++ DQ :: rest)
  = href_open ++ f b ++ DQ :: re_sub r repl rest.
Proof.
  intros Hb. unfold re_sub. rewrite sub_hit_at by exact Hb.
  rewrite sub_go_pos. reflexivity.
Qed.

Lemma re_sub_miss c s :
  ~ link_at (c :: s) -> re_sub r repl (c :: s) = c :: re_sub r repl s.
Proof.
  intros H. unfold re_sub. rewrite sub_miss_at by exact H.
  rewrite sub_go_pos. reflexivity.
Qed.

Lemma link_at_app s t : link_at s -> link_at (s ++ t).
Proof.
  intros (b & rest & Hb & ->). exists b, (rest ++ t). split; [exact Hb|].
  rewrite <- !app_assoc. reflexivity.
Qed.

End QuotedLinks.

Lemma nth_error_forallb {A : Type} (P : A -> bool) (l : list A) i c :
  forallb P l = true -> nth_error l i = Some c -> P c = true.
Proof.
  intros H E. apply nth_error_In in E.
  rewrite forallb_forall in H. auto.
Qed.

Lemma nth_error_last {A : Type} (a : list A) (x : A) :
  nth_error (a ++ [x]) (length (a ++ [x]) - 1) = Some x.
Proof.
  rewrite length_app. simpl.
  rewrite nth_error_app2 by lia.
  replace (length a + 1 - 1 - length a) with 0 by lia. reflexivity.
Qed.

(** Two quoted links cannot overlap: a link that starts before another
    one ends before it. *)
Lemma links_do_not_overlap b b' pre rest post :
  forallb plain_char b = true -> forallb plain_char b' = true ->
  (href_open ++ b' ++ [DQ]) ++ rest = pre ++ (href_open ++ b ++ [DQ]) ++ post ->
  pre <> [] ->
  length (href_open ++ b' ++ [DQ]) <= length pre.
Proof.
  intros Hb Hb' E Hpre.
  destruct (Nat.le_gt_cases (length (href_open ++ b' ++ [DQ])) (length pre))
    as [|Hlt]; [assumption|exfalso].
  set (w := href_open ++ b' ++ [DQ]) in *.
  set (n := length pre) in *.
  assert (Hn : 1 <= n) by (subst n; destruct pre; simpl; [congruence|lia]).
  assert (Hw : length w = 6 + length b' + 1).
  { subst w. rewrite !length_app. reflexivity. }
  destruct (Nat.lt_ge_cases (n + 4) (length w)) as [Hin | Hout].
  - (* the '=' of the second link would lie inside the first *)
    assert (R : nth_error (pre ++ (href_open ++ b ++ [DQ]) ++ post) (n + 4)
                = Some "="%char).
    { rewrite nth_error_app2 by (subst n; lia).
      replace (n + 4 - length pre) with 4 by (subst n; lia). reflexivity. }
    rewrite <- E in R. rewrite nth_error_app1 in R by lia.
    subst w. unfold href_open in R.
    destruct (Nat.eq_dec n 1) as [Hn1 | Hn1].
    { rewrite Hn1 in R. simpl in R. inversion R. }
    rewrite nth_error_app2 in R by (simpl; lia).
    change (length (py "href=\q")) with 6 in R.
    destruct (Nat.eq_dec (n + 4 - 6) (length b')) as [Heq | Hneq].
    + rewrite nth_error_app2 in R by lia.
      replace (n + 4 - 6 - length b') with 0 in R by lia.
      simpl in R. inversion R.
    + rewrite nth_error_app1 in R by lia.
      apply (nth_error_forallb _ _ _ _ Hb') in R. discriminate.
  - (* the closing quote of the first would lie in 'href' of the second *)
    assert (L : nth_error (w ++ rest) (length w - 1) = Some DQ).
    { rewrite nth_error_app1 by lia. subst w.
      rewrite app_assoc. apply nth_error_last. }
    rewrite E in L. rewrite nth_error_app2 in L by (subst n; lia).
    rewrite <- app_assoc in L.
    fold n in L.
    assert (Hj : length w - 1 - n < 4) by lia.
    destruct (length w - 1 - n) as [|[|[|[|j]]]] eqn:Ej; try lia;
      simpl in L; inversion L.
Qed.

Lemma plain_split b b' rest rest' :
  forallb plain_char b = true -> forallb plain_char b' = true ->
  b ++ DQ :: rest = b' ++ DQ :: rest' -> b = b' /\ rest = rest'.
Proof.
  revert b'; induction b as [|c b IH]; intros [|c' b'] Hb Hb' E;
    simpl in *.
  - inversion E; auto.
  - inversion E; subst. apply andb_true_iff in Hb' as [Hc _].
    unfold plain_char in Hc. rewrite Ascii.eqb_refl in Hc. discriminate.
  - inversion E; subst. apply andb_true_iff in Hb as [Hc _].
    unfold plain_char in Hc. rewrite Ascii.eqb_refl in Hc. discriminate.
  - inversion E; subst.
    apply andb_true_iff in Hb as [_ Hb]. apply andb_true_iff in Hb' as [_ Hb'].
    destruct (IH _ Hb Hb' H1) as [-> ->]. auto.
Qed.

(** From the two directions of the matcher to the exact match object. *)
Lemma quoted_match_iff (r : regex) (target : str -> Prop) :
  (forall b, target b -> forallb plain_char b = true) ->
  (forall pos s res,
      match_at r pos s = Some res ->
      exists b rest,
        target b /\ s = href_open ++ b ++ DQ :: rest
        /\ res = MatchResult pos (href_open ++ b ++ [DQ]) [(1, b)] rest) ->
  (forall pos b rest,
      target b -> match_at r pos (href_open ++ b ++ DQ :: rest) <> None) ->
  forall pos s res,
    match_at r pos s = Some res <->
    exists b rest,
      target b /\ s = href_open ++ b ++ DQ :: rest
      /\ res = MatchResult pos (href_open ++ b ++ [DQ]) [(1, b)] rest.
Proof.
  intros Hplain Hsound Hcomplete pos s res. split; [apply Hsound|].
  intros (b & rest & Hb & -> & ->).
  destruct (match_at r pos (href_open ++ b ++ DQ :: rest)) as [res'|] eqn:E;
    [|exfalso; eapply Hcomplete; eauto].
  destruct (Hsound _ _ _ E) as (b' & rest' & Hb' & E' & ->).
  apply app_inv_head in E'.
  destruct (plain_split _ _ _ _ (Hplain _ Hb) (Hplain _ Hb') E') as [<- <-].
  reflexivity.
Qed.

Section QuotedLinkOccurrences.

Variable r : regex.
Variable target : str -> Prop.
Variable f : str -> str.
Variable repl : rmatch_result -> str.

Hypothesis match_at_target :
  forall pos s res,
    match_at r pos s = Some res <->
    exists b rest,
      target b /\ s = href_open ++ b ++ DQ :: rest
      /\ res = MatchResult pos (href_open ++ b ++ [DQ]) [(1, b)] rest.

Hypothesis target_plain : forall b, target b -> forallb plain_char b = true.

Hypothesis repl_target :
  forall res, repl res = href_open ++ f (group 1 (m_groups res)) ++ [DQ].

(** Every occurrence of a link is rewritten, whatever stands around
    it. *)
Lemma re_sub_occurrence pre b post :
  target b ->
  re_sub r repl (pre ++ href_open ++ b ++ DQ :: post)
  = re_sub r repl pre ++ href_open ++ f b ++ DQ :: re_sub r repl post.
Proof.
  intros Hb. remember (length pre) as n eqn:Hn. revert pre Hn.
  induction n as [n IH] using lt_wf_ind. intros pre Hn.
  destruct pre as [|c pre'].
  - simpl. rewrite (re_sub_nil r target repl match_at_target).
    apply (re_sub_hit r target f repl match_at_target repl_target).
    exact Hb.
  - destruct (link_at_dec r target match_at_target
                          ((c :: pre') ++ href_open ++ b ++ DQ :: post))
      as [(b' & rest' & Hb' & E) | H].
    + assert (X : forall b0 y, (href_open ++ b0 ++ [DQ]) ++ y
                               = href_open ++ b0 ++ DQ :: y).
      { intros b0 y. rewrite <- !app_assoc. reflexivity. }
      assert (E2 : (c :: pre') ++ (href_open ++ b ++ DQ :: post)
                   = (href_open ++ b' ++ [DQ]) ++ rest').
      { rewrite E, X. reflexivity. }
      assert (Hle : length (href_open ++ b' ++ [DQ]) <= length (c :: pre')).
      { apply (links_do_not_overlap b b' (c :: pre') rest' post);
          auto; [|discriminate].
        rewrite <- E2, X. reflexivity. }
      destruct (app_eq_app_le _ _ _ _ E2 Hle) as [z [Hz Hr]].
      rewrite E2, Hz, !X.
      rewrite !(re_sub_hit r target f repl match_at_target repl_target)
        by exact Hb'.
      rewrite Hr. rewrite (IH (length z)) with (pre := z); auto.
      * rewrite <- !app_assoc. reflexivity.
      * subst n. rewrite Hz, !length_app. simpl. lia.
    + rewrite <- app_comm_cons.
      rewrite (re_sub_miss r target f repl match_at_target repl_target) by exact H.
      rewrite (re_sub_miss r target f repl match_at_target repl_target).
      2:{ intros Hl. apply H. apply (link_at_app target _ _ Hl). }
      rewrite (IH (length pre')) with (pre := pre'); auto.
      subst n; simpl; lia.
Qed.

(** Text without a link is left as it is. *)
Lemma re_sub_no_occurrence s :
  (forall pre b post, target b -> s <> pre ++ href_open ++ b ++ DQ :: post) ->
  re_sub r repl s = s.
Proof.
  induction s as [|c s IH]; intros H.
  - apply (re_sub_nil r target repl match_at_target).
  - rewrite (re_sub_miss r target f repl match_at_target repl_target).
    + f_equal. apply IH. intros pre b post Hb E.
      apply (H (c :: pre) b post Hb). rewrite E. reflexivity.
    + intros (b & rest & Hb & E). apply (H [] b rest Hb). exact E.
Qed.

End QuotedLinkOccurrences.

(** ** scripts/fix_all_pillar_links.py *)

Lemma firstn_exact (a b t : str) n :
  t = a ++ b -> n = length a -> firstn n t = a.
Proof. intros -> ->. apply firstn_length_app. Qed.

Lemma forallb_app_true {A : Type} (P : A -> bool) (a b : list A) :
  forallb P a = true -> forallb P b = true -> forallb P (a ++ b) = true.
Proof. intros Ha Hb. rewrite forallb_app, Ha, Hb. reflexivity. Qed.

Lemma forallb_impl {A : Type} (P Q : A -> bool) (l : list A) :
  (forall x, P x = true -> Q x = true) ->
  forallb P l = true -> forallb Q l = true.
Proof.
  intros H. induction l as [|x l IH]; simpl; [auto|].
  intros E. apply andb_true_iff in E as [E1 E2].
  rewrite (H _ E1), (IH E2). reflexivity.
Qed.

Lemma upper_plain c : is_upper c = true -> plain_char c = true.
Proof.
  intros H. unfold plain_char.
  destruct (Ascii.eqb_spec c DQ) as [->|_]; [vm_compute in H; discriminate|].
  destruct (Ascii.eqb_spec c "=") as [->|_]; [vm_compute in H; discriminate|].
  reflexivity.
Qed.

Lemma digit_plain c : is_digit c = true -> plain_char c = true.
Proof.
  intros H. unfold plain_char.
  destruct (Ascii.eqb_spec c DQ) as [->|_]; [vm_compute in H; discriminate|].
  destruct (Ascii.eqb_spec c "=") as [->|_]; [vm_compute in H; discriminate|].
  reflexivity.
Qed.

Lemma bp_suffix_plain tail : bp_suffix tail -> forallb plain_char tail = true.
Proof.
  intros [-> | (D2 & -> & _ & H)]; [reflexivity|].
  apply forallb_app_true; [reflexivity|].
  eapply forallb_impl; [apply digit_plain|exact H].
Qed.

Lemma pillar_link_plain id : pillar_link id -> forallb plain_char id = true.
Proof.
  intros (U & D & tail & -> & (_ & HU & _ & HD) & Ht).
  apply forallb_app_true; [eapply forallb_impl; [apply upper_plain|exact HU]|].
  apply forallb_app_true; [eapply forallb_impl; [apply digit_plain|exact HD]|].
  apply bp_suffix_plain; exact Ht.
Qed.

Definition dot_slash_target (b : str) : Prop :=
  exists id, b = py "./" ++ id /\ pillar_link id.

Lemma dot_slash_target_plain b :
  dot_slash_target b -> forallb plain_char b = true.
Proof.
  intros (id & -> & H). apply forallb_app_true; [reflexivity|].
  apply pillar_link_plain; exact H.
Qed.

Lemma fix_links_match_sound pos s res :
  match_at FixAllPillarLinks.pattern pos s = Some res ->
  exists b rest,
    dot_slash_target b /\ s = href_open ++ b ++ DQ :: rest
    /\ res = MatchResult pos (href_open ++ b ++ [DQ]) [(1, b)] rest.
Proof.
  intros H. apply match_at_sound in H as (w & c & M & E & ->).
  unfold FixAllPillarLinks.pattern in M. inv_matches.
  all: cbn [m_rest] in *.
  - match goal with
    | HU : forallb is_upper ?U = true, HD : forallb is_digit ?D = true,
      HD2 : forallb is_digit ?D2 = true,
      HE : _ :: _ :: _ :: _ :: _ :: _ :: _ ++ ?U ++ ?D ++ _ ++ ?D2 ++ _ = _
      |- _ =>
        exists (py "./" ++ U ++ D ++ py "-BP" ++ D2), (m_rest res);
        assert (Ht : dot_slash_target (py "./" ++ U ++ D ++ py "-BP" ++ D2));
        [ exists (U ++ D ++ py "-BP" ++ D2); split; [reflexivity|];
          exists U, D, (py "-BP" ++ D2);
          repeat split; auto using nonempty_length;
          right; exists D2; auto using nonempty_length
        | split; [exact Ht|]; split;
          [ rewrite <- !app_assoc; reflexivity
          | f_equal;
            [ apply (app_inv_tail (m_rest res)); rewrite <- HE;
              rewrite <- !app_assoc; reflexivity
            | do 2 f_equal;
              apply firstn_exact with (b := DQ :: m_rest res);
              [ rewrite <- !app_assoc; reflexivity
              | rewrite !length_app; simpl; lia ] ] ] ]
    end.
  - match goal with
    | HU : forallb is_upper ?U = true, HD : forallb is_digit ?D = true,
      HE : _ :: _ :: _ :: _ :: _ :: _ :: _ ++ ?U ++ ?D ++ _ = _
      |- _ =>
        exists (py "./" ++ U ++ D), (m_rest res);
        assert (Ht : dot_slash_target (py "./" ++ U ++ D));
        [ exists (U ++ D); split; [reflexivity|];
          exists U, D, []; rewrite app_nil_r;
          repeat split; auto using nonempty_length;
          left; reflexivity
        | split; [exact Ht|]; split;
          [ rewrite <- !app_assoc; reflexivity
          | f_equal;
            [ apply (app_inv_tail (m_rest res)); rewrite <- HE;
              rewrite <- !app_assoc; reflexivity
            | do 2 f_equal;
              apply firstn_exact with (b := DQ :: m_rest res);
              [ rewrite <- !app_assoc; reflexivity
              | rewrite !length_app; simpl; lia ] ] ] ]
    end.
Qed.

Lemma fix_links_match_complete pos b rest :
  dot_slash_target b ->
  match_at FixAllPillarLinks.pattern pos (href_open ++ b ++ DQ :: rest)
  <> None.
Proof.
  intros (id & -> & U & D & tail & -> & (HU & HU' & HD & HD') & Ht).
  destruct Ht as [-> | (D2 & -> & HD2 & HD2')];
    eapply match_at_complete; unfold FixAllPillarLinks.pattern.
  - eapply M_Cat; [apply M_Lit|].
    eapply M_Cat; [|apply (M_Lit [DQ])].
    apply M_Group. rewrite <- !app_assoc.
    eapply M_Cat; [apply M_Lit|].
    eapply M_Cat; [apply M_Rep; [exact HU'|apply length_nonempty; exact HU]|].
    eapply M_Cat; [apply M_Rep; [exact HD'|apply length_nonempty; exact HD]|].
    apply M_OptNone.
  - eapply M_Cat; [apply M_Lit|].
    eapply M_Cat; [|apply (M_Lit [DQ])].
    apply M_Group. rewrite <- !app_assoc.
    eapply M_Cat; [apply M_Lit|].
    eapply M_Cat; [apply M_Rep; [exact HU'|apply length_nonempty; exact HU]|].
    eapply M_Cat; [apply M_Rep; [exact HD'|apply length_nonempty; exact HD]|].
    apply M_OptSome.
    eapply M_Cat; [apply M_Lit|].
    apply M_Rep; [exact HD2'|apply length_nonempty; exact HD2].
Qed.

Lemma fix_links_match_iff pos s res :
  match_at FixAllPillarLinks.pattern pos s = Some res <->
  exists b rest,
    dot_slash_target b /\ s = href_open ++ b ++ DQ :: rest
    /\ res = MatchResult pos (href_open ++ b ++ [DQ]) [(1, b)] rest.
Proof.
  apply quoted_match_iff.
  - apply dot_slash_target_plain.
  - apply fix_links_match_sound.
  - apply fix_links_match_complete.
Qed.

Lemma fix_links_repl res :
  FixAllPillarLinks.replace_link res
  = href_open ++ (skipn 2 (group 1 (m_groups res)) ++ py ".html") ++ [DQ].
Proof. reflexivity. Qed.

(** ** scripts/fix_relative_links.py *)

Lemma pillar_page_plain P page :
  forallb is_upper P = true -> pillar_page P page ->
  forallb plain_char page = true.
Proof.
  intros HP (D & tail & -> & _ & HD & Ht).
  apply forallb_app_true; [eapply forallb_impl; [apply upper_plain|exact HP]|].
  apply forallb_app_true; [eapply forallb_impl; [apply digit_plain|exact HD]|].
  apply forallb_app_true; [apply bp_suffix_plain; exact Ht|reflexivity].
Qed.

Lemma index_links_match_sound P pos s res :
  match_at (FixRelativeLinks.pattern P) pos s = Some res ->
  exists b rest,
    pillar_page P b /\ s = href_open ++ b ++ DQ :: rest
    /\ res = MatchResult pos (href_open ++ b ++ [DQ]) [(1, b)] rest.
Proof.
  intros H. apply match_at_sound in H as (w & c & M & E & ->).
  unfold FixRelativeLinks.pattern in M. inv_matches.
  all: cbn [m_rest] in *.
  - match goal with
    | HD : forallb is_digit ?D = true, HD2 : forallb is_digit ?D2 = true,
      HE : _ :: _ :: _ :: _ :: _ :: _ :: _ ++ ?D ++ _ ++ ?D2 ++ _ = _
      |- _ =>
        exists (P ++ D ++ (py "-BP" ++ D2) ++ py ".html"), (m_rest res);
        assert (Ht : pillar_page P (P ++ D ++ (py "-BP" ++ D2) ++ py ".html"));
        [ exists D, (py "-BP" ++ D2);
          repeat split; auto using nonempty_length;
          right; exists D2; auto using nonempty_length
        | split; [exact Ht|]; split;
          [ rewrite <- !app_assoc; reflexivity
          | f_equal;
            [ apply (app_inv_tail (m_rest res)); rewrite <- HE;
              rewrite <- !app_assoc; reflexivity
            | do 2 f_equal;
              apply firstn_exact with (b := DQ :: m_rest res);
              [ rewrite <- !app_assoc; reflexivity
              | rewrite !length_app; simpl; lia ] ] ] ]
    end.
  - match goal with
    | HD : forallb is_digit ?D = true,
      HE : _ :: _ :: _ :: _ :: _ :: _ :: _ ++ ?D ++ _ = _
      |- _ =>
        exists (P ++ D ++ [] ++ py ".html"), (m_rest res);
        assert (Ht : pillar_page P (P ++ D ++ [] ++ py ".html"));
        [ exists D, [];
          repeat split; auto using nonempty_length;
          left; reflexivity
        | split; [exact Ht|]; split;
          [ rewrite <- !app_assoc; reflexivity
          | f_equal;
            [ apply (app_inv_tail (m_rest res)); rewrite <- HE;
              rewrite <- !app_assoc; reflexivity
            | do 2 f_equal;
              apply firstn_exact with (b := DQ :: m_rest res);
              [ rewrite <- !app_assoc; reflexivity
              | rewrite !length_app; simpl; lia ] ] ] ]
    end.
Qed.

Lemma index_links_match_complete P pos b rest :
  pillar_page P b ->
  match_at (FixRelativeLinks.pattern P) pos (href_open ++ b ++ DQ :: rest)
  <> None.
Proof.
  intros (D & tail & -> & HD & HD' & Ht).
  destruct Ht as [-> | (D2 & -> & HD2 & HD2')];
    eapply match_at_complete; unfold FixRelativeLinks.pattern.
  - eapply M_Cat; [apply M_Lit|].
    eapply M_Cat; [|apply (M_Lit [DQ])].
    apply M_Group. rewrite app_nil_l. rewrite <- !app_assoc.
    eapply M_Cat; [apply M_Lit|].
    eapply M_Cat; [apply M_Rep; [exact HD'|apply length_nonempty; exact HD]|].
    eapply M_Cat; [apply M_OptNone|].
    apply M_Lit.
  - eapply M_Cat; [apply M_Lit|].
    eapply M_Cat; [|apply (M_Lit [DQ])].
    apply M_Group. rewrite <- !app_assoc.
    eapply M_Cat; [apply M_Lit|].
    eapply M_Cat; [apply M_Rep; [exact HD'|apply length_nonempty; exact HD]|].
    eapply M_Cat.
    + apply M_OptSome.
      eapply M_Cat; [apply M_Lit|].
      apply M_Rep; [exact HD2'|apply length_nonempty; exact HD2].
    + apply M_Lit.
Qed.

Lemma index_links_match_iff P :
  forallb is_upper P = true ->
  forall pos s res,
    match_at (FixRelativeLinks.pattern P) pos s = Some res <->
    exists b rest,
      pillar_page P b /\ s = href_open ++ b ++ DQ :: rest
      /\ res = MatchResult pos (href_open ++ b ++ [DQ]) [(1, b)] rest.
Proof.
  intros HP. apply quoted_match_iff.
  - intros b. apply pillar_page_plain; exact HP.
  - apply index_links_match_sound.
  - apply index_links_match_complete.
Qed.

Lemma index_links_repl res :
  FixRelativeLinks.replace_link res
  = href_open ++ (py "./" ++ group 1 (m_groups res)) ++ [DQ].
Proof. reflexivity. Qed.

(** C5: the substitution of [fix_pillar_links] turns every occurrence of
    href="./<ID>" (<ID> being a page name such as SEC01 or SEC01-BP02)
    into href="<ID>.html", and that of [fix_pillar_index_links] turns
    every occurrence of href="<page>" (<page> being the pillar prefix,
    digits, an optional -BP part and .html) into href="./<page>"; text
    without such a link is returned unchanged, so that everything around
    the links stays as it is. *)
Theorem C5_link_substitutions :
  (forall pre id post,
      pillar_link id ->
      FixAllPillarLinks.updated_content
        (pre ++ py "href=\q./" ++ id ++ py "\q" ++ post)
      = FixAllPillarLinks.updated_content pre
          ++ py "href=\q" ++ id ++ py ".html\q"
          ++ FixAllPillarLinks.updated_content post)
  /\ (forall s,
         (forall pre id post,
             pillar_link id ->
             s <> pre ++ py "href=\q./" ++ id ++ py "\q" ++ post) ->
         FixAllPillarLinks.updated_content s = s)
  /\ (forall P pre page post,
         forallb is_upper P = true -> pillar_page P page ->
         FixRelativeLinks.updated_content P
           (pre ++ py "href=\q" ++ page ++ py "\q" ++ post)
         = FixRelativeLinks.updated_content P pre
             ++ py "href=\q./" ++ page ++ py "\q"
             ++ FixRelativeLinks.updated_content P post)
  /\ (forall P s,
         forallb is_upper P = true ->
         (forall pre page post,
             pillar_page P page ->
             s <> pre ++ py "href=\q" ++ page ++ py "\q" ++ post) ->
         FixRelativeLinks.updated_content P s = s).
Proof.
  split; [|split; [|split]].
  - intros pre id post Hid.
    unfold FixAllPillarLinks.updated_content.
    pose proof (re_sub_occurrence FixAllPillarLinks.pattern dot_slash_target
                  (fun b => skipn 2 b ++ py ".html")
                  FixAllPillarLinks.replace_link
                  fix_links_match_iff dot_slash_target_plain fix_links_repl
                  pre (py "./" ++ id) post) as H.
    assert (Ht : dot_slash_target (py "./" ++ id))
      by (exists id; split; [reflexivity|exact Hid]).
    specialize (H Ht). unfold href_open in H.
    change (skipn 2 (py "./" ++ id)) with id in H.
    rewrite <- ?app_assoc in H. rewrite <- ?app_assoc. exact H.
  - intros s Hs. unfold FixAllPillarLinks.updated_content.
    apply (re_sub_no_occurrence FixAllPillarLinks.pattern dot_slash_target
             (fun b => skipn 2 b ++ py ".html")
             FixAllPillarLinks.replace_link
             fix_links_match_iff fix_links_repl).
    intros pre b post (id & -> & Hid) E.
    apply (Hs pre id post Hid). rewrite E. unfold href_open.
    rewrite <- ?app_assoc. reflexivity.
  - intros P pre page post HP Hpage.
    unfold FixRelativeLinks.updated_content.
    pose proof (re_sub_occurrence (FixRelativeLinks.pattern P) (pillar_page P)
                  (fun b => py "./" ++ b)
                  FixRelativeLinks.replace_link
                  (index_links_match_iff P HP)
                  (fun b => pillar_page_plain P b HP) index_links_repl
                  pre page post Hpage) as H.
    unfold href_open in H.
    rewrite <- ?app_assoc in H. rewrite <- ?app_assoc. exact H.
  - intros P s HP Hs. unfold FixRelativeLinks.updated_content.
    apply (re_sub_no_occurrence (FixRelativeLinks.pattern P) (pillar_page P)
             (fun b => py "./" ++ b)
             FixRelativeLinks.replace_link
             (index_links_match_iff P HP) index_links_repl).
    intros pre b post Hb E.
    apply (Hs pre b post Hb). rewrite E. unfold href_open. reflexivity.
Qed.

Lemma no_pillar_link_decide s :
  re_search FixAllPillarLinks.pattern s = None ->
  forall pre id post,
    pillar_link id -> s <> pre ++ py "href=\q./" ++ id ++ py "\q" ++ post.
Proof.
  intros E pre id post Hid ->.
  apply (search_from_complete FixAllPillarLinks.pattern 0 pre) in E; auto.
  assert (Ht : dot_slash_target (py "./" ++ id))
    by (exists id; split; [reflexivity|exact Hid]).
  pose proof (fix_links_match_complete (0 + length pre) _ post Ht) as H.
  unfold href_open in H. rewrite <- ?app_assoc in H. exact H.
Qed.

Lemma no_pillar_page_decide P s :
  re_search (FixRelativeLinks.pattern P) s = None ->
  forall pre page post,
    pillar_page P page -> s <> pre ++ py "href=\q" ++ page ++ py "\q" ++ post.
Proof.
  intros E pre page post Hp ->.
  apply (search_from_complete (FixRelativeLinks.pattern P) 0 pre) in E; auto.
  exact (index_links_match_complete P (0 + length pre) _ post Hp).
Qed.

Lemma C5_link_witness :
  (pillar_link (py "SEC01")
   /\ FixAllPillarLinks.updated_content
        (py "<a href=\q./SEC01\q>One</a> <a href=\q./REL02-BP03\q>Two</a>")
      = py "<a href=\qSEC01.html\q>One</a> <a href=\qREL02-BP03.html\q>Two</a>")
  /\ FixAllPillarLinks.updated_content (py "<a href=\q./sec01\q>no link</a>")
     = py "<a href=\q./sec01\q>no link</a>"
  /\ (pillar_page (py "SEC") (py "SEC01-BP01.html")
      /\ FixRelativeLinks.updated_content (py "SEC")
           (py "<li><a href=\qSEC01-BP01.html\q>BP01</a></li>")
         = py "<li><a href=\q./SEC01-BP01.html\q>BP01</a></li>")
  /\ FixRelativeLinks.updated_content (py "SEC")
       (py "<a href=\qREL01.html\q>other pillar</a>")
     = py "<a href=\qREL01.html\q>other pillar</a>".
Proof.
  destruct C5_link_substitutions as (H1 & H2 & H3 & H4).
  assert (L : pillar_link (py "SEC01")).
  { exists (py "SEC"), (py "01"), []. repeat split; try discriminate.
    left; reflexivity. }
  assert (Pg : pillar_page (py "SEC") (py "SEC01-BP01.html")).
  { exists (py "01"), (py "-BP01"). repeat split; try discriminate.
    right. exists (py "01"). repeat split; discriminate. }
  split; [split; [exact L|]|split; [|split; [split; [exact Pg|]|]]].
  - replace (py "<a href=\q./SEC01\q>One</a> <a href=\q./REL02-BP03\q>Two</a>")
      with (py "<a " ++ py "href=\q./" ++ py "SEC01" ++ py "\q"
               ++ py ">One</a> <a href=\q./REL02-BP03\q>Two</a>")
      by (vm_compute; reflexivity).
    rewrite (H1 _ _ _ L). vm_compute. reflexivity.
  - apply H2. apply no_pillar_link_decide. vm_compute. reflexivity.
  - replace (py "<li><a href=\qSEC01-BP01.html\q>BP01</a></li>")
      with (py "<li><a " ++ py "href=\q" ++ py "SEC01-BP01.html" ++ py "\q"
               ++ py ">BP01</a></li>")
      by (vm_compute; reflexivity).
    rewrite (H3 (py "SEC") _ _ _ eq_refl Pg). vm_compute. reflexivity.
  - apply H4; [reflexivity|]. apply no_pillar_page_decide.
    vm_compute. reflexivity.
Defined.

(** ** Running [fix_pillar_links] twice *)

Definition not_h (c : ascii) : bool := negb (Ascii.eqb c "h").

Lemma upper_not_h c : is_upper c = true -> not_h c = true.
Proof.
  intros H. unfold not_h.
  destruct (Ascii.eqb_spec c "h") as [->|_]; [vm_compute in H; discriminate|].
  reflexivity.
Qed.

Lemma digit_not_h c : is_digit c = true -> not_h c = true.
Proof.
  intros H. unfold not_h.
  destruct (Ascii.eqb_spec c "h") as [->|_]; [vm_compute in H; discriminate|].
  reflexivity.
Qed.

Lemma pillar_link_not_h id : pillar_link id -> forallb not_h id = true.
Proof.
  intros (U & D & tail & -> & (_ & HU & _ & HD) & Ht).
  apply forallb_app_true; [eapply forallb_impl; [apply upper_not_h|exact HU]|].
  apply forallb_app_true; [eapply forallb_impl; [apply digit_not_h|exact HD]|].
  destruct Ht as [-> | (D2 & -> & _ & H)]; [reflexivity|].
  apply forallb_app_true; [reflexivity|].
  eapply forallb_impl; [apply digit_not_h|exact H].
Qed.

Lemma pillar_link_head id :
  pillar_link id -> exists u id', id = u :: id' /\ is_upper u = true.
Proof.
  intros (U & D & tail & -> & (HU & HU' & _) & _).
  destruct U as [|u U]; [congruence|].
  simpl in HU'. apply andb_true_iff in HU' as [Hu _].
  exists u, (U ++ D ++ tail). auto.
Qed.

Section FixTwice.

Let fixl := FixAllPillarLinks.updated_content.
Let link_here := link_at dot_slash_target.

Lemma fixl_nil : fixl [] = [].
Proof.
  apply (re_sub_nil FixAllPillarLinks.pattern dot_slash_target
           FixAllPillarLinks.replace_link fix_links_match_iff).
Qed.

Lemma fixl_hit id rest :
  pillar_link id ->
  fixl (py "href=\q./" ++ id ++ DQ :: rest)
  = py "href=\q" ++ id ++ py ".html\q" ++ fixl rest.
Proof.
  intros Hid.
  assert (Ht : dot_slash_target (py "./" ++ id))
    by (exists id; split; [reflexivity|exact Hid]).
  pose proof (re_sub_hit FixAllPillarLinks.pattern dot_slash_target
                (fun b => skipn 2 b ++ py ".html")
                FixAllPillarLinks.replace_link
                fix_links_match_iff fix_links_repl _ rest Ht) as H.
  change (skipn 2 (py "./" ++ id)) with id in H.
  unfold href_open in H. rewrite <- ?app_assoc in H.
  unfold fixl, FixAllPillarLinks.updated_content.
  rewrite <- ?app_assoc. exact H.
Qed.

Lemma fixl_miss c s : ~ link_here (c :: s) -> fixl (c :: s) = c :: fixl s.
Proof.
  apply (re_sub_miss FixAllPillarLinks.pattern dot_slash_target
           (fun b => skipn 2 b ++ py ".html")
           FixAllPillarLinks.replace_link fix_links_match_iff fix_links_repl).
Qed.

Lemma link_here_dec s : link_here s \/ ~ link_here s.
Proof.
  apply (link_at_dec FixAllPillarLinks.pattern dot_slash_target
                     fix_links_match_iff).
Qed.

Lemma link_here_shape s :
  link_here s ->
  exists id rest, pillar_link id /\ s = py "href=\q./" ++ id ++ DQ :: rest.
Proof.
  intros (b & rest & (id & -> & Hid) & ->). exists id, rest.
  split; [exact Hid|]. unfold href_open. rewrite <- ?app_assoc. reflexivity.
Qed.

Lemma link_here_intro id rest :
  pillar_link id -> link_here (py "href=\q./" ++ id ++ DQ :: rest).
Proof.
  intros Hid. exists (py "./" ++ id), rest. split.
  - exists id; auto.
  - unfold href_open. rewrite <- ?app_assoc. reflexivity.
Qed.

Lemma fixl_cons_other c s : not_h c = true -> fixl (c :: s) = c :: fixl s.
Proof.
  intros Hc. apply fixl_miss. intros H.
  apply link_here_shape in H as (id & rest & _ & E).
  inversion E; subst. discriminate.
Qed.

Lemma fixl_app_other w t :
  forallb not_h w = true -> fixl (w ++ t) = w ++ fixl t.
Proof.
  induction w as [|c w IH]; simpl; intros H; [reflexivity|].
  apply andb_true_iff in H as [Hc Hw].
  rewrite fixl_cons_other by exact Hc. rewrite IH by exact Hw. reflexivity.
Qed.

(** What the substitution leaves in front of its output stood in front
    of its input, as long as no 'h' is met: a rewritten link begins with
    one. *)
Lemma fixl_prefix_inv w :
  forall s r,
    forallb not_h w = true -> fixl s = w ++ r ->
    exists s2, s = w ++ s2 /\ fixl s2 = r.
Proof.
  induction w as [|c w IH]; intros s r Hw E.
  - exists s. auto.
  - simpl in Hw. apply andb_true_iff in Hw as [Hc Hw].
    destruct s as [|c' s'].
    + rewrite fixl_nil in E. discriminate.
    + destruct (link_here_dec (c' :: s')) as [Hl | Hl].
      * apply link_here_shape in Hl as (id & rest & Hid & El).
        rewrite El, fixl_hit in E by exact Hid.
        inversion E; subst. discriminate.
      * rewrite fixl_miss in E by exact Hl. inversion E; subst.
        destruct (IH _ _ Hw H1) as (s2 & -> & Hs2).
        exists s2. auto.
Qed.

(** A rewritten link is copied by a second run. *)
Lemma fixl_rewritten id t :
  pillar_link id ->
  fixl (py "href=\q" ++ id ++ py ".html\q" ++ t)
  = py "href=\q" ++ id ++ py ".html\q" ++ fixl t.
Proof.
  intros Hid.
  destruct (pillar_link_head _ Hid) as (u & id' & -> & Hu).
  pose proof (pillar_link_not_h _ Hid) as Hnh.
  change (fixl ("h"%char :: py "ref=\q" ++ (u :: id') ++ py ".html\q" ++ t)
          = "h"%char :: py "ref=\q" ++ (u :: id') ++ py ".html\q" ++ fixl t).
  rewrite fixl_miss.
  2:{ intros H. apply link_here_shape in H as (id0 & rest & _ & E).
      inversion E; subst. vm_compute in Hu. discriminate. }
  f_equal.
  rewrite (fixl_app_other (py "ref=\q")) by reflexivity. f_equal.
  rewrite (fixl_app_other (u :: id')) by exact Hnh. f_equal.
  change (fixl ("."%char :: "h"%char :: py "tml\q" ++ t)
          = "."%char :: "h"%char :: py "tml\q" ++ fixl t).
  rewrite fixl_cons_other by reflexivity. f_equal.
  rewrite fixl_miss.
  2:{ intros H. apply link_here_shape in H as (id0 & rest & _ & E).
      inversion E. }
  f_equal.
  rewrite (fixl_app_other (py "tml\q")) by reflexivity. reflexivity.
Qed.

Lemma fixl_twice s : fixl (fixl s) = fixl s.
Proof.
  remember (length s) as n eqn:Hn. revert s Hn.
  induction n as [n IH] using lt_wf_ind. intros s Hn.
  destruct s as [|c s'].
  - rewrite fixl_nil. apply fixl_nil.
  - destruct (link_here_dec (c :: s')) as [Hl | Hl].
    + apply link_here_shape in Hl as (id & rest & Hid & El).
      rewrite El, fixl_hit by exact Hid.
      rewrite fixl_rewritten by exact Hid.
      rewrite (IH (length rest)) with (s := rest); auto.
      subst n. rewrite El, !length_app. simpl. lia.
    + rewrite fixl_miss by exact Hl.
      rewrite fixl_miss.
      * rewrite (IH (length s')) with (s := s'); auto. subst n; simpl; lia.
      * intros H. apply Hl.
        apply link_here_shape in H as (id & rest & Hid & E).
        inversion E as [[Ec Es]].
        assert (Hw : forallb not_h (py "ref=\q./" ++ id ++ [DQ]) = true).
        { apply forallb_app_true; [reflexivity|].
          apply forallb_app_true; [apply pillar_link_not_h; exact Hid|].
          reflexivity. }
        destruct (fixl_prefix_inv _ s' rest Hw) as (s2 & -> & _).
        { rewrite Es. rewrite <- ?app_assoc. reflexivity. }
        pose proof (link_here_intro id s2 Hid) as Hi.
        rewrite <- ?app_assoc. exact Hi.
Qed.

End FixTwice.

(** C10: the link substitution of [fix_pillar_links] is idempotent: run
    on its own output it changes nothing, a rewritten link
    href="<ID>.html" no longer being of the form href="./<ID>". *)
Theorem C10_fix_pillar_links_idempotent :
  forall content,
    FixAllPillarLinks.updated_content
      (FixAllPillarLinks.updated_content content)
    = FixAllPillarLinks.updated_content content.
Proof. exact fixl_twice. Qed.

(** On a second run nothing is written: the function reports no
    change. *)
Corollary fix_pillar_links_second_run content :
  FixAllPillarLinks.fix_pillar_links
    (FixAllPillarLinks.updated_content content) = (None, false).
Proof.
  unfold FixAllPillarLinks.fix_pillar_links.
  rewrite fixl_twice, str_eqb_refl. reflexivity.
Qed.

(** ** The sections the styling script rewrites *)

Lemma search_from_first r pos a b res :
  match_at r (pos + length a) b = Some res ->
  (forall a' b', a ++ b = a' ++ b' -> length a' < length a ->
                 match_at r (pos + length a') b' = None) ->
  search_from r pos (a ++ b) = Some res.
Proof.
  revert pos; induction a as [|x a IH]; intros pos Hm Hmin; simpl in *.
  - rewrite Nat.add_0_r in Hm. destruct b; simpl; rewrite Hm; reflexivity.
  - assert (H0 : match_at r pos (x :: a ++ b) = None).
    { specialize (Hmin [] (x :: a ++ b) eq_refl). simpl in Hmin.
      rewrite Nat.add_0_r in Hmin. apply Hmin. lia. }
    rewrite H0. apply IH.
    + replace (S pos + length a) with (pos + S (length a)) by lia. exact Hm.
    + intros a' b' E Hl.
      replace (S pos + length a') with (pos + length (x :: a'))
        by (simpl; lia).
      apply Hmin; [simpl; rewrite E; reflexivity|simpl; lia].
Qed.

Lemma rep_lazy_ext {R : Type} cls min pos s (k k' : nat -> str -> option R) :
  (forall p t, k p t = k' p t) ->
  rep_lazy cls min pos s k = rep_lazy cls min pos s k'.
Proof.
  intros H. revert min pos; induction s as [|c s IH]; intros min pos.
  - destruct min; simpl; [rewrite H|]; reflexivity.
  - destruct min; simpl.
    + rewrite H. destruct (k' pos (c :: s)); [reflexivity|].
      destruct (cls c); [apply IH|reflexivity].
    + destruct (cls c); [apply IH|reflexivity].
Qed.

(** What follows a section body: the end, or a line feed and '##'. *)
Definition body_end (t : str) : bool :=
  match t with
  | [] => true
  | _ :: _ => startswith (py "\n##") t
  end.

Lemma section_match_at_unfold heading pos s :
  match_at (section_re heading) pos s =
  if startswith heading s then
    rep_lazy any_char 0 (pos + length heading) (skipn (length heading) s)
      (fun p t =>
         if body_end t
         then Some (MatchResult pos (firstn (p - pos) s)
                      [(1, firstn (p - (pos + length heading))
                                  (skipn (length heading) s))] t)
         else None)
  else None.
Proof.
  unfold match_at, section_re. cbn [rmatch].
  destruct (startswith heading s); [|reflexivity].
  apply rep_lazy_ext. intros p t.
  destruct t as [|c t]; [reflexivity|].
  unfold body_end. destruct (startswith (py "\n##") (c :: t)); reflexivity.
Qed.

Lemma body_end_iff post :
  body_end post = true <-> post = [] \/ exists post', post = py "\n##" ++ post'.
Proof.
  unfold body_end. destruct post as [|c post].
  - split; auto.
  - rewrite startswith_iff. split.
    + intros [x E]. right. exists x. exact E.
    + intros [E | [x E]]; [discriminate|]. exists x. exact E.
Qed.

Lemma section_match_at_sound heading pos s res :
  match_at (section_re heading) pos s = Some res ->
  exists body post,
    s = heading ++ body ++ post
    /\ res = MatchResult pos (heading ++ body) [(1, body)] post
    /\ body_end post = true
    /\ forall b1 p1, body ++ post = b1 ++ p1 -> length b1 < length body ->
                     body_end p1 = false.
Proof.
  rewrite section_match_at_unfold.
  destruct (startswith heading s) eqn:E; [|discriminate].
  apply startswith_split in E as [s1 ->]. rewrite skipn_length_app.
  intros H. apply rep_lazy_sound in H as (w & t & -> & _ & _ & H & Hmin).
  cbv beta in H. destruct (body_end t) eqn:Eb; [|discriminate].
  inversion H; subst res; clear H.
  exists w, t. split; [reflexivity|]. split; [|split; [exact Eb|]].
  - f_equal.
    + apply firstn_exact with (b := t); [rewrite <- app_assoc; reflexivity|].
      rewrite length_app. lia.
    + do 2 f_equal. apply firstn_exact with (b := t); [reflexivity|lia].
  - intros b1 p1 E Hl. specialize (Hmin b1 p1 E (Nat.le_0_l _) Hl).
    cbv beta in Hmin. destruct (body_end p1); [discriminate|reflexivity].
Qed.

Lemma section_match_at_exact heading pos body post :
  body_end post = true ->
  (forall b1 p1, body ++ post = b1 ++ p1 -> length b1 < length body ->
                 body_end p1 = false) ->
  match_at (section_re heading) pos (heading ++ body ++ post)
  = Some (MatchResult pos (heading ++ body) [(1, body)] post).
Proof.
  intros Hend Hmin. rewrite section_match_at_unfold.
  rewrite startswith_app, skipn_length_app.
  rewrite (rep_lazy_first any_char 0 (pos + length heading) body post _
             (MatchResult pos (heading ++ body) [(1, body)] post)).
  - reflexivity.
  - apply forallb_any_char.
  - lia.
  - cbv beta. rewrite Hend. f_equal. f_equal.
    + apply firstn_exact with (b := post); [rewrite <- app_assoc; reflexivity|].
      rewrite length_app. lia.
    + do 2 f_equal. apply firstn_exact with (b := post); [reflexivity|lia].
  - intros w' t' E _ Hl. cbv beta. rewrite (Hmin w' t' E Hl). reflexivity.
Qed.

Lemma section_match_at_heading heading pos rest :
  match_at (section_re heading) pos (heading ++ rest) <> None.
Proof.
  rewrite section_match_at_unfold, startswith_app, skipn_length_app.
  rewrite <- (app_nil_r rest) at 1.
  apply rep_lazy_complete; [apply forallb_any_char|lia|].
  cbv beta. simpl body_end. cbv iota. discriminate.
Qed.

(** [re.search] for a section is the section in the declarative
    sense. *)
Lemma section_search_iff heading t res :
  re_search (section_re heading) t = Some res <->
  exists pre body post,
    section_of heading t pre body post
    /\ res = MatchResult (length pre) (heading ++ body) [(1, body)] post.
Proof.
  unfold re_search. split.
  - intros H. apply search_from_sound in H as (a & b & -> & Hm & Hfirst).
    apply section_match_at_sound in Hm as (body & post & -> & -> & He & Hmin).
    exists a, body, post. split; [|reflexivity].
    split; [reflexivity|]. split; [|split].
    + intros pre' rest' E.
      destruct (Nat.le_gt_cases (length a) (length pre')) as [|Hlt]; auto.
      exfalso. apply (section_match_at_heading heading (0 + length pre') rest').
      apply Hfirst; [exact E|exact Hlt].
    + apply body_end_iff; exact He.
    + intros b1 x E.
      destruct (Nat.le_gt_cases (length body) (length b1)) as [|Hlt]; auto.
      exfalso. specialize (Hmin b1 (py "\n##" ++ x) E Hlt).
      simpl in Hmin. discriminate.
  - intros (pre & body & post & (-> & Hfirst & Hend & Hmin) & ->).
    apply search_from_first.
    + apply section_match_at_exact; [apply body_end_iff; exact Hend|].
      intros b1 p1 E Hl. destruct (body_end p1) eqn:Eb; [|reflexivity].
      exfalso. apply body_end_iff in Eb as [-> | [x ->]].
      * apply (f_equal (@length _)) in E. rewrite !length_app in E.
        simpl in E. lia.
      * specialize (Hmin b1 x E). lia.
    + intros a' b' E Hl.
      destruct (match_at (section_re heading) (0 + length a') b') as [r0|] eqn:Em;
        [|reflexivity].
      exfalso. apply section_match_at_sound in Em as (bd & ps & -> & _).
      specialize (Hfirst a' (bd ++ ps) E). lia.
Qed.

(** ** [str.replace] *)

Lemma replace_go_skip old new w t :
  replace_go old new (length w) (w ++ t) = replace_go old new 0 t.
Proof. induction w as [|c w IH]; simpl; auto. Qed.

Lemma replace_go_cons old new c s :
  replace_go old new 0 (c :: s)
  = if startswith old (c :: s)
    then new ++ replace_go old new (length old - 1) s
    else c :: replace_go old new 0 s.
Proof. reflexivity. Qed.

Lemma replace_nonempty s old new :
  old <> [] -> replace s old new = replace_go old new 0 s.
Proof. destruct old; [congruence|reflexivity]. Qed.

(** The first occurrence is replaced, the text before it is kept and the
    text behind it is treated in the same way. *)
Lemma replace_first pre old new post :
  old <> [] ->
  (forall a' b', pre ++ old ++ post = a' ++ old ++ b' ->
                 length pre <= length a') ->
  replace (pre ++ old ++ post) old new = pre ++ new ++ replace post old new.
Proof.
  intros Hold. rewrite !replace_nonempty by exact Hold.
  induction pre as [|c pre IH]; intros Hfirst.
  - rewrite !app_nil_l.
    destruct old as [|o old'] eqn:Eo; [congruence|]. rewrite <- Eo.
    assert (Es : old ++ post = o :: (old' ++ post)) by (rewrite Eo; reflexivity).
    rewrite Es, replace_go_cons, <- Es, startswith_app.
    f_equal. replace (length old - 1) with (length old')
      by (rewrite Eo; simpl; lia).
    apply replace_go_skip.
  - rewrite <- app_comm_cons, replace_go_cons.
    destruct (startswith old (c :: pre ++ old ++ post)) eqn:E.
    + exfalso. apply startswith_split in E as [x E].
      specialize (Hfirst [] x). rewrite <- app_comm_cons in Hfirst.
      specialize (Hfirst E). simpl in Hfirst. lia.
    + rewrite <- app_comm_cons. f_equal. apply IH. intros a' b' E'.
      specialize (Hfirst (c :: a') b'). rewrite <- !app_comm_cons in Hfirst.
      rewrite E' in Hfirst. specialize (Hfirst eq_refl). simpl in Hfirst. lia.
Qed.

(** Without an occurrence the text is returned. *)
Lemma replace_none s old new :
  old <> [] ->
  (forall a b, s <> a ++ old ++ b) -> replace s old new = s.
Proof.
  intros Hold. rewrite replace_nonempty by exact Hold.
  induction s as [|c s IH]; intros H; [reflexivity|].
  rewrite replace_go_cons.
  destruct (startswith old (c :: s)) eqn:E.
  - exfalso. apply startswith_split in E as [x E]. apply (H [] x). exact E.
  - f_equal. apply IH. intros a b E'. apply (H (c :: a) b).
    rewrite E'. reflexivity.
Qed.

(** One rewriting step of the styling script, for the section under
    [heading] and the styled text [styled] computed from its body. *)
Lemma style_step heading (styled : str -> str) t pre body post :
  heading <> [] ->
  section_of heading t pre body post ->
  match re_search (section_re heading) t with
  | Some m => replace t (m_text m) (styled (group 1 (m_groups m)))
  | None => t
  end
  = pre ++ styled body
        ++ replace post (heading ++ body) (styled body).
Proof.
  intros Hh Hs.
  assert (E : re_search (section_re heading) t
              = Some (MatchResult (length pre) (heading ++ body)
                                  [(1, body)] post)).
  { apply section_search_iff. exists pre, body, post. auto. }
  rewrite E. cbn [m_text m_groups group Nat.eqb].
  destruct Hs as (-> & Hfirst & _).
  rewrite (app_assoc heading body post).
  apply replace_first.
  - destruct heading; [congruence|discriminate].
  - intros a' b' E'. apply (Hfirst a' (body ++ b')).
    rewrite <- !app_assoc in E'. exact E'.
Qed.

Lemma style_step_absent heading (styled : str -> str) t :
  (forall pre rest, t <> pre ++ heading ++ rest) ->
  match re_search (section_re heading) t with
  | Some m => replace t (m_text m) (styled (group 1 (m_groups m)))
  | None => t
  end = t.
Proof.
  intros H. destruct (re_search (section_re heading) t) as [m|] eqn:E;
    [|reflexivity].
  exfalso. apply section_search_iff in E as (pre & body & post & (Et & _) & _).
  apply (H pre (body ++ post)). exact Et.
Qed.

Lemma resources_placeholder :
  (resources_open
     ++ py "    <li>Add related resources for this question.</li>\n")
    ++ py "  </ul>\n</div>"
  = py "<div class=\qrelated-resources\q>\n  <h2>Related Resources</h2>\n  <ul>\n    <li>Add related resources for this question.</li>\n  </ul>\n</div>".
Proof. vm_compute. reflexivity. Qed.

(** X1: when the body of a known section matches
    none of the section's item patterns, the Best Practices and the
    Implementation Guidance steps put the body, stripped of surrounding
    white space, into exactly one generic item behind the heading; the
    AWS Services and the Related Resources steps emit one fixed
    placeholder item, in which the body does not appear.  The text before
    the section is kept; behind it, further copies of the same section
    text are replaced in the same way. *)
Theorem fallback_items :
  forall t pre body post,
    (section_of best_practices_heading t pre body post ->
     findall2 practice_re body = [] ->
     style_best_practices t
     = pre ++ (best_practices_heading
                 ++ best_practice_div (py "Best Practice") (strip body))
           ++ replace post (best_practices_heading ++ body)
                (best_practices_heading
                   ++ best_practice_div (py "Best Practice") (strip body)))
    /\ (section_of impl_heading t pre body post ->
        findall2 bold_step_re body = [] ->
        findall1 numbered_step_re body = [] ->
        style_impl t
        = pre ++ (impl_heading
                    ++ implementation_step_div (py "Implementation Guidance")
                         (strip body))
              ++ replace post (impl_heading ++ body)
                   (impl_heading
                      ++ implementation_step_div
                           (py "Implementation Guidance") (strip body)))
    /\ (section_of services_heading t pre body post ->
        findall2 bold_service_re body = [] ->
        findall1 list_item_re body = [] ->
        style_services t
        = pre ++ (services_heading
                    ++ aws_service_div (py "AWS Services")
                         (py "Add relevant AWS services for this question."))
              ++ replace post (services_heading ++ body)
                   (services_heading
                      ++ aws_service_div (py "AWS Services")
                           (py "Add relevant AWS services for this question.")))
    /\ (section_of resources_heading t pre body post ->
        findall2 link_item_re body = [] ->
        findall1 list_item_re body = [] ->
        style_resources t
        = pre ++ py "<div class=\qrelated-resources\q>\n  <h2>Related Resources</h2>\n  <ul>\n    <li>Add related resources for this question.</li>\n  </ul>\n</div>"
              ++ replace post (resources_heading ++ body)
                   (py "<div class=\qrelated-resources\q>\n  <h2>Related Resources</h2>\n  <ul>\n    <li>Add related resources for this question.</li>\n  </ul>\n</div>")).
Proof.
  intros t pre body post. split; [|split; [|split]].
  - intros Hs Hf. unfold style_best_practices.
    rewrite (style_step best_practices_heading styled_best_practices
               t pre body post) by (discriminate || exact Hs).
    unfold styled_best_practices. rewrite Hf. reflexivity.
  - intros Hs Hf1 Hf2. unfold style_impl.
    rewrite (style_step impl_heading styled_impl t pre body post)
      by (discriminate || exact Hs).
    unfold styled_impl. rewrite Hf1, Hf2. reflexivity.
  - intros Hs Hf1 Hf2. unfold style_services.
    rewrite (style_step services_heading styled_services t pre body post)
      by (discriminate || exact Hs).
    unfold styled_services. rewrite Hf1, Hf2. reflexivity.
  - intros Hs Hf1 Hf2. unfold style_resources.
    rewrite (style_step resources_heading styled_resources t pre body post)
      by (discriminate || exact Hs).
    unfold styled_resources. rewrite Hf1, Hf2.
    rewrite resources_placeholder. reflexivity.
Qed.

Lemma section_of_decide heading t res :
  re_search (section_re heading) t = Some res ->
  section_of heading t (firstn (m_start res) t) (group 1 (m_groups res))
             (m_rest res).
Proof.
  intros E. apply section_search_iff in E as (pre & body & post & Hs & ->).
  cbn [m_start m_groups m_rest group Nat.eqb].
  pose proof Hs as (Et & _).
  replace (firstn (length pre) t) with pre; [exact Hs|].
  rewrite Et. symmetry. apply firstn_length_app.
Qed.

Lemma section_of_decide_at heading t res pre body post :
  re_search (section_re heading) t = Some res ->
  firstn (m_start res) t = pre ->
  group 1 (m_groups res) = body ->
  m_rest res = post ->
  section_of heading t pre body post.
Proof. intros E <- <- <-. apply section_of_decide; exact E. Qed.

Lemma fallback_items_witness :
  (section_of best_practices_heading
              (py "\n## Best Practices\n\nKeep notes short.\n")
              (py "\n") (py "Keep notes short.\n") []
   /\ findall2 practice_re (py "Keep notes short.\n") = []
   /\ style_best_practices (py "\n## Best Practices\n\nKeep notes short.\n")
      = py "\n## Best Practices\n\n<div class=\qbest-practice\q>\n  <h4>Best Practice</h4>\n  <p>Keep notes short.</p>\n</div>\n\n")
  /\ (section_of services_heading
                 (py "\n## AWS Services to Consider\n\nUse whatever fits the workload.\n\n## Notes\n")
                 (py "\n") (py "Use whatever fits the workload.\n")
                 (py "\n## Notes\n")
      /\ findall2 bold_service_re (py "Use whatever fits the workload.\n") = []
      /\ findall1 list_item_re (py "Use whatever fits the workload.\n") = []
      /\ style_services
           (py "\n## AWS Services to Consider\n\nUse whatever fits the workload.\n\n## Notes\n")
         = py "\n## AWS Services to Consider\n\n<div class=\qaws-service\q>\n  <div class=\qaws-service-content\q>\n    <h4>AWS Services</h4>\n    <p>Add relevant AWS services for this question.</p>\n  </div>\n</div>\n\n\n## Notes\n").
Proof.
  assert (S1 : section_of best_practices_heading
                 (py "\n## Best Practices\n\nKeep notes short.\n")
                 (py "\n") (py "Keep notes short.\n") []).
  { destruct (re_search (section_re best_practices_heading)
                (py "\n## Best Practices\n\nKeep notes short.\n"))
      as [res|] eqn:E; [|vm_compute in E; discriminate].
    apply (section_of_decide_at _ _ res); [exact E| | |];
      vm_compute in E; inversion E; vm_compute; reflexivity. }
  assert (F1 : findall2 practice_re (py "Keep notes short.\n") = [])
    by (vm_compute; reflexivity).
  assert (S2 : section_of services_heading
                 (py "\n## AWS Services to Consider\n\nUse whatever fits the workload.\n\n## Notes\n")
                 (py "\n") (py "Use whatever fits the workload.\n")
                 (py "\n## Notes\n")).
  { destruct (re_search (section_re services_heading)
                (py "\n## AWS Services to Consider\n\nUse whatever fits the workload.\n\n## Notes\n"))
      as [res|] eqn:E; [|vm_compute in E; discriminate].
    apply (section_of_decide_at _ _ res); [exact E| | |];
      vm_compute in E; inversion E; vm_compute; reflexivity. }
  assert (F2 : findall2 bold_service_re (py "Use whatever fits the workload.\n") = [])
    by (vm_compute; reflexivity).
  assert (F3 : findall1 list_item_re (py "Use whatever fits the workload.\n") = [])
    by (vm_compute; reflexivity).
  split; [split; [exact S1|split; [exact F1|]]
         |split; [exact S2|split; [exact F2|split; [exact F3|]]]].
  - rewrite (proj1 (fallback_items _ _ _ _) S1 F1).
    vm_compute. reflexivity.
  - rewrite (proj1 (proj2 (proj2 (fallback_items _ _ _ _))) S2 F2 F3).
    vm_compute. reflexivity.
Defined.

Lemma contains_occurs p s :
  contains p s = true <-> exists a b, s = a ++ p ++ b.
Proof.
  split.
  - induction s as [|c s IH]; simpl.
    + rewrite orb_false_r. intros H. apply startswith_split in H as [x ->].
      exists [], x. reflexivity.
    + intros H. apply orb_true_iff in H as [H | H].
      * apply startswith_split in H as [x ->]. exists [], x. reflexivity.
      * destruct (IH H) as (a & b & ->). exists (c :: a), b. reflexivity.
  - intros (a & b & ->). induction a as [|c a IH]; simpl.
    + destruct (p ++ b) eqn:E; simpl; rewrite <- ?E, startswith_app;
        reflexivity.
    + rewrite IH. apply orb_true_r.
Qed.

Lemma absent_decide p s : contains p s = false -> absent p s.
Proof.
  intros H a b E.
  assert (contains p s = true) by (apply contains_occurs; eauto).
  congruence.
Qed.

(** X2: each of the four section steps of the styling script leaves a
    text unchanged in which its heading does not occur; and when the
    heading occurs, it keeps the text before the first occurrence,
    replaces the section (the heading and its body, which runs to the
    next line feed followed by '##' or to the end) by the styled text,
    and goes on behind the section replacing verbatim copies of it only.
    A text in which none of the four headings occurs passes through all
    four steps unchanged. *)
Theorem section_steps_frame :
  (forall heading styled step,
      In (heading, styled, step) section_steps ->
      (forall t, absent heading t -> step t = t)
      /\ (forall t pre body post,
             section_of heading t pre body post ->
             step t = pre ++ styled body
                          ++ replace post (heading ++ body) (styled body)))
  /\ (forall t,
         (forall heading styled step,
             In (heading, styled, step) section_steps -> absent heading t) ->
         style_sections t = t).
Proof.
  assert (Hsteps :
            forall heading styled step,
              In (heading, styled, step) section_steps ->
              (forall t, absent heading t -> step t = t)
              /\ (forall t pre body post,
                     section_of heading t pre body post ->
                     step t = pre ++ styled body
                                  ++ replace post (heading ++ body)
                                       (styled body))).
  { intros heading styled step Hin. simpl in Hin.
    destruct Hin as [E | [E | [E | [E | []]]]]; inversion E; subst; split;
      intros t;
      try (intros Ha; apply style_step_absent; exact Ha);
      intros pre body post Hs; apply style_step;
        (discriminate || exact Hs). }
  split; [exact Hsteps|].
  intros t Habs. unfold style_sections.
  rewrite (proj1 (Hsteps _ _ _ (or_introl eq_refl)) t)
    by (apply (Habs _ _ _ (or_introl eq_refl))).
  rewrite (proj1 (Hsteps _ _ _ (or_intror (or_introl eq_refl))) t)
    by (apply (Habs _ _ _ (or_intror (or_introl eq_refl)))).
  rewrite (proj1 (Hsteps _ _ _ (or_intror (or_intror (or_introl eq_refl)))) t)
    by (apply (Habs _ _ _ (or_intror (or_intror (or_introl eq_refl))))).
  apply (proj1 (Hsteps _ _ _
                  (or_intror (or_intror (or_intror (or_introl eq_refl)))))).
  apply (Habs _ _ _ (or_intror (or_intror (or_intror (or_introl eq_refl))))).
Qed.

Lemma section_steps_frame_witness :
  (absent impl_heading (py "\n## Notes\n\nKeep this.\n")
   /\ style_impl (py "\n## Notes\n\nKeep this.\n")
      = py "\n## Notes\n\nKeep this.\n")
  /\ (section_of best_practices_heading
                 (py "Intro.\n\n## Best Practices\n\n### One\nFirst.\n\n## Notes\n\nKeep this.\n")
                 (py "Intro.\n\n") (py "### One\nFirst.\n")
                 (py "\n## Notes\n\nKeep this.\n")
      /\ style_best_practices
           (py "Intro.\n\n## Best Practices\n\n### One\nFirst.\n\n## Notes\n\nKeep this.\n")
         = py "Intro.\n\n## Best Practices\n\n<div class=\qbest-practice\q>\n  <h4>One</h4>\n  <p>First.</p>\n</div>\n\n\n## Notes\n\nKeep this.\n")
  /\ style_sections (py "\n## Notes\n\nKeep this.\n\n## History\n\nOld.\n")
     = py "\n## Notes\n\nKeep this.\n\n## History\n\nOld.\n".
Proof.
  destruct section_steps_frame as [Hstep Hall].
  assert (A1 : absent impl_heading (py "\n## Notes\n\nKeep this.\n"))
    by (apply absent_decide; vm_compute; reflexivity).
  assert (S1 : section_of best_practices_heading
                 (py "Intro.\n\n## Best Practices\n\n### One\nFirst.\n\n## Notes\n\nKeep this.\n")
                 (py "Intro.\n\n") (py "### One\nFirst.\n")
                 (py "\n## Notes\n\nKeep this.\n")).
  { destruct (re_search (section_re best_practices_heading)
                (py "Intro.\n\n## Best Practices\n\n### One\nFirst.\n\n## Notes\n\nKeep this.\n"))
      as [res|] eqn:E; [|vm_compute in E; discriminate].
    apply (section_of_decide_at _ _ res); [exact E| | |];
      vm_compute in E; inversion E; vm_compute; reflexivity. }
  split; [split; [exact A1|]|split; [split; [exact S1|]|]].
  - apply (proj1 (Hstep impl_heading styled_impl style_impl
                    (or_intror (or_introl eq_refl)))).
    exact A1.
  - rewrite (proj2 (Hstep best_practices_heading styled_best_practices
                      style_best_practices (or_introl eq_refl)) _ _ _ _ S1).
    vm_compute. reflexivity.
  - apply Hall. intros heading styled step Hin. simpl in Hin.
    destruct Hin as [E | [E | [E | [E | []]]]]; inversion E; subst;
      apply absent_decide; vm_compute; reflexivity.
Defined.

(** ** What the styling script does to the front matter *)

Lemma front_matter_split_rest body rest rest' :
  front_matter_split (py "---\n" ++ body ++ py "\n---\n" ++ rest) body rest ->
  front_matter_split (py "---\n" ++ body ++ py "\n---\n" ++ rest') body rest'.
Proof.
  intros [_ Hmin]. split; [reflexivity|].
  intros body2 rest2 E.
  destruct (Nat.le_gt_cases (length body) (length body2)) as [|Hlt];
    [assumption|exfalso].
  apply (app_inv_head (py "---\n")) in E.
  destruct (app_eq_app_le body (py "\n---\n" ++ rest') body2
                          (py "\n---\n" ++ rest2) E) as [z [Hz Hr]]; [lia|].
  (* the closing line found inside [body ++ closing line] is there whatever
     follows *)
  assert (Hp : exists y, z ++ py "\n---\n" = py "\n---\n" ++ y).
  { destruct (app_eq_app_le (z ++ py "\n---\n") rest' (py "\n---\n") rest2)
      as [y [Hy _]].
    - rewrite <- app_assoc. symmetry. exact Hr.
    - rewrite length_app. lia.
    - exists y. exact Hy. }
  destruct Hp as [y Hy].
  specialize (Hmin body2 (y ++ rest)).
  assert (length body <= length body2); [|lia].
  apply Hmin. f_equal. rewrite Hz, <- app_assoc. f_equal.
  rewrite !app_assoc. rewrite Hy. reflexivity.
Qed.

(** X3: the front-matter block is never touched: the output of
    [convert_to_styled_format] begins with the block of the input, and
    that block is again the front matter of the output. *)
Theorem convert_keeps_front_matter :
  forall content body rest,
    front_matter_split content body rest ->
    exists rest',
      convert_to_styled_format content
      = py "---\n" ++ body ++ py "\n---\n" ++ rest'
      /\ front_matter_split (convert_to_styled_format content) body rest'.
Proof.
  intros content body rest Hs.
  assert (Hid : convert_to_styled_format content = content ->
                exists rest',
                  convert_to_styled_format content
                  = py "---\n" ++ body ++ py "\n---\n" ++ rest'
                  /\ front_matter_split (convert_to_styled_format content)
                                        body rest').
  { intros E. exists rest. rewrite E. split; [apply Hs|exact Hs]. }
  unfold convert_to_styled_format in *.
  destruct (re_match front_matter_re content) as [res|] eqn:E;
    [|apply Hid; reflexivity].
  destruct (front_matter_match_split _ _ E) as (b & r & Hs' & Ht & _).
  destruct (front_matter_split_unique _ _ _ _ _ Hs Hs') as [<- <-].
  cbv zeta in *. rewrite Ht in *.
  destruct (re_search title_re _) as [tm|]; [|apply Hid; reflexivity].
  clear Hid. eexists. split.
  - rewrite <- !app_assoc. reflexivity.
  - rewrite <- !app_assoc. apply (front_matter_split_rest body rest).
    destruct Hs as [Ec Hmin]. rewrite <- Ec. split; assumption.
Qed.

Lemma convert_keeps_front_matter_witness :
  exists body rest rest',
    front_matter_split doc_sec01 body rest
    /\ convert_to_styled_format doc_sec01
       = py "---\n" ++ body ++ py "\n---\n" ++ rest'
    /\ front_matter_split (convert_to_styled_format doc_sec01) body rest'.
Proof.
  destruct (re_match front_matter_re doc_sec01) as [res|] eqn:E;
    [|vm_compute in E; discriminate].
  destruct (front_matter_split_decide _ _ E) as [body Hs].
  destruct (convert_keeps_front_matter doc_sec01 _ _ Hs) as (rest' & E1 & E2).
  exists body, (m_rest res), rest'. auto.
Defined.

(** ** The header written by the styling script *)

Lemma line_of_plain (s : str) : forallb not_newline (line_of s) = true.
Proof.
  induction s as [|c s IH]; simpl; [reflexivity|].
  destruct (not_newline c) eqn:E; simpl; [rewrite E; exact IH|reflexivity].
Qed.

Lemma line_of_split (s : str) :
  In LF s -> exists tail, s = line_of s ++ LF :: tail.
Proof.
  induction s as [|c s IH]; simpl; [intros []|].
  intros H. destruct (not_newline c) eqn:E.
  - destruct H as [-> | H]; [vm_compute in E; discriminate|].
    destruct (IH H) as [tail Et]. exists tail. simpl. f_equal. exact Et.
  - exists s. unfold not_newline in E. apply negb_false_iff in E.
    apply Ascii.eqb_eq in E. subst c. reflexivity.
Qed.

Lemma line_of_app (x t : str) : line_of (x ++ LF :: t) = line_of x.
Proof.
  induction x as [|c x IH]; simpl; [reflexivity|].
  destruct (not_newline c); [f_equal; exact IH|reflexivity].
Qed.

Lemma plain_prefix (h s z w : str) :
  forallb not_newline h = true -> h ++ s = z ++ LF :: w ->
  exists z', z = h ++ z' /\ s = z' ++ LF :: w.
Proof.
  revert z; induction h as [|c h IH]; intros z Hh E; simpl in *.
  - exists z. auto.
  - apply andb_true_iff in Hh as [Hc Hh]. destruct z as [|c' z]; simpl in E.
    + inversion E; subst. vm_compute in Hc. discriminate.
    + inversion E; subst. destruct (IH _ Hh H1) as [z' [-> ->]].
      exists z'. auto.
Qed.

Lemma upper_no_lf (U : str) :
  forallb is_upper U = true -> forallb not_newline U = true.
Proof.
  induction U as [|c U IH]; simpl; [reflexivity|].
  intros H. apply andb_true_iff in H as [Hc HU]. rewrite (IH HU), andb_true_r.
  unfold not_newline. destruct (Ascii.eqb_spec c LF) as [->|]; [|reflexivity].
  vm_compute in Hc. discriminate.
Qed.

Lemma digit_no_lf (D : str) :
  forallb is_digit D = true -> forallb not_newline D = true.
Proof.
  induction D as [|c D IH]; simpl; [reflexivity|].
  intros H. apply andb_true_iff in H as [Hc HD]. rewrite (IH HD), andb_true_r.
  unfold not_newline. destruct (Ascii.eqb_spec c LF) as [->|]; [|reflexivity].
  vm_compute in Hc. discriminate.
Qed.

Lemma digit_not_upper (c : ascii) : is_digit c = true -> is_upper c = false.
Proof.
  unfold is_digit, is_upper, in_range. intros H.
  apply andb_true_iff in H as [_ H]. apply N.leb_le in H.
  apply andb_false_iff. left. apply N.leb_gt. lia.
Qed.

Lemma heading_open_plain (U D : str) :
  question_id U D ->
  forallb not_newline (py "# " ++ (U ++ D) ++ py ": ") = true.
Proof.
  intros (_ & HU & _ & HD).
  rewrite !forallb_app, (upper_no_lf _ HU), (digit_no_lf _ HD). reflexivity.
Qed.

Lemma first_not_upper (D t : str) :
  D <> [] -> forallb is_digit D = true ->
  match D ++ t with [] => True | c :: _ => is_upper c = false end.
Proof.
  destruct D as [|c D]; [congruence|]. simpl. intros _ H.
  apply andb_true_iff in H as [H _]. apply digit_not_upper. exact H.
Qed.

(** The title pattern at a heading: the identifier and the rest of the
    line are the two groups. *)
Lemma title_match_exact pos U D title tail :
  question_id U D -> forallb not_newline title = true ->
  match_at title_re pos
           (py "# " ++ (U ++ D) ++ py ": " ++ title ++ LF :: tail)
  = Some (MatchResult pos (py "# " ++ (U ++ D) ++ py ": " ++ title ++ [LF])
                      [(2, title); (1, U ++ D)] tail).
Proof.
  intros (HU & HU' & HD & HD') Ht.
  set (RES := MatchResult pos (py "# " ++ (U ++ D) ++ py ": " ++ title ++ [LF])
                          [(2, title); (1, U ++ D)] tail).
  unfold match_at, title_re. cbn [rmatch].
  rewrite startswith_app, skipn_length_app. rewrite <- app_assoc.
  rewrite (rep_greedy_longest is_upper 1 _ U
             (D ++ py ": " ++ title ++ LF :: tail) _ RES);
    [reflexivity|exact HU'|apply length_nonempty; exact HU|
     |apply first_not_upper; assumption].
  cbv beta.
  rewrite (rep_greedy_longest is_digit 1 _ D
             (py ": " ++ title ++ LF :: tail) _ RES);
    [reflexivity|exact HD'|apply length_nonempty; exact HD| |reflexivity].
  cbv beta. rewrite startswith_app, skipn_length_app.
  rewrite (rep_lazy_first not_newline 0 _ title (LF :: tail) _ RES);
    [reflexivity|exact Ht|lia| |].
  - cbv beta. change (LF :: tail) with (py "\n" ++ tail).
    rewrite startswith_app, skipn_length_app.
    unfold RES. f_equal. f_equal.
    + eapply firstn_exact with (b := tail).
      * rewrite <- !app_assoc. reflexivity.
      * rewrite !length_app. simpl. lia.
    + f_equal; [f_equal|f_equal; f_equal].
      * eapply firstn_exact; [reflexivity|lia].
      * eapply firstn_exact with (b := py ": " ++ title ++ py "\n" ++ tail).
        -- rewrite <- !app_assoc. reflexivity.
        -- rewrite !length_app. lia.
  - intros w' t' E _ Hl. cbv beta.
    destruct (app_eq_app_le title (LF :: tail) w' t' E) as [z [Ez ->]];
      [lia|].
    destruct z as [|c z];
      [rewrite Ez, app_nil_r in Hl; lia|].
    subst title. rewrite forallb_app in Ht.
    apply andb_true_iff in Ht as [_ Ht]. simpl in Ht.
    apply andb_true_iff in Ht as [Hc _].
    destruct (startswith (py "\n") ((c :: z) ++ LF :: tail)) eqn:Es;
      [|reflexivity].
    apply startswith_split in Es as [q Eq]. inversion Eq; subst c.
    vm_compute in Hc. discriminate.
Qed.

Lemma first_gap_other (s x s' w' t' : str) :
  first_gap s x s' -> x ++ py "\n\n" ++ s' = w' ++ t' ->
  length w' < length x -> startswith (py "\n\n") t' = false.
Proof.
  intros [Es Hmin] E Hl.
  destruct (startswith (py "\n\n") t') eqn:St; [|reflexivity].
  apply startswith_split in St as [q ->].
  specialize (Hmin w' q). rewrite Es in Hmin. specialize (Hmin E). lia.
Qed.

(** The description pattern at a heading: the match runs to the second
    blank line, and the group is the text between the two blank lines. *)
Lemma description_match_exact pos U D s x s' y post :
  question_id U D -> first_gap s x s' -> first_gap s' y post ->
  match_at description_re pos (py "# " ++ (U ++ D) ++ py ": " ++ s)
  = Some (MatchResult pos
            (py "# " ++ (U ++ D) ++ py ": " ++ x ++ py "\n\n" ++ y
                ++ py "\n\n")
            [(1, y)] post).
Proof.
  intros (HU & HU' & HD & HD') Hx Hy.
  set (RES := MatchResult pos
                (py "# " ++ (U ++ D) ++ py ": " ++ x ++ py "\n\n" ++ y
                    ++ py "\n\n")
                [(1, y)] post).
  pose proof (proj1 Hy) as Ey. subst s'.
  pose proof (proj1 Hx) as Ex. subst s.
  unfold match_at, description_re. cbn [rmatch].
  rewrite startswith_app, skipn_length_app. rewrite <- app_assoc.
  rewrite (rep_greedy_longest is_upper 1 _ U
             (D ++ py ": " ++ x ++ py "\n\n" ++ y ++ py "\n\n" ++ post)
             _ RES);
    [reflexivity|exact HU'|apply length_nonempty; exact HU|
     |apply first_not_upper; assumption].
  cbv beta.
  rewrite (rep_greedy_longest is_digit 1 _ D
             (py ": " ++ x ++ py "\n\n" ++ y ++ py "\n\n" ++ post) _ RES);
    [reflexivity|exact HD'|apply length_nonempty; exact HD| |reflexivity].
  cbv beta. rewrite startswith_app, skipn_length_app.
  rewrite (rep_lazy_first any_char 0 _ x
             (py "\n\n" ++ y ++ py "\n\n" ++ post) _ RES);
    [reflexivity|apply forallb_any_char|lia| |].
  - cbv beta. rewrite startswith_app, skipn_length_app.
    rewrite (rep_lazy_first any_char 0 _ y (py "\n\n" ++ post) _ RES);
      [reflexivity|apply forallb_any_char|lia| |].
    + cbv beta. rewrite startswith_app, skipn_length_app.
      unfold RES. f_equal. f_equal.
      * eapply firstn_exact with (b := post).
        -- rewrite <- !app_assoc. reflexivity.
        -- rewrite !length_app. lia.
      * do 2 f_equal. eapply firstn_exact; [reflexivity|lia].
    + intros w' t' E _ Hl. cbv beta.
      rewrite (first_gap_other _ y post w' t' Hy E Hl). reflexivity.
  - intros w' t' E _ Hl. cbv beta.
    rewrite (first_gap_other _ x _ w' t' Hx E Hl). reflexivity.
Qed.

(** Where the description pattern matches, a heading stands, and two
    blank lines follow it. *)
Lemma description_match_sound pos t :
  match_at description_re pos t <> None ->
  exists U D s, t = py "# " ++ (U ++ D) ++ py ": " ++ s
                /\ question_id U D /\ two_gaps s.
Proof.
  intros H. destruct (match_at description_re pos t) as [res|] eqn:E;
    [clear H|congruence].
  apply match_at_sound in E as [w [c [M _]]].
  unfold description_re in M. inv_matches.
  match goal with
  | |- exists _ _ _, _ ++ ?U ++ ?D ++ _ ++ ?x ++ _ ++ ?y ++ _ ++ ?r = _ /\ _ =>
      exists U, D, (x ++ py "\n\n" ++ y ++ py "\n\n" ++ r)
  end.
  rewrite <- !app_assoc.
  repeat split; auto using nonempty_length.
  eexists _, _, _. reflexivity.
Qed.

Lemma two_gaps_heading U D s :
  question_id U D -> two_gaps s ->
  heading_at (py "# " ++ (U ++ D) ++ py ": " ++ s).
Proof.
  intros Hq (x & y & post & ->).
  assert (HL : In LF (x ++ py "\n\n" ++ y ++ py "\n\n" ++ post)).
  { apply in_or_app. right. left. reflexivity. }
  destruct (line_of_split _ HL) as [tail Et].
  exists U, D, (line_of (x ++ py "\n\n" ++ y ++ py "\n\n" ++ post)), tail.
  split; [|split; [exact Hq|apply line_of_plain]].
  rewrite Et at 1. reflexivity.
Qed.

(** The styling of a document with front matter, by what stands behind
    the block. *)
Lemma convert_behind_front_matter content fm rest :
  front_matter_split content fm rest ->
  convert_to_styled_format content
  = match re_search title_re rest with
    | None => content
    | Some title_match =>
        (py "---\n" ++ fm ++ py "\n---\n")
          ++ new_header (group 1 (m_groups title_match))
                        (group 2 (m_groups title_match))
                        (description_of rest)
          ++ style_sections (content_without_header rest)
    end.
Proof.
  intros Hs. unfold convert_to_styled_format.
  destruct (re_match front_matter_re content) as [res|] eqn:E.
  - destruct (front_matter_match_split _ _ E) as [b [r [Hs' [Ht Hr]]]].
    destruct (front_matter_split_unique _ _ _ _ _ Hs Hs') as [<- <-].
    cbv zeta. rewrite Ht. destruct Hs as [Ec _].
    replace (skipn (length (py "---\n" ++ fm ++ py "\n---\n")) content)
      with rest.
    2:{ rewrite Ec. rewrite !app_assoc. rewrite <- (app_assoc _ fm).
        rewrite skipn_length_app. reflexivity. }
    reflexivity.
  - exfalso. assert (H : re_match front_matter_re content <> None).
    { apply front_matter_match_iff. exists fm, rest. apply Hs. }
    congruence.
Qed.

Lemma match_at_none_not r pos t (P : Prop) :
  (match_at r pos t <> None -> P) -> ~ P -> match_at r pos t = None.
Proof.
  intros H HP. destruct (match_at r pos t) eqn:E; [|reflexivity].
  exfalso. apply HP, H. discriminate.
Qed.

Lemma title_search_first rest pre U D s :
  first_heading rest pre U D s ->
  exists tail,
    s = line_of s ++ LF :: tail
    /\ re_search title_re rest
       = Some (MatchResult (length pre)
                 (py "# " ++ (U ++ D) ++ py ": " ++ line_of s ++ [LF])
                 [(2, line_of s); (1, U ++ D)] tail).
Proof.
  intros (-> & Hq & HL & Hmin).
  destruct (line_of_split _ HL) as [tail Et]. exists tail.
  split; [exact Et|]. unfold re_search.
  apply search_from_first.
  - rewrite Et at 1. apply title_match_exact; [exact Hq|apply line_of_plain].
  - intros a' b' E Hl. apply (match_at_none_not _ _ _ (heading_at b')).
    + apply title_match_heading.
    + apply (Hmin a' b' E Hl).
Qed.

Lemma description_none_before rest pre U D s a' b' :
  first_heading rest pre U D s ->
  rest = a' ++ b' -> length a' < length pre ->
  match_at description_re (0 + length a') b' = None.
Proof.
  intros (-> & Hq & HL & Hmin) E Hl.
  apply (match_at_none_not _ _ _ (heading_at b')).
  - intros H. apply description_match_sound in H as (U' & D' & s2 & -> & Hq' & Hg).
    apply two_gaps_heading; assumption.
  - apply (Hmin a' b' E Hl).
Qed.

Lemma description_search_first rest pre U D s x s' y post :
  first_heading rest pre U D s -> first_gap s x s' -> first_gap s' y post ->
  re_search description_re rest
  = Some (MatchResult (length pre)
            (py "# " ++ (U ++ D) ++ py ": " ++ x ++ py "\n\n" ++ y
                ++ py "\n\n")
            [(1, y)] post).
Proof.
  intros Hf Hx Hy. pose proof Hf as (E & Hq & _ & _).
  unfold re_search. rewrite E. apply search_from_first.
  - apply description_match_exact with (s' := s'); assumption.
  - intros a' b' E' Hl.
    apply (description_none_before rest pre U D s); [exact Hf| |exact Hl].
    rewrite E. exact E'.
Qed.

Lemma description_search_none rest pre U D s :
  first_heading rest pre U D s -> ~ two_gaps s ->
  re_search description_re rest = None.
Proof.
  intros Hf Hg. pose proof Hf as (E & Hq & _ & _).
  destruct (re_search description_re rest) as [res|] eqn:Er; [|reflexivity].
  exfalso. unfold re_search in Er.
  apply search_from_sound in Er as (a & b & Eab & Hm & _).
  destruct (Nat.lt_ge_cases (length a) (length pre)) as [Hl|Hl].
  - rewrite (description_none_before rest pre U D s a b Hf Eab Hl) in Hm.
    discriminate.
  - assert (Hne : match_at description_re (0 + length a) b <> None)
      by congruence.
    apply description_match_sound in Hne
      as (U' & D' & s2 & -> & _ & (x & y & post & ->)).
    rewrite E in Eab. symmetry in Eab.
    destruct (app_eq_app_le _ _ _ _ Eab Hl) as [z [-> Ez]].
    apply Hg.
    destruct (plain_prefix (py "# " ++ (U ++ D) ++ py ": ") s
                (z ++ py "# " ++ (U' ++ D') ++ py ": " ++ x)
                (LF :: y ++ py "\n\n" ++ post))
      as [z' [_ Es]].
    + apply heading_open_plain. exact Hq.
    + rewrite <- !app_assoc. rewrite <- !app_assoc in Ez. rewrite Ez.
      reflexivity.
    + exists z', y, post. exact Es.
Qed.

(** The header cut out and the header written, for a heading with a
    description behind it. *)
Lemma convert_described :
  forall content fm rest pre U D s x s' y post,
    front_matter_split content fm rest ->
    first_heading rest pre U D s ->
    first_gap s x s' -> first_gap s' y post ->
    pre ++ post <> [] ->
    convert_to_styled_format content
    = (py "---\n" ++ fm ++ py "\n---\n")
        ++ new_header (U ++ D) (line_of x) y
        ++ style_sections (pre ++ post).
Proof.
  intros content fm rest pre U D s x s' y post Hs Hf Hx Hy Hne.
  rewrite (convert_behind_front_matter content fm rest Hs).
  destruct (title_search_first rest pre U D s Hf) as (tail & _ & ->).
  cbn [m_groups]. change (group 1 [(2, line_of s); (1, U ++ D)]) with (U ++ D).
  change (group 2 [(2, line_of s); (1, U ++ D)]) with (line_of s).
  assert (El : line_of s = line_of x).
  { rewrite (proj1 Hx). apply (line_of_app x (LF :: s')). }
  unfold description_of, content_without_header, re_sub1.
  rewrite (description_search_first rest pre U D s x s' y post Hf Hx Hy).
  cbn [m_groups m_start m_rest]. change (group 1 [(1, y)]) with y.
  replace (firstn (length pre) rest) with pre.
  2:{ destruct Hf as (-> & _). symmetry. apply firstn_length_app. }
  rewrite El. change ([] ++ post) with post.
  destruct (pre ++ post) eqn:E; [congruence|reflexivity].
Qed.

(** X4: the header of a styled page.  Let the text behind the front
    matter have its first heading '# <ID>: ' behind [pre], and let two
    blank lines follow the heading: the first behind [x], the second
    behind [y].  Then the new header shows the identifier, the first line
    of [x] as the title and [y] as the description (whatever [y] is: the
    script does not look at it), and everything from the heading up to
    and including the second blank line is cut out before the sections
    are styled. *)
Theorem convert_header_with_description :
  forall content fm rest pre U D s x s' y post,
    front_matter_split content fm rest ->
    first_heading rest pre U D s ->
    first_gap s x s' -> first_gap s' y post ->
    pre ++ post <> [] ->
    convert_to_styled_format content
    = (py "---\n" ++ fm ++ py "\n---\n")
        ++ new_header (U ++ D) (line_of x) y
        ++ style_sections (pre ++ post).
Proof. exact convert_described. Qed.

(** X5: a heading that is not followed by two blank lines.  The new
    header shows the identifier, the rest of the heading line as the
    title and the standard sentence as the description; nothing is cut
    out, so the old heading stays in the text behind the new header. *)
Theorem convert_header_without_description :
  forall content fm rest pre U D s,
    front_matter_split content fm rest ->
    first_heading rest pre U D s ->
    ~ two_gaps s ->
    convert_to_styled_format content
    = (py "---\n" ++ fm ++ py "\n---\n")
        ++ new_header (U ++ D) (line_of s) default_description
        ++ style_sections rest.
Proof.
  intros content fm rest pre U D s Hs Hf Hg.
  rewrite (convert_behind_front_matter content fm rest Hs).
  destruct (title_search_first rest pre U D s Hf) as (tail & _ & ->).
  cbn [m_groups]. change (group 1 [(2, line_of s); (1, U ++ D)]) with (U ++ D).
  change (group 2 [(2, line_of s); (1, U ++ D)]) with (line_of s).
  unfold description_of, content_without_header, re_sub1.
  rewrite (description_search_none rest pre U D s Hf Hg).
  destruct rest as [|c rest]; [|reflexivity].
  destruct Hf as (E & _). symmetry in E.
  apply app_eq_nil in E as [_ E]. discriminate E.
Qed.

(** Deciding the hypotheses on a given document. *)
Lemma front_matter_split_by_match content res fm :
  re_match front_matter_re content = Some res ->
  m_text res = py "---\n" ++ fm ++ py "\n---\n" ->
  front_matter_split content fm (m_rest res).
Proof.
  intros E Et.
  destruct (front_matter_match_split _ _ E) as (b & r & Hs & Ht & <-).
  rewrite Et in Ht. apply app_inv_head, app_inv_tail in Ht. subst b. exact Hs.
Qed.

Lemma first_heading_by_search rest pre U D s res :
  rest = pre ++ py "# " ++ (U ++ D) ++ py ": " ++ s ->
  question_id U D -> In LF s ->
  re_search title_re rest = Some res -> m_start res = length pre ->
  first_heading rest pre U D s.
Proof.
  intros E Hq HL Hr Hp. split; [exact E|]. split; [exact Hq|].
  split; [exact HL|].
  intros pre' post' E' Hl Hh. unfold re_search in Hr.
  apply search_from_sound in Hr as (a & b & Eab & Hm & Hmin).
  apply match_at_parts in Hm as [_ Hst]. rewrite Hp in Hst.
  apply (title_match_heading (0 + length pre')) in Hh. apply Hh.
  apply (Hmin pre' post' E'). simpl in Hst. lia.
Qed.

Lemma first_gap_by_search x s' :
  contains (py "\n\n") (x ++ py "\n") = false ->
  first_gap (x ++ py "\n\n" ++ s') x s'.
Proof.
  intros Hc. split; [reflexivity|]. intros x' s'' E.
  destruct (Nat.le_gt_cases (length x) (length x')) as [|Hl];
    [assumption|exfalso].
  destruct (app_eq_app_le x (py "\n\n" ++ s') x' (py "\n\n" ++ s'') E)
    as [z [Ez Hz]]; [lia|].
  assert (Hl' : 1 <= length z).
  { rewrite Ez, length_app in Hl. lia. }
  destruct (app_eq_app_le (z ++ py "\n") (py "\n" ++ s') (py "\n\n") s'')
    as [q [Eq _]].
  - rewrite <- app_assoc. symmetry. exact Hz.
  - rewrite length_app. simpl. lia.
  - assert (contains (py "\n\n") (x ++ py "\n") = true); [|congruence].
    apply contains_occurs. exists x', q.
    rewrite Ez, <- app_assoc, Eq. reflexivity.
Qed.

Lemma one_gap_only s x s' :
  first_gap s x s' -> contains (py "\n\n") s' = false -> ~ two_gaps s.
Proof.
  intros [Es Hmin] Hc (x2 & y & post & E).
  assert (contains (py "\n\n") s' = true); [|congruence].
  apply contains_occurs.
  pose proof (Hmin _ _ E) as Hl. rewrite Es in E. symmetry in E.
  destruct (app_eq_app_le _ _ _ _ E Hl) as [z [-> Hz]].
  destruct z as [|c1 [|c2 z]].
  - inversion Hz. exists y, post. reflexivity.
  - inversion Hz; subst. eexists (_ :: y), post. reflexivity.
  - inversion Hz; subst. exists z, (y ++ py "\n\n" ++ post). reflexivity.
Qed.

Lemma has_line_feed (s : str) : existsb (Ascii.eqb LF) s = true -> In LF s.
Proof.
  intros H. apply existsb_exists in H as [c [Hin Hc]].
  apply Ascii.eqb_eq in Hc. subst c. exact Hin.
Qed.

Lemma question_id_decide (U D : str) :
  (negb (str_eqb U []) && forallb is_upper U
   && negb (str_eqb D []) && forallb is_digit D)%bool = true ->
  question_id U D.
Proof.
  intros H. repeat (apply andb_true_iff in H as [H ?]).
  apply negb_true_iff in H.
  match goal with
  | H' : negb (str_eqb D []) = true |- _ => apply negb_true_iff in H'
  end.
  repeat split; try assumption; intros ->; discriminate.
Qed.

Lemma convert_header_with_description_witness :
  convert_to_styled_format doc_sec01
  = (py "---\n" ++ py "title: SEC01" ++ py "\n---\n")
      ++ new_header (py "SEC" ++ py "01") (line_of (py "Title"))
                    (py "A description paragraph.")
      ++ style_sections
           (py "\n" ++ py "## Best Practices\n\n### Sub\nBody of the practice.\n").
Proof.
  destruct (re_match front_matter_re doc_sec01) as [fm|] eqn:E;
    [|vm_compute in E; discriminate].
  pose proof (front_matter_split_by_match doc_sec01 fm (py "title: SEC01") E)
    as Hs.
  destruct (re_search title_re (m_rest fm)) as [tm|] eqn:Et;
    [|vm_compute in E; inversion E; subst fm; vm_compute in Et; discriminate].
  pose proof (first_heading_by_search (m_rest fm) (py "\n") (py "SEC")
                (py "01")
                (py "Title" ++ py "\n\n" ++ py "A description paragraph."
                    ++ py "\n\n"
                    ++ py "## Best Practices\n\n### Sub\nBody of the practice.\n")
                tm) as Hf.
  apply (convert_header_with_description doc_sec01 (py "title: SEC01")
           (m_rest fm) (py "\n") (py "SEC") (py "01")
           (py "Title" ++ py "\n\n" ++ py "A description paragraph."
               ++ py "\n\n"
               ++ py "## Best Practices\n\n### Sub\nBody of the practice.\n")
           (py "Title")
           (py "A description paragraph." ++ py "\n\n"
               ++ py "## Best Practices\n\n### Sub\nBody of the practice.\n")
           (py "A description paragraph.")
           (py "## Best Practices\n\n### Sub\nBody of the practice.\n")).
  - apply Hs. vm_compute in E. inversion E. vm_compute. reflexivity.
  - apply Hf.
    + vm_compute in E. inversion E. vm_compute. reflexivity.
    + apply question_id_decide. vm_compute. reflexivity.
    + apply has_line_feed. vm_compute. reflexivity.
    + exact Et.
    + vm_compute in E. inversion E; subst fm. vm_compute in Et.
      inversion Et. vm_compute. reflexivity.
  - apply first_gap_by_search. vm_compute. reflexivity.
  - apply first_gap_by_search. vm_compute. reflexivity.
  - vm_compute. discriminate.
Defined.

Lemma convert_header_without_description_witness :
  convert_to_styled_format doc_one_paragraph
  = (py "---\n" ++ py "title: SEC02" ++ py "\n---\n")
      ++ new_header (py "SEC" ++ py "02")
                    (line_of (py "Short" ++ py "\n\n" ++ py "Only one paragraph.\n"))
                    default_description
      ++ style_sections (py "\n# SEC02: Short\n\nOnly one paragraph.\n").
Proof.
  destruct (re_match front_matter_re doc_one_paragraph) as [fm|] eqn:E;
    [|vm_compute in E; discriminate].
  pose proof (front_matter_split_by_match doc_one_paragraph fm
                (py "title: SEC02") E) as Hs.
  destruct (re_search title_re (m_rest fm)) as [tm|] eqn:Et;
    [|vm_compute in E; inversion E; subst fm; vm_compute in Et; discriminate].
  pose proof (first_heading_by_search (m_rest fm) (py "\n") (py "SEC")
                (py "02")
                (py "Short" ++ py "\n\n" ++ py "Only one paragraph.\n")
                tm) as Hf.
  replace (py "\n# SEC02: Short\n\nOnly one paragraph.\n") with (m_rest fm)
    by (vm_compute in E; inversion E; vm_compute; reflexivity).
  apply (convert_header_without_description doc_one_paragraph
           (py "title: SEC02") (m_rest fm) (py "\n") (py "SEC") (py "02")
           (py "Short" ++ py "\n\n" ++ py "Only one paragraph.\n")).
  - apply Hs. vm_compute in E. inversion E. vm_compute. reflexivity.
  - apply Hf.
    + vm_compute in E. inversion E. vm_compute. reflexivity.
    + apply question_id_decide. vm_compute. reflexivity.
    + apply has_line_feed. vm_compute. reflexivity.
    + exact Et.
    + vm_compute in E. inversion E; subst fm. vm_compute in Et.
      inversion Et. vm_compute. reflexivity.
  - apply (one_gap_only _ (py "Short") (py "Only one paragraph.\n")).
    + apply first_gap_by_search. vm_compute. reflexivity.
    + vm_compute. reflexivity.
Defined.

(** ** The question pages of scripts/fix_relative_links.py *)

Lemma bp_page_pillar_page P page : bp_page P page -> pillar_page P page.
Proof.
  intros (D & D2 & -> & HD & HD' & HD2 & HD2').
  exists D, (py "-BP" ++ D2). rewrite <- !app_assoc.
  repeat split; auto. right. exists D2. auto.
Qed.

Lemma bp_page_plain P page :
  forallb is_upper P = true -> bp_page P page ->
  forallb plain_char page = true.
Proof.
  intros HP H. apply (pillar_page_plain P page HP).
  apply bp_page_pillar_page. exact H.
Qed.

Lemma question_links_match_sound P pos s res :
  match_at (FixRelativeLinks.question_pattern P) pos s = Some res ->
  exists b rest,
    bp_page P b /\ s = href_open ++ b ++ DQ :: rest
    /\ res = MatchResult pos (href_open ++ b ++ [DQ]) [(1, b)] rest.
Proof.
  intros H. apply match_at_sound in H as (w & c & M & E & ->).
  unfold FixRelativeLinks.question_pattern in M. inv_matches.
  cbn [m_rest] in *.
  match goal with
  | HD : forallb is_digit ?D = true, HD2 : forallb is_digit ?D2 = true,
    HE : _ :: _ :: _ :: _ :: _ :: _ :: _ ++ ?D ++ _ ++ ?D2 ++ _ = _
    |- _ =>
      exists (P ++ D ++ py "-BP" ++ D2 ++ py ".html"), (m_rest res);
      assert (Ht : bp_page P (P ++ D ++ py "-BP" ++ D2 ++ py ".html"));
      [ exists D, D2; repeat split; auto using nonempty_length
      | split; [exact Ht|]; split;
        [ rewrite <- !app_assoc; reflexivity
        | f_equal;
          [ apply (app_inv_tail (m_rest res)); rewrite <- HE;
            rewrite <- !app_assoc; reflexivity
          | do 2 f_equal;
            apply firstn_exact with (b := DQ :: m_rest res);
            [ rewrite <- !app_assoc; reflexivity
            | rewrite !length_app; simpl; lia ] ] ] ]
  end.
Qed.

Lemma question_links_match_complete P pos b rest :
  bp_page P b ->
  match_at (FixRelativeLinks.question_pattern P) pos
           (href_open ++ b ++ DQ :: rest)
  <> None.
Proof.
  intros (D & D2 & -> & HD & HD' & HD2 & HD2').
  eapply match_at_complete; unfold FixRelativeLinks.question_pattern.
  eapply M_Cat; [apply M_Lit|].
  eapply M_Cat; [|apply (M_Lit [DQ])].
  apply M_Group. rewrite <- !app_assoc.
  eapply M_Cat; [apply M_Lit|].
  eapply M_Cat; [apply M_Rep; [exact HD'|apply length_nonempty; exact HD]|].
  eapply M_Cat; [apply M_Lit|].
  eapply M_Cat; [apply M_Rep; [exact HD2'|apply length_nonempty; exact HD2]|].
  apply M_Lit.
Qed.

Lemma question_links_match_iff P :
  forallb is_upper P = true ->
  forall pos s res,
    match_at (FixRelativeLinks.question_pattern P) pos s = Some res <->
    exists b rest,
      bp_page P b /\ s = href_open ++ b ++ DQ :: rest
      /\ res = MatchResult pos (href_open ++ b ++ [DQ]) [(1, b)] rest.
Proof.
  intros HP. apply quoted_match_iff.
  - intros b. apply bp_page_plain; exact HP.
  - apply question_links_match_sound.
  - apply question_links_match_complete.
Qed.

(** ** When a link-fixing script writes its file *)

Section LinkLength.

Variable r : regex.
Variable target : str -> Prop.
Variable f : str -> str.
Variable repl : rmatch_result -> str.

Hypothesis match_at_target :
  forall pos s res,
    match_at r pos s = Some res <->
    exists b rest,
      target b /\ s = href_open ++ b ++ DQ :: rest
      /\ res = MatchResult pos (href_open ++ b ++ [DQ]) [(1, b)] rest.

Hypothesis target_plain : forall b, target b -> forallb plain_char b = true.

Hypothesis repl_target :
  forall res, repl res = href_open ++ f (group 1 (m_groups res)) ++ [DQ].

Hypothesis f_longer : forall b, target b -> length b < length (f b).

Lemma re_sub_length_le s : length s <= length (re_sub r repl s).
Proof.
  remember (length s) as n eqn:Hn. revert s Hn.
  induction n as [n IH] using lt_wf_ind. intros s Hn.
  destruct s as [|c s']; [subst n; simpl; lia|].
  destruct (link_at_dec r target match_at_target (c :: s'))
    as [(b & rest & Hb & E) | H].
  - rewrite E, (re_sub_hit r target f repl match_at_target repl_target)
      by exact Hb.
    assert (Hl : length rest < n).
    { subst n. rewrite E, !length_app. simpl. lia. }
    pose proof (IH (length rest) Hl rest eq_refl) as Hr.
    pose proof (f_longer b Hb) as Hf.
    subst n. rewrite E. rewrite !length_app. cbn [length]. lia.
  - rewrite (re_sub_miss r target f repl match_at_target repl_target)
      by exact H.
    assert (Hl : length s' < n) by (subst n; simpl; lia).
    pose proof (IH (length s') Hl s' eq_refl) as Hr.
    subst n. simpl. lia.
Qed.

(** A text with a link in it comes out longer, so it comes out
    changed. *)
Lemma re_sub_changed pre b post :
  target b ->
  re_sub r repl (pre ++ href_open ++ b ++ DQ :: post)
  <> pre ++ href_open ++ b ++ DQ :: post.
Proof.
  intros Hb E. apply (f_equal (@length ascii)) in E.
  rewrite (re_sub_occurrence r target f repl match_at_target target_plain
             repl_target pre b post Hb) in E.
  pose proof (re_sub_length_le pre). pose proof (re_sub_length_le post).
  pose proof (f_longer b Hb).
  rewrite !length_app in E. cbn [length] in E. lia.
Qed.

(** The last lines of the three functions: the text is written back and
    [True] returned when a link occurs, and only then. *)
Lemma written_iff_link s :
  ((exists pre b post,
       target b /\ s = pre ++ href_open ++ b ++ DQ :: post) ->
   (if str_eqb s (re_sub r repl s) then (None, false)
    else (Some (re_sub r repl s), true))
   = (Some (re_sub r repl s), true)
   /\ re_sub r repl s <> s)
  /\ ((forall pre b post,
          target b -> s <> pre ++ href_open ++ b ++ DQ :: post) ->
      (if str_eqb s (re_sub r repl s) then (None, false)
       else (Some (re_sub r repl s), true))
      = (@None str, false)).
Proof.
  split.
  - intros (pre & b & post & Hb & ->).
    pose proof (re_sub_changed pre b post Hb) as Hne.
    split; [|exact Hne].
    destruct (str_eqb _ _) eqn:E; [|reflexivity].
    apply str_eqb_eq in E. congruence.
  - intros H.
    rewrite (re_sub_no_occurrence r target f repl match_at_target
               repl_target s H).
    rewrite str_eqb_refl. reflexivity.
Qed.

End LinkLength.

(** ** Running a relative-link fixer twice *)

Lemma no_hr_tail c w : no_hr (c :: w) = true -> no_hr w = true.
Proof.
  simpl. destruct w as [|d w]; [reflexivity|].
  intros H. apply andb_true_iff in H as [_ H]. exact H.
Qed.

Lemma no_hr_head c w t x :
  no_hr (c :: w) = true -> (c :: w) ++ t <> "h"%char :: "r"%char :: x.
Proof.
  intros H E. simpl in H. destruct w as [|d w].
  - inversion E; subst. discriminate.
  - inversion E; subst. discriminate.
Qed.

Lemma no_hr_app w1 w2 :
  forallb not_h w1 = true -> no_hr w2 = true -> no_hr (w1 ++ w2) = true.
Proof.
  induction w1 as [|c w1 IH]; intros H1 H2; [exact H2|].
  simpl in H1. apply andb_true_iff in H1 as [Hc H1].
  specialize (IH H1 H2). change ((c :: w1) ++ w2) with (c :: (w1 ++ w2)).
  unfold not_h in Hc. simpl. destruct (w1 ++ w2) as [|d w].
  - exact Hc.
  - rewrite Hc. exact IH.
Qed.

Section DotSlashTwice.

Variable r : regex.
Variable target : str -> Prop.
Variable repl : rmatch_result -> str.

Hypothesis match_at_target :
  forall pos s res,
    match_at r pos s = Some res <->
    exists b rest,
      target b /\ s = href_open ++ b ++ DQ :: rest
      /\ res = MatchResult pos (href_open ++ b ++ [DQ]) [(1, b)] rest.

Hypothesis repl_target :
  forall res,
    repl res = href_open ++ (py "./" ++ group 1 (m_groups res)) ++ [DQ].

(** A target does not begin with a dot, and nothing in it, nor the
    quote behind it, begins a link. *)
Hypothesis target_head :
  forall b, target b -> exists u b', b = u :: b' /\ u <> "."%char.

Hypothesis target_clean : forall b, target b -> no_hr (b ++ [DQ]) = true.

Let fixr := re_sub r repl.
Let link_here := link_at target.

Lemma fixr_nil : fixr [] = [].
Proof. apply (re_sub_nil r target repl match_at_target). Qed.

Lemma fixr_hit b rest :
  target b ->
  fixr (href_open ++ b ++ DQ :: rest)
  = href_open ++ (py "./" ++ b) ++ DQ :: fixr rest.
Proof.
  apply (re_sub_hit r target (fun b => py "./" ++ b) repl match_at_target
           repl_target).
Qed.

Lemma fixr_miss c s : ~ link_here (c :: s) -> fixr (c :: s) = c :: fixr s.
Proof.
  apply (re_sub_miss r target (fun b => py "./" ++ b) repl match_at_target
           repl_target).
Qed.

Lemma fixr_link_dec s : link_here s \/ ~ link_here s.
Proof. apply (link_at_dec r target match_at_target). Qed.

Lemma link_here_hr s :
  link_here s -> exists x, s = "h"%char :: "r"%char :: x.
Proof. intros (b & rest & _ & ->). eexists. reflexivity. Qed.

(** Text in which nothing begins with 'hr' is copied. *)
Lemma fixr_clean w t : no_hr w = true -> fixr (w ++ t) = w ++ fixr t.
Proof.
  induction w as [|c w IH]; intros H; [reflexivity|].
  change ((c :: w) ++ t) with (c :: (w ++ t)).
  rewrite fixr_miss.
  - rewrite IH by (apply (no_hr_tail c); exact H). reflexivity.
  - intros Hl. apply link_here_hr in Hl as [x E].
    apply (no_hr_head c w t x H). exact E.
Qed.

(** What the substitution leaves in front of its output stood in front
    of its input, as long as nothing there begins with 'hr': a rewritten
    link does. *)
Lemma fixr_prefix_inv w :
  forall s x,
    no_hr w = true -> fixr s = w ++ x ->
    exists s2, s = w ++ s2 /\ fixr s2 = x.
Proof.
  induction w as [|c w IH]; intros s x Hw E.
  - exists s. auto.
  - destruct s as [|c' s'].
    + rewrite fixr_nil in E. discriminate.
    + destruct (fixr_link_dec (c' :: s')) as [Hl | Hl].
      * destruct Hl as (b & rest & Hb & El).
        rewrite El, fixr_hit in E by exact Hb. exfalso.
        apply (no_hr_head c w x
                 (py "ef=\q" ++ (py "./" ++ b) ++ DQ :: fixr rest) Hw).
        rewrite <- E. reflexivity.
      * rewrite fixr_miss in E by exact Hl. inversion E; subst.
        destruct (IH _ _ (no_hr_tail _ _ Hw) H1) as (s2 & -> & Hs2).
        exists s2. auto.
Qed.

(** A rewritten link is copied by a second run. *)
Lemma fixr_rewritten b t :
  target b ->
  fixr (href_open ++ (py "./" ++ b) ++ DQ :: t)
  = href_open ++ (py "./" ++ b) ++ DQ :: fixr t.
Proof.
  intros Hb.
  change (fixr ("h"%char :: py "ref=\q./" ++ b ++ DQ :: t)
          = "h"%char :: py "ref=\q./" ++ b ++ DQ :: fixr t).
  rewrite fixr_miss.
  2:{ intros (b0 & rest & Hb0 & E).
      destruct (target_head b0 Hb0) as (u & b' & -> & Hu).
      inversion E. congruence. }
  f_equal.
  rewrite (fixr_clean (py "ref=\q./")) by reflexivity. f_equal.
  change (b ++ DQ :: t) with (b ++ [DQ] ++ t).
  rewrite app_assoc, fixr_clean by (apply target_clean; exact Hb).
  rewrite <- app_assoc. reflexivity.
Qed.

Lemma fixr_twice s : fixr (fixr s) = fixr s.
Proof.
  remember (length s) as n eqn:Hn. revert s Hn.
  induction n as [n IH] using lt_wf_ind. intros s Hn.
  destruct s as [|c s'].
  - rewrite fixr_nil. apply fixr_nil.
  - destruct (fixr_link_dec (c :: s')) as [Hl | Hl].
    + destruct Hl as (b & rest & Hb & El).
      rewrite El, fixr_hit by exact Hb.
      rewrite fixr_rewritten by exact Hb.
      rewrite (IH (length rest)) with (s := rest); auto.
      subst n. rewrite El, !length_app. simpl. lia.
    + rewrite fixr_miss by exact Hl.
      rewrite fixr_miss.
      * rewrite (IH (length s')) with (s := s'); auto. subst n; simpl; lia.
      * intros (b & rest & Hb & E). apply Hl.
        inversion E as [[Ec Es]].
        assert (Hw : no_hr (py "ref=\q" ++ b ++ [DQ]) = true).
        { apply no_hr_app; [reflexivity|]. apply target_clean. exact Hb. }
        destruct (fixr_prefix_inv _ s' rest Hw) as (s2 & -> & _).
        { rewrite Es. rewrite <- ?app_assoc. reflexivity. }
        exists b, s2. split; [exact Hb|].
        rewrite <- ?app_assoc. reflexivity.
Qed.

End DotSlashTwice.

Lemma index_target_head P page :
  forallb is_upper P = true -> pillar_page P page ->
  exists u b', page = u :: b' /\ u <> "."%char.
Proof.
  intros HP (D & tail & -> & HD & HD' & _). destruct P as [|u P].
  - destruct D as [|d D]; [congruence|]. exists d, (D ++ tail ++ py ".html").
    split; [reflexivity|]. intros ->. discriminate.
  - exists u, (P ++ D ++ tail ++ py ".html"). split; [reflexivity|].
    intros ->. discriminate.
Qed.

Lemma bp_suffix_not_h tail : bp_suffix tail -> forallb not_h tail = true.
Proof.
  intros [-> | (D2 & -> & _ & H)]; [reflexivity|].
  apply forallb_app_true; [reflexivity|].
  eapply forallb_impl; [apply digit_not_h|exact H].
Qed.

Lemma index_target_clean P page :
  forallb is_upper P = true -> pillar_page P page ->
  no_hr (page ++ [DQ]) = true.
Proof.
  intros HP (D & tail & -> & _ & HD & Ht).
  replace ((P ++ D ++ tail ++ py ".html") ++ [DQ])
    with ((P ++ D ++ tail) ++ py ".html\q")
    by (rewrite <- !app_assoc; reflexivity).
  apply no_hr_app; [|reflexivity].
  apply forallb_app_true; [eapply forallb_impl; [apply upper_not_h|exact HP]|].
  apply forallb_app_true; [eapply forallb_impl; [apply digit_not_h|exact HD]|].
  apply bp_suffix_not_h. exact Ht.
Qed.

Lemma no_bp_page_decide P s :
  re_search (FixRelativeLinks.question_pattern P) s = None ->
  forall pre page post,
    bp_page P page -> s <> pre ++ py "href=\q" ++ page ++ py "\q" ++ post.
Proof.
  intros E pre page post Hp ->.
  apply (search_from_complete (FixRelativeLinks.question_pattern P) 0 pre)
    in E; auto.
  exact (question_links_match_complete P (0 + length pre) _ post Hp).
Qed.

(** X6: [fix_pillar_question_links] puts './' in front of every link to
    a best-practice page of the pillar, href="<P><digits>-BP<digits>.html",
    wherever it stands; a text without such a link is returned as it is,
    so that links to question pages, which [fix_pillar_index_links]
    rewrites, are left alone here. *)
Theorem question_links_substitution :
  (forall P pre page post,
      forallb is_upper P = true -> bp_page P page ->
      FixRelativeLinks.question_updated_content P
        (pre ++ py "href=\q" ++ page ++ py "\q" ++ post)
      = FixRelativeLinks.question_updated_content P pre
          ++ py "href=\q./" ++ page ++ py "\q"
          ++ FixRelativeLinks.question_updated_content P post)
  /\ (forall P s,
         forallb is_upper P = true ->
         (forall pre page post,
             bp_page P page ->
             s <> pre ++ py "href=\q" ++ page ++ py "\q" ++ post) ->
         FixRelativeLinks.question_updated_content P s = s).
Proof.
  split.
  - intros P pre page post HP Hpage.
    unfold FixRelativeLinks.question_updated_content.
    pose proof (re_sub_occurrence (FixRelativeLinks.question_pattern P)
                  (bp_page P) (fun b => py "./" ++ b)
                  FixRelativeLinks.replace_link
                  (question_links_match_iff P HP)
                  (fun b => bp_page_plain P b HP) index_links_repl
                  pre page post Hpage) as H.
    unfold href_open in H.
    rewrite <- ?app_assoc in H. rewrite <- ?app_assoc. exact H.
  - intros P s HP Hs. unfold FixRelativeLinks.question_updated_content.
    apply (re_sub_no_occurrence (FixRelativeLinks.question_pattern P)
             (bp_page P) (fun b => py "./" ++ b)
             FixRelativeLinks.replace_link
             (question_links_match_iff P HP) index_links_repl).
    intros pre b post Hb E.
    apply (Hs pre b post Hb). rewrite E. unfold href_open. reflexivity.
Qed.

Lemma question_links_substitution_witness :
  (bp_page (py "SEC") (py "SEC01-BP02.html")
   /\ FixRelativeLinks.question_updated_content (py "SEC")
        (py "<li><a href=\qSEC01-BP02.html\q>BP02</a></li>")
      = py "<li><a href=\q./SEC01-BP02.html\q>BP02</a></li>")
  /\ FixRelativeLinks.question_updated_content (py "SEC")
       (py "<a href=\qSEC01.html\q>question page</a>")
     = py "<a href=\qSEC01.html\q>question page</a>".
Proof.
  destruct question_links_substitution as (H1 & H2).
  assert (Pg : bp_page (py "SEC") (py "SEC01-BP02.html")).
  { exists (py "01"), (py "02"). repeat split; discriminate. }
  split; [split; [exact Pg|]|].
  - replace (py "<li><a href=\qSEC01-BP02.html\q>BP02</a></li>")
      with (py "<li><a " ++ py "href=\q" ++ py "SEC01-BP02.html" ++ py "\q"
               ++ py ">BP02</a></li>")
      by (vm_compute; reflexivity).
    rewrite (H1 (py "SEC") _ _ _ eq_refl Pg). vm_compute. reflexivity.
  - apply H2; [reflexivity|]. apply no_bp_page_decide.
    vm_compute. reflexivity.
Defined.

(** X7: each of the three link-fixing functions writes its file and
    returns [True] exactly when the text holds a link of the kind it
    rewrites; the text written then differs from the text read.  Without
    such a link nothing is written and [False] is returned. *)
Theorem link_fixers_write_iff_link :
  (forall content,
      ((exists pre id post,
           pillar_link id
           /\ content = pre ++ py "href=\q./" ++ id ++ py "\q" ++ post) ->
       FixAllPillarLinks.fix_pillar_links content
       = (Some (FixAllPillarLinks.updated_content content), true)
       /\ FixAllPillarLinks.updated_content content <> content)
      /\ ((forall pre id post,
              pillar_link id ->
              content <> pre ++ py "href=\q./" ++ id ++ py "\q" ++ post) ->
          FixAllPillarLinks.fix_pillar_links content = (None, false)))
  /\ (forall P content,
         forallb is_upper P = true ->
         ((exists pre page post,
              pillar_page P page
              /\ content = pre ++ py "href=\q" ++ page ++ py "\q" ++ post) ->
          FixRelativeLinks.fix_pillar_index_links P content
          = (Some (FixRelativeLinks.updated_content P content), true)
          /\ FixRelativeLinks.updated_content P content <> content)
         /\ ((forall pre page post,
                 pillar_page P page ->
                 content <> pre ++ py "href=\q" ++ page ++ py "\q" ++ post) ->
             FixRelativeLinks.fix_pillar_index_links P content
             = (None, false)))
  /\ (forall P content,
         forallb is_upper P = true ->
         ((exists pre page post,
              bp_page P page
              /\ content = pre ++ py "href=\q" ++ page ++ py "\q" ++ post) ->
          FixRelativeLinks.fix_pillar_question_links P content
          = (Some (FixRelativeLinks.question_updated_content P content), true)
          /\ FixRelativeLinks.question_updated_content P content <> content)
         /\ ((forall pre page post,
                 bp_page P page ->
                 content <> pre ++ py "href=\q" ++ page ++ py "\q" ++ post) ->
             FixRelativeLinks.fix_pillar_question_links P content
             = (None, false))).
Proof.
  split; [|split].
  - intros content.
    pose proof (written_iff_link FixAllPillarLinks.pattern dot_slash_target
                  (fun b => skipn 2 b ++ py ".html")
                  FixAllPillarLinks.replace_link
                  fix_links_match_iff dot_slash_target_plain fix_links_repl)
      as W.
    assert (L : forall b : str,
               dot_slash_target b ->
               length b < length (skipn 2 b ++ py ".html")).
    { intros b (id & -> & _).
      change (skipn 2 (py "./" ++ id)) with id.
      rewrite !length_app. simpl. lia. }
    destruct (W L content) as [W1 W2].
    split.
    + intros (pre & id & post & Hid & E). apply W1.
      exists pre, (py "./" ++ id), post. split.
      * exists id. auto.
      * rewrite E. unfold href_open. rewrite <- ?app_assoc. reflexivity.
    + intros H. apply W2. intros pre b post (id & -> & Hid) E.
      apply (H pre id post Hid). rewrite E. unfold href_open.
      rewrite <- ?app_assoc. reflexivity.
  - intros P content HP.
    pose proof (written_iff_link (FixRelativeLinks.pattern P) (pillar_page P)
                  (fun b => py "./" ++ b) FixRelativeLinks.replace_link
                  (index_links_match_iff P HP)
                  (fun b => pillar_page_plain P b HP) index_links_repl)
      as W.
    assert (L : forall b : str, length b < length (py "./" ++ b))
      by (intros b; simpl; lia).
    destruct (W (fun b _ => L b) content) as [W1 W2].
    split.
    + intros (pre & page & post & Hp & E). apply W1.
      exists pre, page, post. split; [exact Hp|exact E].
    + intros H. apply W2. intros pre b post Hb E.
      apply (H pre b post Hb). exact E.
  - intros P content HP.
    pose proof (written_iff_link (FixRelativeLinks.question_pattern P)
                  (bp_page P)
                  (fun b => py "./" ++ b) FixRelativeLinks.replace_link
                  (question_links_match_iff P HP)
                  (fun b => bp_page_plain P b HP) index_links_repl)
      as W.
    assert (L : forall b : str, length b < length (py "./" ++ b))
      by (intros b; simpl; lia).
    destruct (W (fun b _ => L b) content) as [W1 W2].
    split.
    + intros (pre & page & post & Hp & E). apply W1.
      exists pre, page, post. split; [exact Hp|exact E].
    + intros H. apply W2. intros pre b post Hb E.
      apply (H pre b post Hb). exact E.
Qed.

Lemma link_fixers_write_iff_link_witness :
  (FixAllPillarLinks.fix_pillar_links (py "<a href=\q./SEC01\q>One</a>")
   = (Some (FixAllPillarLinks.updated_content
              (py "<a href=\q./SEC01\q>One</a>")), true)
   /\ FixAllPillarLinks.updated_content (py "<a href=\q./SEC01\q>One</a>")
      <> py "<a href=\q./SEC01\q>One</a>")
  /\ FixAllPillarLinks.fix_pillar_links (py "<a href=\qSEC01.html\q>One</a>")
     = (None, false)
  /\ (FixRelativeLinks.fix_pillar_index_links (py "SEC")
        (py "<a href=\qSEC01.html\q>One</a>")
      = (Some (FixRelativeLinks.updated_content (py "SEC")
                 (py "<a href=\qSEC01.html\q>One</a>")), true)
      /\ FixRelativeLinks.updated_content (py "SEC")
           (py "<a href=\qSEC01.html\q>One</a>")
         <> py "<a href=\qSEC01.html\q>One</a>")
  /\ FixRelativeLinks.fix_pillar_index_links (py "SEC")
       (py "<a href=\qREL01.html\q>One</a>")
     = (None, false)
  /\ (FixRelativeLinks.fix_pillar_question_links (py "SEC")
        (py "<a href=\qSEC01-BP02.html\q>Two</a>")
      = (Some (FixRelativeLinks.question_updated_content (py "SEC")
                 (py "<a href=\qSEC01-BP02.html\q>Two</a>")), true)
      /\ FixRelativeLinks.question_updated_content (py "SEC")
           (py "<a href=\qSEC01-BP02.html\q>Two</a>")
         <> py "<a href=\qSEC01-BP02.html\q>Two</a>")
  /\ FixRelativeLinks.fix_pillar_question_links (py "SEC")
       (py "<a href=\qSEC01.html\q>One</a>")
     = (None, false).
Proof.
  destruct link_fixers_write_iff_link as (H1 & H2 & H3).
  split; [|split; [|split; [|split; [|split]]]].
  - apply (proj1 (H1 _)).
    exists (py "<a "), (py "SEC01"), (py ">One</a>"). split.
    + exists (py "SEC"), (py "01"), []. repeat split; try discriminate.
      left; reflexivity.
    + vm_compute. reflexivity.
  - apply (proj2 (H1 _)). apply no_pillar_link_decide.
    vm_compute. reflexivity.
  - apply (proj1 (H2 (py "SEC") _ eq_refl)).
    exists (py "<a "), (py "SEC01.html"), (py ">One</a>"). split.
    + exists (py "01"), []. repeat split; try discriminate.
      left; reflexivity.
    + vm_compute. reflexivity.
  - apply (proj2 (H2 (py "SEC") _ eq_refl)). apply no_pillar_page_decide.
    vm_compute. reflexivity.
  - apply (proj1 (H3 (py "SEC") _ eq_refl)).
    exists (py "<a "), (py "SEC01-BP02.html"), (py ">Two</a>"). split.
    + exists (py "01"), (py "02"). repeat split; discriminate.
    + vm_compute. reflexivity.
  - apply (proj2 (H3 (py "SEC") _ eq_refl)). apply no_bp_page_decide.
    vm_compute. reflexivity.
Defined.

(** X8: the two functions of scripts/fix_relative_links.py are
    idempotent on the text: a rewritten link href="./<page>" is not of
    the form the pattern looks for, so a second run changes nothing,
    writes nothing and returns [False]. *)
Theorem relative_links_idempotent :
  forall P content,
    forallb is_upper P = true ->
    FixRelativeLinks.updated_content P
      (FixRelativeLinks.updated_content P content)
    = FixRelativeLinks.updated_content P content
    /\ FixRelativeLinks.question_updated_content P
         (FixRelativeLinks.question_updated_content P content)
       = FixRelativeLinks.question_updated_content P content
    /\ FixRelativeLinks.fix_pillar_index_links P
         (FixRelativeLinks.updated_content P content) = (None, false)
    /\ FixRelativeLinks.fix_pillar_question_links P
         (FixRelativeLinks.question_updated_content P content)
       = (None, false).
Proof.
  intros P content HP.
  assert (A : forall s,
             FixRelativeLinks.updated_content P
               (FixRelativeLinks.updated_content P s)
             = FixRelativeLinks.updated_content P s).
  { apply (fixr_twice (FixRelativeLinks.pattern P) (pillar_page P)
             FixRelativeLinks.replace_link
             (index_links_match_iff P HP) index_links_repl).
    - intros b Hb. apply (index_target_head P b HP Hb).
    - intros b Hb. apply (index_target_clean P b HP Hb). }
  assert (B : forall s,
             FixRelativeLinks.question_updated_content P
               (FixRelativeLinks.question_updated_content P s)
             = FixRelativeLinks.question_updated_content P s).
  { apply (fixr_twice (FixRelativeLinks.question_pattern P) (bp_page P)
             FixRelativeLinks.replace_link
             (question_links_match_iff P HP) index_links_repl).
    - intros b Hb.
      apply (index_target_head P b HP (bp_page_pillar_page P b Hb)).
    - intros b Hb.
      apply (index_target_clean P b HP (bp_page_pillar_page P b Hb)). }
  split; [apply A|]. split; [apply B|].
  unfold FixRelativeLinks.fix_pillar_index_links,
    FixRelativeLinks.fix_pillar_question_links.
  rewrite A, B, !str_eqb_refl. split; reflexivity.
Qed.

Lemma relative_links_idempotent_witness :
  FixRelativeLinks.updated_content (py "SEC")
    (FixRelativeLinks.updated_content (py "SEC")
       (py "<a href=\qSEC01.html\q>One</a>"))
  = FixRelativeLinks.updated_content (py "SEC")
      (py "<a href=\qSEC01.html\q>One</a>")
  /\ FixRelativeLinks.fix_pillar_question_links (py "SEC")
       (FixRelativeLinks.question_updated_content (py "SEC")
          (py "<a href=\qSEC01-BP02.html\q>Two</a>"))
     = (None, false).
Proof.
  split.
  - apply (relative_links_idempotent (py "SEC")
             (py "<a href=\qSEC01.html\q>One</a>") eq_refl).
  - apply (relative_links_idempotent (py "SEC")
             (py "<a href=\qSEC01-BP02.html\q>Two</a>") eq_refl).
Defined.

(** X9: the two scripts in a row.  [fix_pillar_links] turns
    href="./<P><digits>" (with or without a -BP part) into
    href="<P><digits>.html", and [fix_pillar_index_links] for the pillar
    [P] turns that into href="./<P><digits>.html": the './' removed by
    the first script is put back by the second, in front of the name
    with its extension. *)
Theorem pillar_then_relative_links :
  forall P D tail pre post,
    P <> [] -> forallb is_upper P = true ->
    D <> [] -> forallb is_digit D = true -> bp_suffix tail ->
    FixRelativeLinks.updated_content P
      (FixAllPillarLinks.updated_content
         (pre ++ py "href=\q./" ++ (P ++ D ++ tail) ++ py "\q" ++ post))
    = FixRelativeLinks.updated_content P
        (FixAllPillarLinks.updated_content pre)
        ++ py "href=\q./" ++ (P ++ D ++ tail ++ py ".html") ++ py "\q"
        ++ FixRelativeLinks.updated_content P
             (FixAllPillarLinks.updated_content post).
Proof.
  intros P D tail pre post HP HP' HD HD' Ht.
  assert (Hid : dot_slash_target (py "./" ++ P ++ D ++ tail)).
  { exists (P ++ D ++ tail). split; [reflexivity|].
    exists P, D, tail. repeat split; auto. }
  assert (Hpage : pillar_page P (P ++ D ++ tail ++ py ".html")).
  { exists D, tail. repeat split; auto. }
  unfold FixAllPillarLinks.updated_content, FixRelativeLinks.updated_content.
  pose proof (re_sub_occurrence FixAllPillarLinks.pattern dot_slash_target
                (fun b => skipn 2 b ++ py ".html")
                FixAllPillarLinks.replace_link
                fix_links_match_iff dot_slash_target_plain fix_links_repl
                pre (py "./" ++ P ++ D ++ tail) post Hid) as H1.
  cbv beta in H1.
  change (skipn 2 (py "./" ++ P ++ D ++ tail)) with (P ++ D ++ tail) in H1.
  unfold href_open in H1. rewrite <- ?app_assoc in H1.
  rewrite <- ?app_assoc. 
  change (py "\q" ++ post) with (DQ :: post).
  change (py "href=\q./" ++ P ++ D ++ tail ++ DQ :: post)
    with (py "href=\q" ++ py "./" ++ P ++ D ++ tail ++ DQ :: post).
  rewrite H1.
  pose proof (re_sub_occurrence (FixRelativeLinks.pattern P) (pillar_page P)
                (fun b => py "./" ++ b)
                FixRelativeLinks.replace_link
                (index_links_match_iff P HP')
                (fun b => pillar_page_plain P b HP') index_links_repl
                (re_sub FixAllPillarLinks.pattern
                        FixAllPillarLinks.replace_link pre)
                (P ++ D ++ tail ++ py ".html")
                (re_sub FixAllPillarLinks.pattern
                        FixAllPillarLinks.replace_link post) Hpage) as H2.
  unfold href_open in H2. rewrite <- ?app_assoc in H2.
  rewrite H2. reflexivity.
Qed.

Lemma pillar_then_relative_links_witness :
  FixRelativeLinks.updated_content (py "SEC")
    (FixAllPillarLinks.updated_content
       (py "<li>" ++ py "href=\q./" ++ (py "SEC" ++ py "01" ++ py "-BP02")
           ++ py "\q" ++ py "</li>"))
  = FixRelativeLinks.updated_content (py "SEC")
      (FixAllPillarLinks.updated_content (py "<li>"))
      ++ py "href=\q./" ++ (py "SEC" ++ py "01" ++ py "-BP02" ++ py ".html")
      ++ py "\q"
      ++ FixRelativeLinks.updated_content (py "SEC")
           (FixAllPillarLinks.updated_content (py "</li>")).
Proof.
  apply (pillar_then_relative_links (py "SEC") (py "01") (py "-BP02")
           (py "<li>") (py "</li>")).
  - discriminate.
  - reflexivity.
  - discriminate.
  - reflexivity.
  - right. exists (py "02"). repeat split; discriminate.
Defined.

(** ** Running scripts/update_pillar_order.py again *)

Section NavOrderAgain.

Import UpdatePillarOrder.

Lemma terminated_ok_head l L : terminated l -> lines_ok L -> lines_ok (l :: L).
Proof.
  intros Hl HL. simpl. destruct L; [left; exact Hl|split; assumption].
Qed.

Lemma lines_ok_tail l L : lines_ok (l :: L) -> lines_ok L.
Proof. simpl. destruct L; [reflexivity|]. intros [_ H]. exact H. Qed.

Lemma readlines_ok content : lines_ok (readlines content).
Proof.
  induction content as [|c s IH]; [exact I|].
  simpl. destruct (Ascii.eqb c LF) eqn:E.
  - apply Ascii.eqb_eq in E. subst c. apply terminated_ok_head; [|exact IH].
    exists []. split; reflexivity.
  - assert (Hc : not_newline c = true) by (unfold not_newline; rewrite E; reflexivity).
    destruct (readlines s) as [|l ls].
    + simpl. right. split; [discriminate|]. rewrite Hc. reflexivity.
    + simpl in *. destruct ls.
      * destruct IH as [(body & -> & Hb) | [Hn Hb]].
        -- left. exists (c :: body). simpl. rewrite Hc. auto.
        -- right. split; [discriminate|]. simpl. rewrite Hc. exact Hb.
      * destruct IH as [(body & -> & Hb) IH]. split; [|exact IH].
        exists (c :: body). simpl. rewrite Hc. auto.
Qed.

Lemma readlines_terminated body rest :
  forallb not_newline body = true ->
  readlines ((body ++ [LF]) ++ rest) = (body ++ [LF]) :: readlines rest.
Proof.
  induction body as [|c body IH]; intros H.
  - cbn [app readlines]. rewrite Ascii.eqb_refl. reflexivity.
  - simpl in H. apply andb_true_iff in H as [Hc Hb].
    change (readlines (c :: (body ++ [LF]) ++ rest)
            = (c :: body ++ [LF]) :: readlines rest).
    cbn [readlines]. rewrite (IH Hb).
    unfold not_newline in Hc. apply negb_true_iff in Hc. rewrite Hc.
    reflexivity.
Qed.

Lemma readlines_last l :
  l <> [] -> forallb not_newline l = true -> readlines l = [l].
Proof.
  induction l as [|c l IH]; [congruence|]. intros _ H.
  simpl in H. apply andb_true_iff in H as [Hc Hl].
  unfold not_newline in Hc. apply negb_true_iff in Hc.
  cbn [readlines]. rewrite Hc. destruct l as [|d l]; [reflexivity|].
  rewrite IH; [reflexivity|discriminate|exact Hl].
Qed.

(** Reading back what [writelines] wrote gives the lines written. *)
Lemma readlines_of_lines L : lines_ok L -> readlines (writelines L) = L.
Proof.
  unfold writelines. induction L as [|l L IH]; [reflexivity|].
  intros H. pose proof (lines_ok_tail _ _ H) as HL. simpl concat.
  simpl in H. destruct L as [|l' L'].
  - simpl. rewrite app_nil_r.
    destruct H as [(body & -> & Hb) | [Hn Hb]].
    + rewrite <- (app_nil_r (body ++ [LF])) at 1.
      rewrite readlines_terminated by exact Hb. reflexivity.
    + apply readlines_last; assumption.
  - destruct H as [(body & -> & Hb) _].
    rewrite readlines_terminated by exact Hb. rewrite (IH HL). reflexivity.
Qed.

Lemma string_of_uint_digits d :
  forallb is_digit (list_ascii_of_string (NilEmpty.string_of_uint d)) = true.
Proof. induction d; simpl; auto. Qed.

Lemma str_of_nat_digits n : forallb is_digit (str_of_nat n) = true.
Proof. apply string_of_uint_digits. Qed.

Lemma nav_order_line_terminated n :
  terminated (py "nav_order: " ++ str_of_nat n ++ py "\n").
Proof.
  exists (py "nav_order: " ++ str_of_nat n). split.
  - rewrite <- app_assoc. reflexivity.
  - rewrite forallb_app. rewrite (digit_no_lf _ (str_of_nat_digits n)).
    reflexivity.
Qed.

Lemma set_nav_order_ok L n : lines_ok L -> lines_ok (set_nav_order L n).
Proof.
  induction L as [|l L IH]; [auto|]. intros H.
  pose proof (lines_ok_tail _ _ H) as HL. cbn [set_nav_order].
  destruct (is_nav_order_line l).
  - apply terminated_ok_head; [apply nav_order_line_terminated|exact HL].
  - specialize (IH HL). simpl in H. destruct L as [|l' L'].
    + exact H.
    + destruct H as [Hl _]. apply terminated_ok_head; assumption.
Qed.

Lemma lstrip_keeps a c b :
  is_space c = false -> exists a', lstrip (a ++ c :: b) = a' ++ c :: b.
Proof.
  intros Hc. induction a as [|x a IH]; simpl.
  - rewrite Hc. exists []. reflexivity.
  - destruct (is_space x); [exact IH|]. exists (x :: a). reflexivity.
Qed.

(** The line written is itself found by the loop. *)
Lemma nav_order_line_found n :
  is_nav_order_line (py "nav_order: " ++ str_of_nat n ++ py "\n") = true.
Proof.
  unfold is_nav_order_line, strip.
  set (t := py " " ++ str_of_nat n ++ py "\n").
  change (py "nav_order: " ++ str_of_nat n ++ py "\n")
    with (py "nav_order:" ++ t).
  change (lstrip (py "nav_order:" ++ t)) with (py "nav_order:" ++ t).
  unfold rstrip. rewrite rev_app_distr.
  change (rev (py "nav_order:")) with (":"%char :: py "redro_van").
  destruct (lstrip_keeps (rev t) ":"%char (py "redro_van") eq_refl)
    as [a' ->].
  rewrite rev_app_distr. apply startswith_iff.
  exists (rev a'). reflexivity.
Qed.

Lemma set_nav_order_again L n m :
  set_nav_order (set_nav_order L n) m = set_nav_order L m.
Proof.
  induction L as [|l L IH]; [reflexivity|]. cbn [set_nav_order].
  destruct (is_nav_order_line l) eqn:E; cbn [set_nav_order].
  - rewrite nav_order_line_found. reflexivity.
  - rewrite E, IH. reflexivity.
Qed.

Lemma universal_newlines_no_cr raw : ~ In CR (universal_newlines raw).
Proof.
  remember (length raw) as k eqn:Hk. revert raw Hk.
  induction k as [k IH] using lt_wf_ind. intros raw Hk.
  destruct raw as [|c s]; [intros []|].
  cbn [universal_newlines]. destruct (Ascii.eqb_spec c CR) as [->|Hc].
  - intros [H | H]; [vm_compute in H; discriminate|].
    destruct s as [|d s']; [destruct H|].
    destruct (Ascii.eqb d LF).
    + apply (IH (length s')) with (raw := s'); [subst k; simpl; lia| |exact H].
      reflexivity.
    + apply (IH (length (d :: s'))) with (raw := d :: s');
        [subst k; simpl; lia|reflexivity|exact H].
  - intros [H | H]; [congruence|].
    apply (IH (length s)) with (raw := s); [subst k; simpl; lia| |exact H].
    reflexivity.
Qed.

Lemma nav_order_line_no_cr n :
  ~ In CR (py "nav_order: " ++ str_of_nat n ++ py "\n").
Proof.
  intros H. apply in_app_or in H as [H | H].
  - vm_compute in H.
    repeat (destruct H as [H | H]; [discriminate H|]). destruct H.
  - apply in_app_or in H as [H | H].
    + pose proof (str_of_nat_digits n) as Hd. rewrite forallb_forall in Hd.
      specialize (Hd _ H). vm_compute in Hd. discriminate.
    + vm_compute in H. destruct H as [H | []]. discriminate H.
Qed.

Lemma set_nav_order_no_cr text n :
  ~ In CR text ->
  ~ In CR (writelines (set_nav_order (readlines text) n)).
Proof.
  intros Ht.
  destruct (set_nav_order_spec (readlines text) n)
    as [[_ ->] | (b & x & a & E & _ & _ & ->)].
  - rewrite readlines_writelines. exact Ht.
  - pose proof (readlines_writelines text) as Hw. rewrite E in Hw.
    unfold writelines in *. rewrite concat_app in *. cbn [concat] in *.
    intros Hin. apply in_app_or in Hin as [Hin | Hin].
    + apply Ht. rewrite <- Hw. apply in_or_app. left. exact Hin.
    + apply in_app_or in Hin as [Hin | Hin].
      * apply (nav_order_line_no_cr n). exact Hin.
      * apply Ht. rewrite <- Hw. apply in_or_app. right.
        apply in_or_app. right. exact Hin.
Qed.

Lemma with_nav_order_again n m content :
  with_nav_order m (with_nav_order n content) = with_nav_order m content.
Proof.
  unfold with_nav_order.
  rewrite (universal_newlines_plain
             (writelines
                (set_nav_order (readlines (universal_newlines content)) n)))
    by (apply set_nav_order_no_cr, universal_newlines_no_cr).
  rewrite readlines_of_lines
    by (apply set_nav_order_ok, readlines_ok).
  rewrite set_nav_order_again. reflexivity.
Qed.

Lemma index_path_inj a b : index_path a = index_path b -> a = b.
Proof.
  unfold index_path. intros H.
  apply app_inv_head in H. apply app_inv_tail in H. exact H.
Qed.

Lemma update_at_index fs pillar_dir n :
  fst (update_pillar_nav_order fs pillar_dir n) (index_path pillar_dir)
  = option_map (with_nav_order n) (fs (index_path pillar_dir)).
Proof.
  unfold update_pillar_nav_order.
  destruct (fs (index_path pillar_dir)) as [c|] eqn:E; cbn [fst option_map].
  - apply write_file_same.
  - exact E.
Qed.

Lemma update_elsewhere fs pillar_dir n p :
  p <> index_path pillar_dir ->
  fst (update_pillar_nav_order fs pillar_dir n) p = fs p.
Proof.
  intros H. unfold update_pillar_nav_order.
  destruct (fs (index_path pillar_dir)) as [c|]; cbn [fst];
    [apply write_file_other; exact H|reflexivity].
Qed.

Lemma update_message fs fs' pillar_dir n :
  fs (index_path pillar_dir) = None <-> fs' (index_path pillar_dir) = None ->
  snd (update_pillar_nav_order fs pillar_dir n)
  = snd (update_pillar_nav_order fs' pillar_dir n).
Proof.
  intros H. unfold update_pillar_nav_order.
  destruct (fs (index_path pillar_dir)) as [c|];
    destruct (fs' (index_path pillar_dir)) as [c'|]; cbn [snd];
    try reflexivity.
  - destruct H as [_ H]. specialize (H eq_refl). discriminate.
  - destruct H as [H _]. specialize (H eq_refl). discriminate.
Qed.

Lemma run_table_elsewhere table st p :
  (forall pillar n, In (pillar, n) table -> p <> index_path pillar) ->
  fst (run_table table st) p = fst st p.
Proof.
  revert st; induction table as [|[pl k] table IH]; intros st H;
    [reflexivity|].
  unfold run_table in *. cbn [fold_left fst snd]. rewrite IH.
  - cbn [fst]. apply update_elsewhere. apply (H pl k). left. reflexivity.
  - intros pillar n Hin. apply (H pillar n). right. exact Hin.
Qed.

Lemma run_table_at table st pillar n :
  NoDup (map fst table) -> In (pillar, n) table ->
  fst (run_table table st) (index_path pillar)
  = option_map (with_nav_order n) (fst st (index_path pillar)).
Proof.
  revert st; induction table as [|[pl k] table IH]; intros st Hnd Hin;
    [destruct Hin|].
  cbn [map fst] in Hnd. inversion Hnd as [|x l Hx Hnd']; subst.
  unfold run_table in *. cbn [fold_left fst snd].
  destruct Hin as [E | Hin].
  - inversion E; subst pl k.
    rewrite (run_table_elsewhere table).
    + cbn [fst]. apply update_at_index.
    + intros pillar' n' Hin' Heq. apply index_path_inj in Heq. subst pillar'.
      apply Hx. apply (in_map fst) in Hin'. exact Hin'.
  - rewrite (IH _ Hnd' Hin). cbn [fst]. f_equal.
    apply update_elsewhere. intros Heq. apply index_path_inj in Heq.
    subst pl. apply Hx. apply (in_map fst) in Hin. exact Hin.
Qed.

Lemma run_table_messages table st :
  length (snd (run_table table st)) = length (snd st) + length table.
Proof.
  revert st; induction table as [|[pl k] table IH]; intros st;
    [simpl; lia|].
  unfold run_table in *. cbn [fold_left]. rewrite IH. cbn [snd fst].
  rewrite length_app. simpl. lia.
Qed.

Lemma pillar_order_nodup : NoDup (map fst PILLAR_ORDER).
Proof.
  unfold PILLAR_ORDER. cbn [map fst].
  repeat (apply NoDup_cons;
          [intros H; cbn [In] in H;
           repeat (destruct H as [H | H];
                   [vm_compute in H; discriminate H|]);
           exact H|]).
  apply NoDup_nil.
Qed.

End NavOrderAgain.

(** X10: [main] of scripts/update_pillar_order.py changes the six index
    files of its table and nothing else: a file that is not the index
    file of one of the six pillars is left as it is (also a missing one
    stays missing), each of the six index files that exists gets the
    number the table gives it, the six directories being different so
    that no update undoes another, and six lines are printed. *)
Theorem nav_order_main_frame :
  forall fs : UpdatePillarOrder.file_system,
    (forall p,
        (forall pillar n,
            In (pillar, n) UpdatePillarOrder.PILLAR_ORDER ->
            p <> UpdatePillarOrder.index_path pillar) ->
        fst (UpdatePillarOrder.main fs) p = fs p)
    /\ (forall pillar n,
           In (pillar, n) UpdatePillarOrder.PILLAR_ORDER ->
           fst (UpdatePillarOrder.main fs) (UpdatePillarOrder.index_path pillar)
           = option_map (with_nav_order n)
                        (fs (UpdatePillarOrder.index_path pillar)))
    /\ length (snd (UpdatePillarOrder.main fs)) = 6.
Proof.
  intros fs. split; [|split].
  - intros p H.
    apply (run_table_elsewhere UpdatePillarOrder.PILLAR_ORDER (fs, []) p H).
  - intros pillar n Hin.
    apply (run_table_at UpdatePillarOrder.PILLAR_ORDER (fs, []) pillar n
             pillar_order_nodup Hin).
  - apply (run_table_messages UpdatePillarOrder.PILLAR_ORDER (fs, [])).
Qed.

Lemma nav_order_main_frame_witness :
  fst (UpdatePillarOrder.main fs_security) (py "./docs/index.md")
  = fs_security (py "./docs/index.md")
  /\ fst (UpdatePillarOrder.main fs_security)
         (UpdatePillarOrder.index_path (py "security"))
     = option_map (with_nav_order 2)
                  (fs_security (UpdatePillarOrder.index_path (py "security"))).
Proof.
  destruct (nav_order_main_frame fs_security) as (H1 & H2 & _).
  split.
  - apply H1. intros pillar n Hin.
    unfold UpdatePillarOrder.PILLAR_ORDER in Hin. cbn [In] in Hin.
    repeat (destruct Hin as [Hin | Hin];
            [inversion Hin; subst; vm_compute; discriminate|]).
    destruct Hin.
  - apply H2. left. reflexivity.
Defined.

(** X11: running [update_pillar_nav_order] again, with the same or with
    another number, gives the file system and the message of a single
    run with the last number: the line written by the first run is the
    line found by the second, and reading back the lines written gives
    those lines. *)
Theorem nav_order_last_run_wins :
  forall (fs : UpdatePillarOrder.file_system) pillar_dir n m,
    (forall p,
        fst (UpdatePillarOrder.update_pillar_nav_order
               (fst (UpdatePillarOrder.update_pillar_nav_order fs pillar_dir n))
               pillar_dir m) p
        = fst (UpdatePillarOrder.update_pillar_nav_order fs pillar_dir m) p)
    /\ snd (UpdatePillarOrder.update_pillar_nav_order
              (fst (UpdatePillarOrder.update_pillar_nav_order fs pillar_dir n))
              pillar_dir m)
       = snd (UpdatePillarOrder.update_pillar_nav_order fs pillar_dir m).
Proof.
  intros fs pillar_dir n m. split.
  - intros p.
    destruct (str_eqb p (UpdatePillarOrder.index_path pillar_dir)) eqn:E.
    + apply str_eqb_eq in E. subst p.
      rewrite !update_at_index.
      destruct (fs (UpdatePillarOrder.index_path pillar_dir)) as [c|];
        [|reflexivity].
      cbn [option_map]. rewrite with_nav_order_again. reflexivity.
    + assert (Hp : p <> UpdatePillarOrder.index_path pillar_dir).
      { intros ->. rewrite str_eqb_refl in E. discriminate. }
      rewrite !update_elsewhere by exact Hp. reflexivity.
  - apply update_message. rewrite update_at_index.
    destruct (fs (UpdatePillarOrder.index_path pillar_dir));
      cbn [option_map]; split; intros H; (exact H || discriminate H).
Qed.

(** ** What the page generator collects and writes *)

Section Collect.

Import GenerateWafrPages.

Lemma question_match_sound t m :
  re_match question_re t = Some m ->
  well_formed_question {| id := group 1 (m_groups m);
                          title := group 2 (m_groups m) |}.
Proof.
  unfold re_match. intros H.
  apply match_at_sound in H as (w & c & M & E & ->).
  unfold question_re in M. inv_matches. cbn [m_groups m_rest group] in *.
  change (Nat.eqb 1 2) with false. change (Nat.eqb 1 1) with true.
  change (Nat.eqb 2 2) with true. cbv iota.
  unfold well_formed_question. cbn [id title].
  match goal with
  | HU : forallb is_upper ?U = true, HD : forallb is_digit ?D = true,
    HT : forallb not_newline ?T = true |- _ =>
      split;
      [ exists U, D; split;
        [ eapply firstn_exact;
          [rewrite app_assoc; reflexivity|rewrite !length_app; lia]
        | repeat split; auto using nonempty_length ]
      | replace (firstn _ (T ++ _)) with T; [exact HT|];
        symmetry; eapply firstn_exact;
        [reflexivity|cbn [length]; lia] ]
  end.
Qed.

Lemma dict_append_keys d pillar q :
  map fst (dict_append d pillar q) = map fst d.
Proof.
  induction d as [|[k qs] d IH]; [reflexivity|]. cbn [dict_append].
  destruct (str_eqb k pillar); cbn [map fst]; [reflexivity|].
  rewrite IH. reflexivity.
Qed.

Lemma dict_append_all P d pillar q :
  all_questions P d -> P q -> all_questions P (dict_append d pillar q).
Proof.
  unfold all_questions.
  induction d as [|[k qs] d IH]; intros Hd Hq pl qs' q' Hin Hq';
    [destruct Hin|].
  cbn [dict_append] in Hin. destruct (str_eqb k pillar).
  - destruct Hin as [E | Hin].
    + inversion E; subst. apply in_app_or in Hq' as [Hq' | [<- | []]].
      * apply (Hd pl qs q'); [left; reflexivity|exact Hq'].
      * exact Hq.
    + apply (Hd pl qs' q'); [right; exact Hin|exact Hq'].
  - destruct Hin as [E | Hin].
    + inversion E; subst. apply (Hd pl qs' q'); [left; reflexivity|exact Hq'].
    + apply (IH (fun a b c H1 H2 => Hd a b c (or_intror H1) H2) Hq
                pl qs' q' Hin Hq').
Qed.

Lemma add_questions_inv d current_pillar dt_elements :
  all_questions well_formed_question d ->
  map fst (add_questions d current_pillar dt_elements) = map fst d
  /\ all_questions well_formed_question
       (add_questions d current_pillar dt_elements).
Proof.
  unfold add_questions. revert d.
  induction dt_elements as [|dt dts IH]; intros d Hd; [auto|].
  cbn [fold_left].
  destruct (re_match question_re (strip dt)) as [m|] eqn:E.
  - destruct (IH (dict_append d current_pillar
                    {| id := group 1 (m_groups m);
                       title := group 2 (m_groups m) |})) as [H1 H2].
    + apply dict_append_all; [exact Hd|].
      apply (question_match_sound _ _ E).
    + rewrite H1, dict_append_keys. auto.
  - apply IH. exact Hd.
Qed.

Lemma collect_questions_inv h2_elements current d :
  all_questions well_formed_question d ->
  let st' :=
    fold_left
      (fun st h2 =>
         let pillar_text := strip (get_text h2) in
         let current_pillar := heading_pillar (fst st) pillar_text in
         match current_pillar with
         | Some pillar =>
             match pillar with
             | [] => (current_pillar, snd st)
             | _ :: _ =>
                 match find_next_variablelist h2 with
                 | Some dt_elements =>
                     (current_pillar,
                      add_questions (snd st) pillar dt_elements)
                 | None => (current_pillar, snd st)
                 end
             end
         | None => (current_pillar, snd st)
         end)
      h2_elements (current, d) in
  map fst (snd st') = map fst d
  /\ all_questions well_formed_question (snd st').
Proof.
  revert current d.
  induction h2_elements as [|h2 h2s IH]; intros current d Hd; [auto|].
  cbn [fold_left fst snd]. cbv zeta.
  destruct (heading_pillar current (strip (get_text h2))) as [[|c pl]|];
    try (apply IH; exact Hd).
  destruct (find_next_variablelist h2) as [dts|]; [|apply IH; exact Hd].
  destruct (add_questions_inv d (c :: pl) dts Hd) as [H1 H2].
  destruct (IH (Some (c :: pl)) (add_questions d (c :: pl) dts) H2)
    as [H3 H4].
  split; [etransitivity; [exact H3|exact H1]|exact H4].
Qed.

End Collect.

Lemma collect_questions_keys h2_elements :
  map fst (GenerateWafrPages.collect_questions h2_elements)
  = map fst GenerateWafrPages.PILLARS
  /\ all_questions well_formed_question
       (GenerateWafrPages.collect_questions h2_elements).
Proof.
  destruct (collect_questions_inv h2_elements None
              (map (fun p => (fst p, [])) GenerateWafrPages.PILLARS))
    as [H1 H2].
  { intros pillar qs q Hin Hq. unfold GenerateWafrPages.PILLARS in Hin.
    cbn [map fst In] in Hin.
    repeat (destruct Hin as [Hin | Hin];
            [inversion Hin; subst; destruct Hq|]).
    destruct Hin. }
  split; [|exact H2].
  etransitivity; [exact H1|]. rewrite map_map. reflexivity.
Qed.

(** X12: what [fetch_wafr_questions] collects from the page, whatever
    the page holds: the dictionary has the six pillars of [PILLARS] as
    its keys, in that order, so it is never empty and a page that was
    read is never taken for a failure by [main]; and every question in
    it has an identifier made of capital letters followed by digits and
    a title without a line feed. *)
Theorem collect_questions_invariants :
  forall h2_elements,
    map fst (GenerateWafrPages.collect_questions h2_elements)
    = map fst GenerateWafrPages.PILLARS
    /\ all_questions well_formed_question
         (GenerateWafrPages.collect_questions h2_elements)
    /\ GenerateWafrPages.falsy
         (Some (GenerateWafrPages.collect_questions h2_elements)) = false.
Proof.
  intros h2_elements.
  destruct (collect_questions_keys h2_elements) as [K H2].
  split; [exact K|]. split; [exact H2|].
  destruct (GenerateWafrPages.collect_questions h2_elements);
    [discriminate K|reflexivity].
Qed.

Lemma collect_questions_invariants_witness :
  well_formed_question
    {| GenerateWafrPages.id := py "SEC01";
       GenerateWafrPages.title :=
         py "How do you securely operate your workload?" |}.
Proof.
  destruct (collect_questions_invariants
              [ {| GenerateWafrPages.get_text := py " Security ";
                   GenerateWafrPages.find_next_variablelist :=
                     Some [ py "SEC01: How do you securely operate your workload?";
                            py "not a question" ] |} ]) as (_ & H & _).
  apply (H (py "Security")
           [ {| GenerateWafrPages.id := py "SEC01";
                GenerateWafrPages.title :=
                  py "How do you securely operate your workload?" |} ]);
    [|left; reflexivity].
  vm_compute. right. left. reflexivity.
Defined.

Section Generate.

Import GenerateWafrPages.

Lemma generate_questions_run pillar l r :
  let r' := fold_left
              (fun r iq => generate_question_file pillar (snd iq) (fst iq) r)
              l r in
  files r' = files r
             ++ map (fun iq => (question_file_path pillar (snd iq),
                                question_file_content pillar (snd iq) (fst iq)))
                    l
  /\ stdout r' = stdout r
                 ++ map (fun iq => py "Generated file: "
                                      ++ question_file_path pillar (snd iq)) l
  /\ exit_code r' = exit_code r.
Proof.
  revert r. induction l as [|iq l IH]; intros r.
  - cbn [fold_left map]. rewrite !app_nil_r. auto.
  - cbn [fold_left map]. destruct (IH (generate_question_file pillar (snd iq) (fst iq) r))
      as (H1 & H2 & H3).
    cbv zeta in *. rewrite H1, H2, H3. cbn [generate_question_file files stdout exit_code].
    rewrite <- !app_assoc. auto.
Qed.

Lemma generate_pillars_run d r :
  let r' := fold_left generate_pillar d r in
  files r' = files r ++ question_files d
  /\ stdout r' = stdout r ++ question_lines d
  /\ exit_code r' = exit_code r.
Proof.
  revert r. induction d as [|entry d IH]; intros r.
  - cbn [fold_left question_files question_lines flat_map].
    rewrite !app_nil_r. auto.
  - cbn [fold_left]. destruct (IH (generate_pillar r entry)) as (H1 & H2 & H3).
    cbv zeta in *. rewrite H1, H2, H3. unfold generate_pillar.
    destruct (generate_questions_run (fst entry)
                (ApplyStyling.enumerate1 (snd entry))
                (print (py "\nProcessing " ++ fst entry ++ py " pillar ("
                           ++ str_of_nat (length (snd entry))
                           ++ py " questions):") r)) as (G1 & G2 & G3).
    cbv zeta in *. rewrite G1, G2, G3. cbn [print files stdout exit_code].
    unfold question_files, question_lines. cbn [flat_map].
    rewrite <- !app_assoc. auto.
Qed.

End Generate.

(** X13: a run of the page generator whose page could be fetched and
    read.  It ends with exit code 0; the files written are those of the
    questions collected, pillar by pillar in the order of [PILLARS], each
    question under docs/<pillar directory>/<ID>.md with its number within
    the pillar, counted from one; and the lines printed are the two
    opening lines, a line for each pillar followed by a line for each of
    its files, and the closing line. *)
Theorem main_writes_question_files :
  forall (requests_get : str -> outcome GenerateWafrPages.response)
         (BeautifulSoup : str -> outcome (list GenerateWafrPages.h2_element))
         response h2_elements,
    requests_get GenerateWafrPages.WAFR_URL = Returned response ->
    GenerateWafrPages.raise_for_status response = Returned tt ->
    BeautifulSoup (GenerateWafrPages.text response) = Returned h2_elements ->
    GenerateWafrPages.main requests_get BeautifulSoup
    = {| GenerateWafrPages.stdout :=
           [ py "Fetching AWS Well-Architected Framework questions...";
             py "Generating Markdown files for each question..." ]
             ++ question_lines
                  (GenerateWafrPages.collect_questions h2_elements)
             ++ [ py "\nDone! All question files have been generated." ];
         GenerateWafrPages.files :=
           question_files (GenerateWafrPages.collect_questions h2_elements);
         GenerateWafrPages.exit_code := 0 |}.
Proof.
  intros requests_get BeautifulSoup response h2_elements Hg Hs Hb.
  assert (Hf : GenerateWafrPages.fetch_body requests_get BeautifulSoup
               = Returned (GenerateWafrPages.collect_questions h2_elements)).
  { unfold GenerateWafrPages.fetch_body. rewrite Hg, Hs, Hb. reflexivity. }
  destruct (collect_questions_keys h2_elements) as [K _].
  unfold GenerateWafrPages.main, GenerateWafrPages.fetch_wafr_questions.
  rewrite Hf.
  destruct (GenerateWafrPages.collect_questions h2_elements) as [|e d] eqn:E;
    [discriminate K|].
  cbn [GenerateWafrPages.falsy].
  match goal with
  | |- GenerateWafrPages.print _ (fold_left _ ?dd ?r0) = _ =>
      destruct (generate_pillars_run dd r0) as (H1 & H2 & H3)
  end.
  cbv zeta in H1, H2, H3.
  unfold GenerateWafrPages.print at 1. rewrite H1, H2, H3.
  cbn [GenerateWafrPages.print GenerateWafrPages.files
         GenerateWafrPages.stdout GenerateWafrPages.exit_code].
  rewrite <- !app_assoc. reflexivity.
Qed.

Lemma main_writes_question_files_witness :
  GenerateWafrPages.exit_code
    (GenerateWafrPages.main requests_get_ok soup_security) = 0
  /\ map fst (GenerateWafrPages.files
                (GenerateWafrPages.main requests_get_ok soup_security))
     = [ py "docs/security/SEC01.md" ].
Proof.
  assert (H : GenerateWafrPages.main requests_get_ok soup_security = _)
    by (apply (main_writes_question_files requests_get_ok soup_security
                 _ _ eq_refl eq_refl eq_refl)).
  rewrite H. split; [reflexivity|]. vm_compute. reflexivity.
Defined.

(** ** A generated page under the styling script *)

Lemma line_step (h s z w : str) :
  forallb not_newline h = true -> h ++ LF :: s = z ++ LF :: w ->
  (z = h /\ s = w) \/ exists z', z = h ++ LF :: z' /\ s = z' ++ LF :: w.
Proof.
  intros Hh E. destruct (plain_prefix h (LF :: s) z w Hh E) as [z0 [-> E0]].
  destruct z0 as [|c z0].
  - left. rewrite app_nil_r. inversion E0. auto.
  - right. inversion E0; subst. exists z0. auto.
Qed.

Lemma line_of_plain_id (x : str) :
  forallb not_newline x = true -> line_of x = x.
Proof.
  induction x as [|c x IH]; [reflexivity|]. simpl. intros H.
  apply andb_true_iff in H as [Hc Hx]. rewrite Hc, (IH Hx). reflexivity.
Qed.

Lemma first_gap_plain x s' :
  forallb not_newline x = true -> first_gap (x ++ py "\n\n" ++ s') x s'.
Proof.
  intros Hx. split; [reflexivity|]. intros x' s'' E.
  destruct (plain_prefix x (py "\n\n" ++ s') x' (LF :: s'') Hx) as [z [-> _]].
  - exact E.
  - rewrite length_app. lia.
Qed.


Lemma generated_page_split pillar q n :
  GenerateWafrPages.question_file_content pillar q n
  = py "---\n" ++ generated_front_matter pillar q n ++ py "\n---\n"
       ++ py "\n" ++ py "# " ++ GenerateWafrPages.id q ++ py ": "
       ++ (GenerateWafrPages.title q ++ py "\n\n"
             ++ ApplyStyling.default_description ++ py "\n\n"
             ++ generated_sections pillar).
Proof.
  unfold GenerateWafrPages.question_file_content, generated_front_matter,
    generated_sections, ApplyStyling.default_description.
  replace (py "---\ntitle: ") with (py "---\n" ++ py "title: ")
    by (vm_compute; reflexivity).
  replace (py "\n---\n\n# ") with (py "\n---\n" ++ py "\n" ++ py "# ")
    by (vm_compute; reflexivity).
  replace (py "\n\n*This page contains guidance for addressing this question from the AWS Well-Architected Framework.*\n\n## Best Practices\n\n*Add best practices for this question here.*\n\n## Implementation Guidance\n\n1. **Step 1**: Description of first implementation step.\n\n2. **Step 2**: Description of second implementation step.\n\n3. **Step 3**: Description of third implementation step.\n\n## AWS Services to Consider\n\n- **Service 1** - Description of how this service helps\n- **Service 2** - Description of how this service helps\n- **Service 3** - Description of how this service helps\n\n## Related Resources\n\n- [AWS Well-Architected Framework - ")
    with (py "\n\n"
             ++ py "*This page contains guidance for addressing this question from the AWS Well-Architected Framework.*"
             ++ py "\n\n"
             ++ py "## Best Practices\n\n*Add best practices for this question here.*\n\n## Implementation Guidance\n\n1. **Step 1**: Description of first implementation step.\n\n2. **Step 2**: Description of second implementation step.\n\n3. **Step 3**: Description of third implementation step.\n\n## AWS Services to Consider\n\n- **Service 1** - Description of how this service helps\n- **Service 2** - Description of how this service helps\n- **Service 3** - Description of how this service helps\n\n## Related Resources\n\n- [AWS Well-Architected Framework - ")
    by (vm_compute; reflexivity).
  repeat rewrite <- app_assoc. reflexivity.
Qed.

Lemma not_dashes (h t x : str) :
  (exists c h', h = c :: h' /\ c <> "-"%char) -> h ++ t <> py "---\n" ++ x.
Proof. intros (c & h' & -> & Hc) E. inversion E. contradiction. Qed.

(** Four lines without a line of dashes among them: the closing line of
    the front matter is the first line of dashes behind them. *)
Lemma four_lines_min (h1 h2 h3 h4 rest body' rest' : str) :
  forallb not_newline h1 = true -> forallb not_newline h2 = true ->
  forallb not_newline h3 = true -> forallb not_newline h4 = true ->
  (exists c h', h2 = c :: h' /\ c <> "-"%char) ->
  (exists c h', h3 = c :: h' /\ c <> "-"%char) ->
  (exists c h', h4 = c :: h' /\ c <> "-"%char) ->
  h1 ++ LF :: h2 ++ LF :: h3 ++ LF :: h4 ++ LF :: py "---\n" ++ rest
  = body' ++ LF :: py "---\n" ++ rest' ->
  length (h1 ++ LF :: h2 ++ LF :: h3 ++ LF :: h4) <= length body'.
Proof.
  intros P1 P2 P3 P4 N2 N3 N4 E.
  destruct (line_step _ _ _ _ P1 E) as [[-> E1] | (z1 & -> & E1)].
  { exfalso. apply (not_dashes h2 _ rest' N2 E1). }
  destruct (line_step _ _ _ _ P2 E1) as [[-> E2] | (z2 & -> & E2)].
  { exfalso. apply (not_dashes h3 _ rest' N3 E2). }
  destruct (line_step _ _ _ _ P3 E2) as [[-> E3] | (z3 & -> & E3)].
  { exfalso. apply (not_dashes h4 _ rest' N4 E3). }
  destruct (line_step _ _ _ _ P4 E3) as [[-> E4] | (z4 & -> & E4)].
  - lia.
  - repeat (rewrite !length_app; cbn [length]). lia.
Qed.

Lemma generated_front_matter_lines pillar q n :
  generated_front_matter pillar q n
  = (py "title: " ++ GenerateWafrPages.id q ++ py " - "
        ++ GenerateWafrPages.title q)
      ++ LF :: py "layout: default"
      ++ LF :: (py "parent: " ++ pillar)
      ++ LF :: (py "nav_order: " ++ str_of_nat n).
Proof.
  unfold generated_front_matter.
  replace (py "\nlayout: default\nparent: ")
    with (py "\n" ++ py "layout: default" ++ py "\n" ++ py "parent: ")
    by (vm_compute; reflexivity).
  replace (py "\nnav_order: ") with (py "\n" ++ py "nav_order: ")
    by (vm_compute; reflexivity).
  repeat rewrite <- app_assoc. reflexivity.
Qed.

Lemma generated_front_matter_split pillar q n rest :
  well_formed_question q -> forallb not_newline pillar = true ->
  front_matter_split
    (py "---\n" ++ generated_front_matter pillar q n ++ py "\n---\n" ++ rest)
    (generated_front_matter pillar q n) rest.
Proof.
  intros [(U & D & Eid & (_ & HU & _ & HD)) Ht] Hp.
  split; [reflexivity|]. intros body' rest' E.
  apply app_inv_head in E. rewrite generated_front_matter_lines in *.
  apply (four_lines_min _ _ _ _ rest body' rest').
  - rewrite Eid, !forallb_app, (upper_no_lf _ HU), (digit_no_lf _ HD), Ht.
    reflexivity.
  - reflexivity.
  - rewrite forallb_app, Hp. reflexivity.
  - rewrite forallb_app, (digit_no_lf _ (str_of_nat_digits n)). reflexivity.
  - exists "l"%char, (py "ayout: default"). split; [reflexivity|discriminate].
  - exists "p"%char, (py "arent: " ++ pillar).
    split; [reflexivity|discriminate].
  - exists "n"%char, (py "av_order: " ++ str_of_nat n).
    split; [reflexivity|discriminate].
  - etransitivity; [|exact E].
    change (py "\n---\n" ++ rest) with (LF :: py "---\n" ++ rest).
    repeat (rewrite <- ?app_assoc; rewrite <- ?app_comm_cons). reflexivity.
Qed.

Lemma styled_generated_page pillar q n :
  forallb not_newline pillar = true ->
  ApplyStyling.style_sections (py "\n" ++ generated_sections pillar)
  = styled_generated_sections pillar ->
  well_formed_question q ->
  ApplyStyling.convert_to_styled_format
    (GenerateWafrPages.question_file_content pillar q n)
  = (py "---\n" ++ generated_front_matter pillar q n ++ py "\n---\n")
      ++ ApplyStyling.new_header (GenerateWafrPages.id q)
           (GenerateWafrPages.title q) ApplyStyling.default_description
      ++ styled_generated_sections pillar.
Proof.
  intros Hp Hst Hq. pose proof Hq as [(U & D & Eid & HqUD) Ht].
  rewrite generated_page_split.
  set (s' := ApplyStyling.default_description ++ py "\n\n"
               ++ generated_sections pillar).
  set (s := GenerateWafrPages.title q ++ py "\n\n" ++ s').
  set (rest := py "\n" ++ py "# " ++ GenerateWafrPages.id q ++ py ": " ++ s).
  etransitivity.
  - apply (convert_described _ (generated_front_matter pillar q n) rest
             (py "\n") U D s (GenerateWafrPages.title q) s'
             ApplyStyling.default_description (generated_sections pillar)).
    + apply generated_front_matter_split; assumption.
    + split; [|split; [exact HqUD|split]].
      * unfold rest. rewrite Eid. reflexivity.
      * unfold s. apply in_or_app. right. left. reflexivity.
      * intros pre' post' E Hl. destruct pre' as [|c pre']; [|simpl in Hl; lia].
        simpl in E. subst post'.
        intros (U' & D' & t' & r' & E & _). unfold rest in E.
        discriminate E.
    + apply first_gap_plain. exact Ht.
    + apply first_gap_by_search. vm_compute. reflexivity.
    + discriminate.
  - rewrite (line_of_plain_id _ Ht), <- Eid, Hst. reflexivity.
Qed.

Lemma pillar_names :
  forall pillar,
    In pillar (map fst GenerateWafrPages.PILLARS) ->
    forallb not_newline pillar = true
    /\ ApplyStyling.style_sections (py "\n" ++ generated_sections pillar)
       = styled_generated_sections pillar.
Proof.
  intros pillar Hin. unfold GenerateWafrPages.PILLARS in Hin.
  cbn [map fst In] in Hin.
  repeat (destruct Hin as [<- | Hin];
          [split; vm_compute; reflexivity|]).
  destruct Hin.
Qed.



(** ** The whole run of Docs/dr-plan/pdf/ecr-replication.py *)

Section EcrRuns.

Import EcrReplication.

Variable ecr : registry.

Lemma deletes_guarded_app prev l1 l2 :
  deletes_guarded prev l1 -> (forall p, deletes_guarded p l2) ->
  deletes_guarded prev (l1 ++ l2).
Proof.
  revert prev; induction l1 as [|c l1 IH]; intros prev H1 H2; [apply H2|].
  destruct H1 as [Hc H1]. split; [exact Hc|]. apply IH; assumption.
Qed.

Lemma keeps_guard_bind {A B : Type} (m : M A) (f : A -> M B) :
  keeps_guard m -> (forall a, keeps_guard (f a)) -> keeps_guard (bind m f).
Proof.
  intros Hm Hf st H. unfold bind. specialize (Hm st H).
  destruct (m st) as [[a|e] st']; [apply Hf; exact Hm|exact Hm].
Qed.

Lemma keeps_guard_for_each {A : Type} (l : list A) (body : A -> M unit) :
  (forall a, keeps_guard (body a)) -> keeps_guard (for_each l body).
Proof.
  intros Hb. induction l as [|a l IH]; [intros st H; exact H|].
  cbn [for_each]. apply keeps_guard_bind; [apply Hb|intros _; exact IH].
Qed.

Lemma keeps_guard_print s : keeps_guard (print s).
Proof. intros st H. exact H. Qed.

Lemma keeps_guard_issue {A : Type} c (reply : list api_call -> outcome A) :
  (forall r t, c <> batch_delete_image r t) -> keeps_guard (issue c reply).
Proof.
  intros Hc st H. unfold issue. cbn [snd calls].
  apply deletes_guarded_app; [exact H|]. intros p. split; [|exact I].
  destruct c; try exact I. exfalso. apply (Hc _ _ eq_refl).
Qed.

Lemma retag_guarded r t m k p :
  deletes_guarded p (firstn k (retag_calls r t m)).
Proof.
  unfold retag_calls.
  destruct k as [|[|[|[|k]]]]; cbn [firstn]; rewrite ?firstn_nil;
    cbn [deletes_guarded]; repeat split;
    try (left; reflexivity); try (right; reflexivity).
Qed.

Lemma keeps_guard_reupload r t m : keeps_guard (reupload ecr r t m).
Proof.
  intros st H. rewrite reupload_unfold.
  pose proof (fun k => deletes_guarded_app None (calls st)
                         (firstn k (retag_calls r t m)) H
                         (retag_guarded r t m k)) as G.
  pose proof (G 4) as G4. cbn [firstn] in G4.
  repeat match goal with
         | |- context [match ?x with Returned _ => _ | Raised _ => _ end] =>
             destruct x
         end; cbn [snd calls]; first [exact G4 | apply G].
Qed.

Lemma keeps_guard_script : keeps_guard (script ecr).
Proof.
  unfold script. apply keeps_guard_bind.
  - apply keeps_guard_issue. discriminate.
  - intros repos. apply keeps_guard_for_each. intros r.
    unfold process_repository. apply keeps_guard_bind.
    + apply keeps_guard_issue. discriminate.
    + intros tags. apply keeps_guard_for_each. intros t.
      unfold process_tag. apply keeps_guard_bind.
      * apply keeps_guard_issue. discriminate.
      * intros ms. apply keeps_guard_bind; [apply keeps_guard_print|].
        intros _. apply keeps_guard_for_each. intros m.
        apply keeps_guard_reupload.
Qed.

End EcrRuns.

Section EcrErrors.

Import EcrReplication.

Variable ecr : registry.

Lemma answered_app h n1 n2 :
  answered ecr h n1 -> answered ecr (h ++ n1) n2 -> answered ecr h (n1 ++ n2).
Proof.
  revert h; induction n1 as [|c n1 IH]; intros h H1 H2.
  - rewrite app_nil_r in H2. exact H2.
  - destruct H1 as [Hc H1]. split; [exact Hc|]. apply IH; [exact H1|].
    rewrite <- app_assoc. exact H2.
Qed.

Lemma stops_bind {A B : Type} (m : M A) (f : A -> M B) :
  stops_at_error ecr m -> (forall a, stops_at_error ecr (f a)) ->
  stops_at_error ecr (bind m f).
Proof.
  intros Hm Hf st. unfold bind. destruct (Hm st) as (n1 & E1 & H1).
  destruct (m st) as [[a|e] st'] eqn:Em; cbn [fst snd] in *.
  - destruct (Hf a st') as (n2 & E2 & H2). exists (n1 ++ n2). split.
    + rewrite E2, E1, app_assoc. reflexivity.
    + destruct (fst (f a st')) as [b|e].
      * apply answered_app; [exact H1|]. rewrite <- E1. exact H2.
      * destruct H2 as (n2' & c & -> & H2 & Hr).
        exists (n1 ++ n2'), c. split; [rewrite app_assoc; reflexivity|].
        split.
        -- apply answered_app; [exact H1|]. rewrite <- E1. exact H2.
        -- rewrite app_assoc, <- E1. exact Hr.
  - exists n1. split; [exact E1|exact H1].
Qed.

Lemma stops_for_each {A : Type} (l : list A) (body : A -> M unit) :
  (forall a, stops_at_error ecr (body a)) ->
  stops_at_error ecr (for_each l body).
Proof.
  intros Hb. induction l as [|a l IH].
  - intros st. exists []. rewrite app_nil_r. split; [reflexivity|exact I].
  - cbn [for_each]. apply stops_bind; [apply Hb|intros _; exact IH].
Qed.

Lemma stops_print s : stops_at_error ecr (print s).
Proof.
  intros st. exists []. rewrite app_nil_r. split; [reflexivity|exact I].
Qed.

Lemma stops_issue {A : Type} c (reply : list api_call -> outcome A) :
  (forall h, raises ecr h c
             = match reply h with Returned _ => None | Raised e => Some e end) ->
  stops_at_error ecr (issue c reply).
Proof.
  intros Hc st. exists [c]. split; [reflexivity|].
  unfold issue. cbn [fst]. specialize (Hc (calls st)).
  destruct (reply (calls st)) as [a|e].
  - split; [exact Hc|exact I].
  - exists [], c. rewrite app_nil_r. split; [reflexivity|].
    split; [exact I|exact Hc].
Qed.

Lemma stops_script : stops_at_error ecr (script ecr).
Proof.
  unfold script. apply stops_bind.
  - apply stops_issue. reflexivity.
  - intros repos. apply stops_for_each. intros r.
    unfold process_repository. apply stops_bind.
    + apply stops_issue. reflexivity.
    + intros tags. apply stops_for_each. intros t.
      unfold process_tag. apply stops_bind.
      * apply stops_issue. reflexivity.
      * intros ms. apply stops_bind; [apply stops_print|].
        intros _. apply stops_for_each. intros m.
        unfold reupload.
        repeat (apply stops_bind;
                [apply stops_issue; reflexivity|intros _]).
        apply stops_print.
Qed.

End EcrErrors.

(** X15: in a run of the script, whatever the registry answers, every
    delete call comes directly behind a put call to the same
    repository: the tag is deleted only when the image has just been
    put under the temporary tag, and the temporary tag only when the
    image has just been put under the tag again. *)
Theorem script_deletes_guarded :
  forall (ecr : EcrReplication.registry) (st : EcrReplication.state),
    deletes_guarded None (EcrReplication.calls st) ->
    deletes_guarded None
      (EcrReplication.calls (snd (EcrReplication.script ecr st))).
Proof. intros ecr st. apply keeps_guard_script. Qed.

Lemma script_deletes_guarded_witness :
  deletes_guarded None
    (EcrReplication.calls
       (snd (EcrReplication.script ecr_delete_fails
               {| EcrReplication.calls := [];
                  EcrReplication.printed := [] |}))).
Proof.
  apply (script_deletes_guarded ecr_delete_fails
           {| EcrReplication.calls := []; EcrReplication.printed := [] |}).
  exact I.
Defined.

(** X16: the script has no error handling, so a run goes on exactly as
    long as the registry answers without an error.  When the run ends
    normally, every call it made was answered without an error; when it
    ends with the error [e], the last call it made is the one answered
    with [e], the calls before it were answered without an error, and
    no call follows. *)
Theorem script_stops_at_first_error :
  forall (ecr : EcrReplication.registry) (st : EcrReplication.state),
    exists new,
      EcrReplication.calls (snd (EcrReplication.script ecr st))
      = EcrReplication.calls st ++ new
      /\ match fst (EcrReplication.script ecr st) with
         | Returned _ => answered ecr (EcrReplication.calls st) new
         | Raised e =>
             exists new' c,
               new = new' ++ [c]
               /\ answered ecr (EcrReplication.calls st) new'
               /\ raises ecr (EcrReplication.calls st ++ new') c = Some e
         end.
Proof. intros ecr. apply stops_script. Qed.

(** ** Styling a generated page twice *)

Lemma not_in_decide (c : ascii) (w : str) :
  forallb (fun x => negb (Ascii.eqb x c)) w = true -> ~ In c w.
Proof.
  induction w as [|x w IH]; simpl; [tauto|]. intros H [-> | Hin].
  - rewrite Ascii.eqb_refl in H. discriminate.
  - apply andb_true_iff in H as [_ H]. apply (IH H Hin).
Qed.

Lemma not_in_class (P : ascii -> bool) (c : ascii) (w : str) :
  P c = false -> forallb P w = true -> ~ In c w.
Proof.
  intros Hc. induction w as [|x w IH]; simpl; [tauto|]. intros H [-> | Hin].
  - rewrite Hc in H. discriminate.
  - apply andb_true_iff in H as [_ H]. apply (IH H Hin).
Qed.

(** A heading does not begin in text without a hash sign. *)
Lemma heading_behind (W C : str) :
  ~ In "#"%char W -> has_heading (W ++ C) -> has_heading C.
Proof.
  intros HW (pre & post & E & Hh).
  destruct (Nat.le_gt_cases (length W) (length pre)) as [Hl | Hl].
  - symmetry in E. destruct (app_eq_app_le _ _ _ _ E Hl) as [z [-> ->]].
    exists z, post. auto.
  - destruct (app_eq_app_le W C pre post E) as [z [-> Ez]]; [lia|].
    exfalso. apply HW. apply in_or_app. right.
    destruct Hh as (U & D & title & r & -> & _).
    destruct z as [|c z]; [rewrite length_app in Hl; simpl in Hl; lia|].
    inversion Ez. left. reflexivity.
Qed.

Lemma pillar_names_quiet :
  forall pillar,
    In pillar (map fst GenerateWafrPages.PILLARS) ->
    ~ has_heading
        (py "</h1>\n  <p>" ++ ApplyStyling.default_description
            ++ py "</p>\n</div>\n\n" ++ styled_generated_sections pillar).
Proof.
  intros pillar Hin. unfold GenerateWafrPages.PILLARS in Hin.
  cbn [map fst In] in Hin.
  repeat (destruct Hin as [<- | Hin];
          [apply has_heading_decide; vm_compute; reflexivity|]).
  destruct Hin.
Qed.

(** X17: a generated page is styled once and for all.  For a page
    written by the generator for one of the six pillars and a question
    whose title has no hash sign in it, the second run of
    [convert_to_styled_format] returns the text of the first: the styled
    page has no heading of the form '# <ID>: ' left, so the second run
    stops at the search for the title. *)
Theorem generated_page_styled_twice :
  forall pillar q n,
    In pillar (map fst GenerateWafrPages.PILLARS) ->
    well_formed_question q ->
    ~ In "#"%char (GenerateWafrPages.title q) ->
    ApplyStyling.convert_to_styled_format
      (ApplyStyling.convert_to_styled_format
         (GenerateWafrPages.question_file_content pillar q n))
    = ApplyStyling.convert_to_styled_format
        (GenerateWafrPages.question_file_content pillar q n).
Proof.
  intros pillar q n Hin Hq Hhash.
  destruct (pillar_names pillar Hin) as [Hp Hst].
  rewrite (styled_generated_page pillar q n Hp Hst Hq).
  rewrite <- !app_assoc.
  apply (convert_without_heading _ (generated_front_matter pillar q n)
           (ApplyStyling.new_header (GenerateWafrPages.id q)
              (GenerateWafrPages.title q) ApplyStyling.default_description
              ++ styled_generated_sections pillar)).
  - apply (front_matter_split_rest _ (py "\n")).
    apply generated_front_matter_split; assumption.
  - unfold ApplyStyling.new_header. intros H.
    apply (pillar_names_quiet pillar Hin).
    apply (heading_behind
             (py "<div class=\qpillar-header\q>\n  <h1>"
                 ++ GenerateWafrPages.id q ++ py ": "
                 ++ GenerateWafrPages.title q)).
    + destruct Hq as [(U & D & -> & (_ & HU & _ & HD)) _].
      intros Hi. repeat (apply in_app_or in Hi as [Hi | Hi]).
      * revert Hi. apply not_in_decide. vm_compute. reflexivity.
      * revert Hi. apply (not_in_class is_upper); [reflexivity|exact HU].
      * revert Hi. apply (not_in_class is_digit); [reflexivity|exact HD].
      * revert Hi. apply not_in_decide. vm_compute. reflexivity.
      * apply Hhash. exact Hi.
    + rewrite <- !app_assoc in H. rewrite <- !app_assoc. exact H.
Qed.

Lemma generated_page_styled_twice_witness :
  ApplyStyling.convert_to_styled_format
    (ApplyStyling.convert_to_styled_format
       (GenerateWafrPages.question_file_content (py "Security")
          question_sec01 1))
  = ApplyStyling.convert_to_styled_format
      (GenerateWafrPages.question_file_content (py "Security")
         question_sec01 1).
Proof.
  apply (generated_page_styled_twice (py "Security") question_sec01 1).
  - right. left. reflexivity.
  - split.
    + exists (py "SEC"), (py "01"). split; [reflexivity|].
      apply question_id_decide. vm_compute. reflexivity.
    + vm_compute. reflexivity.
  - apply not_in_decide. vm_compute. reflexivity.
Defined.

(** ** The images of a tag, in a run of the whole script *)

Section EcrImages.

Import EcrReplication.

Variable ecr : registry.

Lemma stops_reupload r t m : stops_at_error ecr (reupload ecr r t m).
Proof.
  unfold reupload.
  repeat (apply stops_bind; [apply stops_issue; reflexivity|intros _]).
  apply stops_print.
Qed.

Lemma firstn_snoc {A : Type} (l : list A) (n : nat) (d : A) :
  n < length l -> firstn (S n) l = firstn n l ++ [nth n l d].
Proof.
  revert n; induction l as [|x l IH]; intros n H; [simpl in H; lia|].
  destruct n as [|n]; [reflexivity|].
  cbn [firstn nth app]. cbn [firstn] in IH. rewrite (IH n); [reflexivity|].
  simpl in H. lia.
Qed.

(** One image: all four calls, answered without an error, or the first
    few of them, the last one answered with the error the body raises. *)
Lemma reupload_run r t m st :
  (fst (reupload ecr r t m st) = Returned tt
   /\ calls (snd (reupload ecr r t m st)) = calls st ++ retag_calls r t m
   /\ answered ecr (calls st) (retag_calls r t m))
  \/ exists n e,
      n < 4
      /\ fst (reupload ecr r t m st) = Raised e
      /\ calls (snd (reupload ecr r t m st))
         = calls st ++ firstn (S n) (retag_calls r t m)
      /\ answered ecr (calls st) (firstn n (retag_calls r t m))
      /\ raises ecr (calls st ++ firstn n (retag_calls r t m))
                (nth n (retag_calls r t m) describe_repositories)
         = Some e.
Proof.
  destruct (stops_reupload r t m st) as (new & E & H).
  destruct (reupload_call_order ecr r t m st) as [(n & Hn & Hc & _ & Hf) _].
  cbv zeta in *. rewrite Hc in E. apply app_inv_head in E. subst new.
  destruct (fst (reupload ecr r t m st)) as [[]|e].
  - left. destruct Hf as [-> _]. cbn [firstn] in *.
    split; [reflexivity|]. split; [exact Hc|exact H].
  - right. destruct H as (new' & c & E & Ha & Hr).
    destruct n as [|n]; [lia|]. exists n, e.
    assert (Hl : n < length (retag_calls r t m)) by (simpl; lia).
    rewrite (firstn_snoc _ n describe_repositories Hl) in E.
    apply app_inj_tail in E as [<- <-].
    split; [lia|]. split; [reflexivity|]. split; [exact Hc|]. split; assumption.
Qed.

Lemma for_each_reupload r t ms :
  forall st,
    exists T,
      calls (snd (for_each ms (reupload ecr r t) st)) = calls st ++ T
      /\ images_retagged ecr r t (calls st) ms T
           (fst (for_each ms (reupload ecr r t) st)).
Proof.
  induction ms as [|m ms IH]; intros st.
  - exists []. split; [cbn; rewrite app_nil_r; reflexivity|].
    exists [], []. cbn. auto.
  - cbn [for_each]. unfold bind.
    destruct (reupload_run r t m st)
      as [(Ho & Hc & Ha) | (n & e & Hn & Ho & Hc & Ha & Hr)];
      destruct (reupload ecr r t m st) as [o1 st1]; cbn [fst snd] in *;
        subst o1.
    + destruct (IH st1) as (T2 & E2 & done & todo & Ems & Had & Hm).
      exists (retag_calls r t m ++ T2). split.
      * rewrite E2, Hc, app_assoc. reflexivity.
      * exists (m :: done), todo. split; [rewrite Ems; reflexivity|].
        cbn [flat_map]. split.
        -- apply answered_app; [exact Ha|]. rewrite <- Hc. exact Had.
        -- rewrite Hc in Hm. destruct todo as [|m' todo'].
           ++ destruct Hm as [-> Ho]. split; [reflexivity|exact Ho].
           ++ destruct Hm as (n & e & Hn & -> & Ha' & Hr & Ho).
              exists n, e. rewrite <- !app_assoc in *.
              repeat split; assumption.
    + exists (firstn (S n) (retag_calls r t m)). split; [exact Hc|].
      exists [], (m :: ms). cbn [flat_map app]. split; [reflexivity|].
      split; [exact I|]. exists n, e. rewrite app_nil_r.
      repeat split; auto.
Qed.

Lemma retag_calls_kind r t m c r' t' :
  In c (retag_calls r t m) -> c <> batch_get_image r' t'.
Proof.
  unfold retag_calls. cbn [In].
  intros [<- | [<- | [<- | [<- | []]]]]; discriminate.
Qed.

Lemma firstn_incl {A : Type} (n : nat) (l : list A) x :
  In x (firstn n l) -> In x l.
Proof.
  revert n; induction l as [|y l IH]; intros [|n] H; cbn in *; try tauto.
  destruct H as [H | H]; [left; exact H|right; apply (IH n H)].
Qed.

Lemma images_retagged_kind r t h ms T o r' t' :
  images_retagged ecr r t h ms T o -> ~ In (batch_get_image r' t') T.
Proof.
  intros (done & todo & _ & _ & Hm) Hin.
  assert (Hd : ~ In (batch_get_image r' t') (flat_map (retag_calls r t) done)).
  { intros H. apply in_flat_map in H as (m & _ & H).
    apply (retag_calls_kind r t m _ r' t' H). reflexivity. }
  destruct todo as [|m todo].
  - destruct Hm as [-> _]. apply (Hd Hin).
  - destruct Hm as (n & e & _ & -> & _). apply in_app_or in Hin as [H | H].
    + apply (Hd H).
    + apply firstn_incl in H.
      apply (retag_calls_kind r t m _ r' t' H). reflexivity.
Qed.

Lemma retags_bind {A B : Type} (m : M A) (f : A -> M B) :
  retags_every_image ecr m -> (forall a, retags_every_image ecr (f a)) ->
  retags_every_image ecr (bind m f).
Proof.
  intros Hm Hf st. unfold bind. destruct (Hm st) as (T1 & E1 & G1).
  destruct (m st) as [[a|e1] st1] eqn:Em; cbn [fst snd] in *.
  - destruct (Hf a st1) as (T2 & E2 & G2). exists (T1 ++ T2). split.
    + rewrite E2, E1, app_assoc. reflexivity.
    + intros pre r t post E.
      apply app_eq_app in E as [l [[E3 E4] | [E3 E4]]].
      * destruct l as [|c l].
        -- (* the call is the first of the second step *)
           rewrite app_nil_r in E3. subst pre. cbn [app] in E4.
           symmetry in E4. specialize (G2 [] r t post E4).
           rewrite E1, app_nil_r in G2. cbn [app] in G2.
           rewrite <- app_assoc in G2. exact G2.
        -- (* the call is one of the first step, which returned *)
           inversion E4; subst c post. specialize (G1 pre r t l E3).
           destruct (images ecr (calls st ++ pre) r t) as [ms|e].
           ++ destruct G1 as (T' & o & rest & Hi & -> & Hr).
              exists T', o, (rest ++ T2). split; [exact Hi|].
              split; [rewrite app_assoc; reflexivity|].
              intros e He. destruct (Hr e He) as [_ Hx]. discriminate Hx.
           ++ destruct G1 as [_ Hx]. discriminate Hx.
      * (* the call is one of the second step *)
        subst pre. specialize (G2 l r t post E4).
        rewrite E1 in G2. rewrite <- !app_assoc in G2.
        rewrite <- !app_assoc. exact G2.
  - exists T1. split; [exact E1|].
    intros pre r t post E. specialize (G1 pre r t post E).
    destruct (images ecr (calls st ++ pre) r t) as [ms|e].
    + destruct G1 as (T' & o & rest & Hi & Hp & Hr).
      exists T', o, rest. split; [exact Hi|]. split; [exact Hp|].
      intros e He. destruct (Hr e He) as [Hx Hy].
      split; [exact Hx|inversion Hy; reflexivity].
    + destruct G1 as [Hx Hy]. split; [exact Hx|inversion Hy; reflexivity].
Qed.

Lemma retags_for_each {A : Type} (l : list A) (body : A -> M unit) :
  (forall a, retags_every_image ecr (body a)) ->
  retags_every_image ecr (for_each l body).
Proof.
  intros Hb. induction l as [|a l IH].
  - intros st. exists []. split; [cbn; rewrite app_nil_r; reflexivity|].
    intros pre r t post E. destruct pre; discriminate E.
  - cbn [for_each]. apply retags_bind; [apply Hb|intros _; exact IH].
Qed.

Lemma retags_issue {A : Type} c (reply : list api_call -> outcome A) :
  (forall r t, c <> batch_get_image r t) ->
  retags_every_image ecr (issue c reply).
Proof.
  intros Hc st. exists [c]. split; [reflexivity|].
  intros pre r t post E. exfalso.
  destruct pre as [|x pre]; [|destruct pre; discriminate E].
  inversion E. apply (Hc r t). assumption.
Qed.

Lemma retags_process_tag r t :
  retags_every_image ecr (process_tag ecr r t).
Proof.
  intros st. unfold process_tag, bind, issue, print.
  destruct (images ecr (calls st) r t) as [ms|e] eqn:Ei; cbn [fst snd calls].
  - match goal with
    | |- context [for_each ms _ ?s] =>
        destruct (for_each_reupload r t ms s) as (T & E & Hi)
    end.
    cbn [calls] in *. exists (batch_get_image r t :: T). split.
    + rewrite E, <- app_assoc. reflexivity.
    + intros pre r' t' post Eo. destruct pre as [|x pre].
      * inversion Eo; subst r' t' post. rewrite app_nil_r, Ei.
        eexists T, _, []. split; [exact Hi|].
        split; [rewrite app_nil_r; reflexivity|].
        intros e0 He. split; [reflexivity|exact He].
      * exfalso. inversion Eo; subst.
        apply (images_retagged_kind r t _ _ _ _ r' t' Hi).
        apply in_or_app. right. left. reflexivity.
  - exists [batch_get_image r t]. split; [reflexivity|].
    intros pre r' t' post Eo.
    destruct pre as [|x pre]; [|destruct pre; discriminate Eo].
    inversion Eo; subst r' t' post. rewrite app_nil_r, Ei. auto.
Qed.

Lemma retags_script : retags_every_image ecr (script ecr).
Proof.
  unfold script. apply retags_bind.
  - apply retags_issue. discriminate.
  - intros repos. apply retags_for_each. intros r.
    unfold process_repository. apply retags_bind.
    + apply retags_issue. discriminate.
    + intros tags. apply retags_for_each. intros t.
      apply retags_process_tag.
Qed.

End EcrImages.

(** C8: in a run of the utility, wherever it reads the images of a tag
    ([batch_get_image]), the calls for these images follow at once: for
    each image in turn the four calls of [retag_calls], in the fixed
    order put(temporary tag), delete(tag), put(tag), delete(temporary
    tag), and no other call in between.  When one of them is answered
    with an error, it is the last call of the whole run, which ends with
    that error: nothing is issued after a failure, in particular no call
    that would undo the earlier ones.  Within the calls of one image, a
    put that restores the tag is always preceded by the delete of that
    tag. *)
Theorem C8_retag_call_order :
  forall (ecr : EcrReplication.registry) (st : EcrReplication.state),
    (forall pre r t post,
        EcrReplication.calls (snd (EcrReplication.script ecr st))
        = EcrReplication.calls st
            ++ pre ++ EcrReplication.batch_get_image r t :: post ->
        match EcrReplication.images ecr (EcrReplication.calls st ++ pre) r t
        with
        | Raised e =>
            post = [] /\ fst (EcrReplication.script ecr st) = Raised e
        | Returned ms =>
            exists T o rest,
              images_retagged ecr r t
                (EcrReplication.calls st ++ pre
                   ++ [EcrReplication.batch_get_image r t]) ms T o
              /\ post = T ++ rest
              /\ forall e, o = Raised e ->
                           rest = []
                           /\ fst (EcrReplication.script ecr st) = Raised e
        end)
    /\ (forall r t m st' pre post,
           EcrReplication.calls (snd (EcrReplication.reupload ecr r t m st'))
           = EcrReplication.calls st'
               ++ pre ++ EcrReplication.put_image r m t :: post ->
           In (EcrReplication.batch_delete_image r t) pre).
Proof.
  intros ecr st. split.
  - intros pre r t post E.
    destruct (retags_script ecr st) as (T & ET & G).
    rewrite ET in E. apply app_inv_head in E. apply (G pre r t post E).
  - intros r t m st' pre post E.
    destruct (reupload_call_order ecr r t m st') as [_ H].
    apply (H pre post E).
Qed.

Lemma C8_retag_call_witness :
  exists T o rest,
    images_retagged ecr_delete_fails (py "app") (py "v1")
      ([] ++ [ EcrReplication.describe_repositories;
               EcrReplication.list_images (py "app") ]
          ++ [EcrReplication.batch_get_image (py "app") (py "v1")])
      [py "manifest"] T o
    /\ [ EcrReplication.put_image (py "app") (py "manifest")
           (py "v1" ++ py "-temp");
         EcrReplication.batch_delete_image (py "app") (py "v1") ]
       = T ++ rest
    /\ forall e, o = Raised e ->
                 rest = []
                 /\ fst (EcrReplication.script ecr_delete_fails
                           {| EcrReplication.calls := [];
                              EcrReplication.printed := [] |})
                    = Raised e.
Proof.
  assert (E : EcrReplication.calls
                (snd (EcrReplication.script ecr_delete_fails
                        {| EcrReplication.calls := [];
                           EcrReplication.printed := [] |}))
              = [] ++ [ EcrReplication.describe_repositories;
                        EcrReplication.list_images (py "app") ]
                   ++ EcrReplication.batch_get_image (py "app") (py "v1")
                   :: [ EcrReplication.put_image (py "app") (py "manifest")
                          (py "v1" ++ py "-temp");
                        EcrReplication.batch_delete_image (py "app")
                          (py "v1") ])
    by (vm_compute; reflexivity).
  exact (proj1 (C8_retag_call_order ecr_delete_fails
                  {| EcrReplication.calls := [];
                     EcrReplication.printed := [] |}) _ _ _ _ E).
Defined.

(** ** Sections without items, in a whole document *)

(** C1 (amended): for every document with front matter and a matching
    heading, the four section steps run one after the other on the text
    behind the header, and each of them, on the text as the steps before
    it leave it, treats a section whose body matches none of its item
    patterns as follows.  The Best Practices and the Implementation
    Guidance steps emit the heading and exactly one generic item that
    holds the body, stripped of surrounding white space.  The AWS
    Services to Consider and the Related Resources steps emit exactly one
    fixed placeholder item: the body is not kept.  In each case the text
    before the section stays, and behind it only verbatim copies of the
    section are replaced. *)
Theorem C1_fallback_in_document :
  forall content fm rest,
    front_matter_split content fm rest -> has_heading rest ->
    exists question_id question_title description t0 t1 t2 t3 t4,
      convert_to_styled_format content
      = (py "---\n" ++ fm ++ py "\n---\n")
          ++ new_header question_id question_title description ++ t4
      /\ t0 = content_without_header rest
      /\ t1 = style_best_practices t0
      /\ t2 = style_impl t1
      /\ t3 = style_services t2
      /\ t4 = style_resources t3
      /\ (forall pre body post,
             section_of best_practices_heading t0 pre body post ->
             findall2 practice_re body = [] ->
             t1 = pre ++ (best_practices_heading
                            ++ best_practice_div (py "Best Practice")
                                 (strip body))
                      ++ replace post (best_practices_heading ++ body)
                           (best_practices_heading
                              ++ best_practice_div (py "Best Practice")
                                   (strip body)))
      /\ (forall pre body post,
             section_of impl_heading t1 pre body post ->
             findall2 bold_step_re body = [] ->
             findall1 numbered_step_re body = [] ->
             t2 = pre ++ (impl_heading
                            ++ implementation_step_div
                                 (py "Implementation Guidance") (strip body))
                      ++ replace post (impl_heading ++ body)
                           (impl_heading
                              ++ implementation_step_div
                                   (py "Implementation Guidance")
                                   (strip body)))
      /\ (forall pre body post,
             section_of services_heading t2 pre body post ->
             findall2 bold_service_re body = [] ->
             findall1 list_item_re body = [] ->
             t3 = pre ++ (services_heading
                            ++ aws_service_div (py "AWS Services")
                                 (py "Add relevant AWS services for this question."))
                      ++ replace post (services_heading ++ body)
                           (services_heading
                              ++ aws_service_div (py "AWS Services")
                                   (py "Add relevant AWS services for this question.")))
      /\ (forall pre body post,
             section_of resources_heading t3 pre body post ->
             findall2 link_item_re body = [] ->
             findall1 list_item_re body = [] ->
             t4 = pre ++ py "<div class=\qrelated-resources\q>\n  <h2>Related Resources</h2>\n  <ul>\n    <li>Add related resources for this question.</li>\n  </ul>\n</div>"
                      ++ replace post (resources_heading ++ body)
                           (py "<div class=\qrelated-resources\q>\n  <h2>Related Resources</h2>\n  <ul>\n    <li>Add related resources for this question.</li>\n  </ul>\n</div>")).
Proof.
  intros content fm rest Hs Hh.
  rewrite (convert_behind_front_matter content fm rest Hs).
  apply title_search_heading in Hh.
  destruct (re_search title_re rest) as [tm|]; [clear Hh|congruence].
  eexists _, _, _, _, _, _, _, _.
  split; [unfold style_sections; reflexivity|].
  repeat (split; [reflexivity|]).
  split; [|split; [|split]].
  - intros pre body post Hsec Hf. unfold style_best_practices.
    rewrite (style_step best_practices_heading styled_best_practices
               _ pre body post) by (discriminate || exact Hsec).
    unfold styled_best_practices. rewrite Hf. reflexivity.
  - intros pre body post Hsec Hf1 Hf2. unfold style_impl at 1.
    rewrite (style_step impl_heading styled_impl _ pre body post)
      by (discriminate || exact Hsec).
    unfold styled_impl. rewrite Hf1, Hf2. reflexivity.
  - intros pre body post Hsec Hf1 Hf2. unfold style_services at 1.
    rewrite (style_step services_heading styled_services _ pre body post)
      by (discriminate || exact Hsec).
    unfold styled_services. rewrite Hf1, Hf2. reflexivity.
  - intros pre body post Hsec Hf1 Hf2. unfold style_resources at 1.
    rewrite (style_step resources_heading styled_resources _ pre body post)
      by (discriminate || exact Hsec).
    unfold styled_resources. rewrite Hf1, Hf2.
    rewrite resources_placeholder. reflexivity.
Qed.

Lemma C1_fallback_witness :
  exists fm question_id question_title description t3,
    convert_to_styled_format doc_services
    = (py "---\n" ++ fm ++ py "\n---\n")
        ++ new_header question_id question_title description
        ++ style_resources t3
    /\ t3 = py "\n"
              ++ (services_heading
                    ++ aws_service_div (py "AWS Services")
                         (py "Add relevant AWS services for this question."))
              ++ replace []
                   (services_heading ++ py "Use whatever fits the workload.\n")
                   (services_heading
                      ++ aws_service_div (py "AWS Services")
                           (py "Add relevant AWS services for this question.")).
Proof.
  destruct (re_match front_matter_re doc_services) as [res|] eqn:E;
    [|vm_compute in E; discriminate].
  destruct (front_matter_split_decide _ _ E) as [fm Hs].
  assert (Hh : has_heading (m_rest res)).
  { apply title_search_heading.
    vm_compute in E. inversion E; subst res. vm_compute. discriminate. }
  destruct (C1_fallback_in_document doc_services fm (m_rest res) Hs Hh)
    as (a & b & c & t0 & t1 & t2 & t3 & t4 & H & E0 & E1 & E2 & E3 & E4
        & _ & _ & Hsvc & _).
  exists fm, a, b, c, t3. split; [rewrite <- E4; exact H|].
  apply Hsvc; [|vm_compute; reflexivity|vm_compute; reflexivity].
  subst t2 t1 t0.
  destruct (re_search (section_re services_heading)
              (style_impl
                 (style_best_practices (content_without_header (m_rest res)))))
    as [sm|] eqn:Es;
    [|vm_compute in E; inversion E; subst res; vm_compute in Es;
      discriminate].
  apply (section_of_decide_at _ _ sm); [exact Es| | |];
    vm_compute in E; inversion E; subst res; vm_compute in Es; inversion Es;
      vm_compute; reflexivity.
Defined.

(** ** A second run of the styling script *)

(** C2 (amended): applying [convert_to_styled_format] to its own output
    gives the same text when the first run changed nothing (the input
    has no front matter, or no text '# <ID>: <Title>' behind it), and
    also when the output of the first run has no text '# <ID>: <Title>'
    followed by a line feed left behind its front matter: the second run
    then stops at the search for the title, and the wrapped sections stay
    as they are.  Nothing is promised when such a text is left. *)
Theorem C2_second_run_identity :
  forall content,
    (~ has_front_matter content
     \/ (exists fm rest,
            front_matter_split content fm rest /\ ~ has_heading rest)
     \/ (exists fm rest',
            front_matter_split (convert_to_styled_format content) fm rest'
            /\ ~ has_heading rest')) ->
    convert_to_styled_format (convert_to_styled_format content)
    = convert_to_styled_format content.
Proof.
  intros content [H | [(fm & rest & Hs & Hh) | (fm & rest' & Hs & Hh)]].
  - rewrite !(convert_without_front_matter content H). reflexivity.
  - rewrite !(convert_without_heading content fm rest Hs Hh). reflexivity.
  - apply (convert_without_heading _ fm rest' Hs Hh).
Qed.

Lemma C2_second_run_witness :
  convert_to_styled_format (convert_to_styled_format doc_sec01)
  = convert_to_styled_format doc_sec01.
Proof.
  apply C2_second_run_identity. right. right.
  destruct (re_match front_matter_re (convert_to_styled_format doc_sec01))
    as [res|] eqn:E; [|vm_compute in E; discriminate].
  destruct (front_matter_split_decide _ _ E) as [fm Hs].
  exists fm, (m_rest res). split; [exact Hs|].
  apply has_heading_decide.
  vm_compute in E. inversion E; subst res. vm_compute. reflexivity.
Defined.

(** ** A section that is not one of the four *)

(** C6 fails on a page without a description paragraph: the heading of
    the section that follows the title, which is not one of the four
    known ones, is taken for the description, shown in the header and cut
    out of the text, so that the section is not in the output as it was
    in the input. *)
Lemma C6_unknown_section_cut :
  contains (py "\n## Notes\n\nKeep this.\n") doc_notes_first = true
  /\ convert_to_styled_format doc_notes_first = doc_notes_first_styled
  /\ contains (py "## Notes\n") (convert_to_styled_format doc_notes_first)
     = false
  /\ contains (py "<p>## Notes</p>") (convert_to_styled_format doc_notes_first)
     = true.
Proof. repeat split; vm_compute; reflexivity. Qed.
